(** * flipnote.js: a shallow embedding of the decode core

  The development follows the sources of the repository:
  - [dist/flipnote.es.js]: [DataStream], the audio utilities
    ([clamp], [pcmGetSample], [pcmResampleNearestNeighbour],
    [pcmGetClippingRatio]), [PpmParser] and [parseSource];
  - [src/parsers/KwzParser.ts]: [KwzParser] ([readBits], [decodeFrame],
    [decodeAudioTrack], [getAudioTrackPcm], [pcmAudioMix]);
  - [src/parser/fileReader.js]: the older byte cursor.

  JavaScript integers are modelled as [Z]; the 32-bit wrap-around of the
  bitwise operators is written out ([toInt32]).  Typed arrays are lists of
  [Z]; a store outside the array does nothing, as in JavaScript, and
  [TypedArray.prototype.set] outside the array raises.  Code that can
  throw returns [option]. *)

From Stdlib Require Import ZArith List Lia Bool QArith.
From Stdlib Require Import Floats.PrimFloat Floats.SpecFloat Floats.FloatOps.
From Stdlib Require Import Numbers.Cyclic.Int63.Uint63.
From stdpp Require Import base list.
Import ListNotations.

Local Open Scope Z_scope.

(** ** JavaScript numbers used as machine integers *)

Module JS.

(** [ToInt32]: the value every bitwise operator first brings its operands to. *)
Definition toInt32 (n : Z) : Z := (n + 2 ^ 31) mod 2 ^ 32 - 2 ^ 31.

(** [ToInt16]: what a store into an [Int16Array] keeps. *)
Definition toInt16 (n : Z) : Z := (n + 2 ^ 15) mod 2 ^ 16 - 2 ^ 15.

(** [a << b] *)
Definition shl (a b : Z) : Z := toInt32 (Z.shiftl (toInt32 a) (b mod 32)).

(** [a >> b] (sign-propagating) *)
Definition sar (a b : Z) : Z := Z.shiftr (toInt32 a) (b mod 32).

(** [a & b], [a | b], [a ^ b], [~a] *)
Definition and (a b : Z) : Z := Z.land (toInt32 a) (toInt32 b).
Definition or (a b : Z) : Z := Z.lor (toInt32 a) (toInt32 b).
Definition xor (a b : Z) : Z := Z.lxor (toInt32 a) (toInt32 b).
Definition not (a : Z) : Z := Z.lnot (toInt32 a).

(** An element read from a typed array is [undefined] outside the array;
    under a bitwise operator [undefined] counts as 0. *)
Definition int_of (o : option Z) : Z := default 0 o.

End JS.

(** A byte of an [ArrayBuffer]. *)
Definition uint8 (b : Z) : Prop := 0 <= b < 256.

(** [clamp(n, l, h)] *)
Definition clamp (n l h : Z) : Z :=
  if n <? l then l else if n >? h then h else n.

(** ** The format dispatcher: [parseSource] *)

Module ParseSource.

(** The two decoder constructors [parseSource] can call. *)
Inductive parser : Type :=
| PpmParser_new (arrayBuffer : list Z)
| KwzParser_new (arrayBuffer : list Z).







End ParseSource.


(** ** Typed arrays *)

(** [a[i]]: [None] stands for [undefined], the value of a read outside the array. *)
Definition at_ (a : list Z) (i : Z) : option Z :=
  if i <? 0 then None else a !! Z.to_nat i.

(** [a[i] = v]: a store outside the array is ignored. *)
Definition put (a : list Z) (i v : Z) : list Z :=
  if i <? 0 then a else <[Z.to_nat i := v]> a.

(** [a.fill(v)] and [a.fill(v, start, end)] for [0 <= start <= end]. *)
Definition fill (v : Z) (a : list Z) : list Z := map (fun _ => v) a.

Definition fill_range (v : Z) (a : list Z) (start stop : Z) : list Z :=
  take (Z.to_nat start) a
  ++ fill v (take (Z.to_nat (stop - start)) (drop (Z.to_nat start) a))
  ++ drop (Z.to_nat stop) a.

(** [a.subarray(start, end)] for [0 <= start <= end]; it is clamped to the array. *)
Definition subarray (a : list Z) (start stop : Z) : list Z :=
  take (Z.to_nat (stop - start)) (drop (Z.to_nat start) a).

(** [target.set(source, offset)]: a [RangeError] when the source does not fit. *)
Definition typed_set (target source : list Z) (offset : Z) : option (list Z) :=
  if (0 <=? offset) && (offset + Z.of_nat (length source) <=? Z.of_nat (length target))
  then Some (take (Z.to_nat offset) target ++ source
             ++ drop (Z.to_nat offset + length source) target)
  else None.

(** ** The byte cursor: [DataStream]

    [fileReader] (src/parser/fileReader.js) is the same cursor with the
    field [offset] for [pointer]; its [seek] is kept next to this one. *)

Module DataStream.

Record t : Type := mk { buffer : list Z; pointer : Z }.

Definition byteLength (ds : t) : Z := Z.of_nat (length (buffer ds)).

(** [seek(offset, whence)]: 2 is End, 1 is Current, 0 and any other value Begin. *)
Definition seek (offset whence : Z) (ds : t) : t :=
  if whence =? 2 then mk (buffer ds) (byteLength ds + offset)
  else if whence =? 1 then mk (buffer ds) (pointer ds + offset)
  else mk (buffer ds) offset.

(** The bytes a [DataView] getter reads: a [RangeError] ([None]) unless
    [0 <= byteOffset] and [byteOffset + size <= byteLength]. *)
Definition getBytes (ds : t) (byteOffset size : Z) : option (list Z) :=
  if (0 <=? byteOffset) && (byteOffset + size <=? byteLength ds)
  then Some (take (Z.to_nat size) (drop (Z.to_nat byteOffset) (buffer ds)))
  else None.

(** The unsigned value of a little-endian byte sequence. *)
Fixpoint le_value (bs : list Z) : Z :=
  match bs with
  | [] => 0
  | b :: rest => b + 256 * le_value rest
  end.

Definition getUint (ds : t) (byteOffset size : Z) (littleEndian : bool) : option Z :=
  bs ← getBytes ds byteOffset size;
  Some (le_value (if littleEndian then bs else rev bs)).

(** Two's complement reading of a [bits]-bit value. *)
Definition signed (bits v : Z) : Z :=
  if v <? 2 ^ (bits - 1) then v else v - 2 ^ bits.

Definition getInt (ds : t) (byteOffset size : Z) (littleEndian : bool) : option Z :=
  v ← getUint ds byteOffset size littleEndian; Some (signed (8 * size) v).

Definition advance (ds : t) (n : Z) : t := mk (buffer ds) (pointer ds + n).

Definition readUint8 (ds : t) : option (Z * t) :=
  val ← getUint ds (pointer ds) 1 true; Some (val, advance ds 1).

Definition readInt8 (ds : t) : option (Z * t) :=
  val ← getInt ds (pointer ds) 1 true; Some (val, advance ds 1).

Definition readUint16 (littleEndian : bool) (ds : t) : option (Z * t) :=
  val ← getUint ds (pointer ds) 2 littleEndian; Some (val, advance ds 2).

Definition readInt16 (littleEndian : bool) (ds : t) : option (Z * t) :=
  val ← getInt ds (pointer ds) 2 littleEndian; Some (val, advance ds 2).

Definition readUint32 (littleEndian : bool) (ds : t) : option (Z * t) :=
  val ← getUint ds (pointer ds) 4 littleEndian; Some (val, advance ds 4).

Definition readInt32 (littleEndian : bool) (ds : t) : option (Z * t) :=
  val ← getInt ds (pointer ds) 4 littleEndian; Some (val, advance ds 4).

(** The typed reads, named, with the width each one consumes. *)
Inductive typed : Type := Uint8 | Int8 | Uint16 | Int16 | Uint32 | Int32.

Definition width (ty : typed) : Z :=
  match ty with
  | Uint8 | Int8 => 1
  | Uint16 | Int16 => 2
  | Uint32 | Int32 => 4
  end.

Definition read (ty : typed) (littleEndian : bool) (ds : t) : option (Z * t) :=
  match ty with
  | Uint8 => readUint8 ds
  | Int8 => readInt8 ds
  | Uint16 => readUint16 littleEndian ds
  | Int16 => readInt16 littleEndian ds
  | Uint32 => readUint32 littleEndian ds
  | Int32 => readInt32 littleEndian ds
  end.

(** Where [seek] leaves the cursor. *)
Definition seek_target (offset whence : Z) (ds : t) : Z :=
  if whence =? 2 then byteLength ds + offset
  else if whence =? 1 then pointer ds + offset
  else offset.

(** The invariant the specification states for the cursor at rest. *)
Definition at_rest (ds : t) : Prop := 0 <= pointer ds <= byteLength ds.

End DataStream.

Module FileReader.

(** [fileReader.seek], over the same cursor record. *)
Definition seek (offset whence : Z) (r : DataStream.t) : DataStream.t :=
  if whence =? 2
  then DataStream.mk (DataStream.buffer r) (DataStream.byteLength r + offset)
  else if whence =? 1
       then DataStream.mk (DataStream.buffer r) (DataStream.pointer r + offset)
       else DataStream.mk (DataStream.buffer r) offset.

End FileReader.

(** ** Audio utilities *)

(** Samples are the elements of an [Int16Array]. *)
Definition int16 (s : Z) : Prop := -32768 <= s <= 32767.


(** [pcmGetClippingRatio(src)].  The loop counts the samples at a clipping
    bound; the quotient of the two counts is kept as a rational (the
    quotients 0 and 1 of the claim are exact in double precision too).  For
    an empty buffer JavaScript yields NaN (0/0), which a rational does not
    have. *)
Definition countClipped (src : list Z) : Z :=
  fold_left (fun numClippedSamples sample =>
               if (sample <=? -32768) || (sample >=? 32767)
               then numClippedSamples + 1 else numClippedSamples)
            src 0.

Definition pcmGetClippingRatio (src : list Z) : Q :=
  let numSamples := Z.of_nat (length src) in
  (inject_Z (countClipped src) / inject_Z numSamples)%Q.

(** [KwzParser.pcmAudioMix(src, dst, dstOffset)].  Besides the mixed buffer
    the model returns the indices [dstOffset + n] of the stores
    [dst[dstOffset + n] = ...] the loop executes, in order.  A read outside
    [dst] gives [undefined], the sum is then NaN and the store, outside the
    array as well, is ignored. *)
Fixpoint kwz_mix_loop (src : list Z) (n : Z) (dstOffset dstSize : Z)
  (dst : list Z) (stores : list Z) : list Z * list Z :=
  match src with
  | [] => (dst, stores)
  | s :: rest =>
      if dstOffset + n >? dstSize then (dst, stores)
      else
        let dst' :=
          match at_ dst (dstOffset + n) with
          | Some d => put dst (dstOffset + n) (JS.toInt16 (clamp (d + s) (-32768) 32767))
          | None => dst
          end in
        kwz_mix_loop rest (n + 1) dstOffset dstSize dst' (stores ++ [dstOffset + n])
  end.

Definition kwz_pcmAudioMix (src dst : list Z) (dstOffset : Z) : list Z * list Z :=
  kwz_mix_loop src 0 dstOffset (Z.of_nat (length dst)) dst [].

(** [PpmParser.pcmAudioMix]: the same loop with the source at half volume,
    [dst[i] + src[n] / 2]; the store into the [Int16Array] truncates the
    half towards zero. *)
Definition half_mix (d s : Z) : Z :=
  let twice := 2 * d + s in
  if twice <? 2 * -32768 then -32768
  else if twice >? 2 * 32767 then 32767
  else Z.quot twice 2.

Fixpoint ppm_mix_loop (src : list Z) (n : Z) (dstOffset dstSize : Z)
  (dst : list Z) (stores : list Z) : list Z * list Z :=
  match src with
  | [] => (dst, stores)
  | s :: rest =>
      if dstOffset + n >? dstSize then (dst, stores)
      else
        let dst' :=
          match at_ dst (dstOffset + n) with
          | Some d => put dst (dstOffset + n) (JS.toInt16 (half_mix d s))
          | None => dst
          end in
        ppm_mix_loop rest (n + 1) dstOffset dstSize dst' (stores ++ [dstOffset + n])
  end.

Definition ppm_pcmAudioMix (src dst : list Z) (dstOffset : Z) : list Z * list Z :=
  ppm_mix_loop src 0 dstOffset (Z.of_nat (length dst)) dst [].

(** ** ADPCM decoding *)

Definition ADPCM_INDEX_TABLE_2BIT : list Z := [-1; 2; -1; 2].

Definition ADPCM_INDEX_TABLE_4BIT : list Z :=
  [-1; -1; -1; -1; 2; 4; 6; 8;
   -1; -1; -1; -1; 2; 4; 6; 8].

Definition ADPCM_STEP_TABLE : list Z :=
  [7; 8; 9; 10; 11; 12; 13; 14; 16; 17;
   19; 21; 23; 25; 28; 31; 34; 37; 41; 45;
   50; 55; 60; 66; 73; 80; 88; 97; 107; 118;
   130; 143; 157; 173; 190; 209; 230; 253; 279; 307;
   337; 371; 408; 449; 494; 544; 598; 658; 724; 796;
   876; 963; 1060; 1166; 1282; 1411; 1552; 1707; 1878; 2066;
   2272; 2499; 2749; 3024; 3327; 3660; 4026; 4428; 4871; 5358;
   5894; 6484; 7132; 7845; 8630; 9493; 10442; 11487; 12635; 13899;
   15289; 16818; 18500; 20350; 22385; 24623; 27086; 29794; 32767; 0].

(** A JavaScript condition on a number: any value but 0 counts as true. *)
Definition truthy (n : Z) : bool := negb (n =? 0).

(** The 4-bit difference: [step >> 3], plus [step >> 2], [step >> 1] and
    [step] for the bits 1, 2 and 4 of the sample, negated for bit 8. *)
Definition diff4 (sample step : Z) : Z :=
  let diff := JS.sar step 3 in
  let diff := if truthy (JS.and sample 1) then diff + JS.sar step 2 else diff in
  let diff := if truthy (JS.and sample 2) then diff + JS.sar step 1 else diff in
  let diff := if truthy (JS.and sample 4) then diff + step else diff in
  if truthy (JS.and sample 8) then - diff else diff.

(** The 2-bit difference of format B. *)
Definition diff2 (sample step : Z) : Z :=
  let diff := JS.sar step 3 in
  let diff := if truthy (JS.and sample 1) then diff + step else diff in
  if truthy (JS.and sample 2) then - diff else diff.

Module PpmAudio.

(** The variables of the loop of [PpmParser.decodeAudioTrack]. *)
Record vars : Type := mk {
  srcPtr : Z;
  dstPtr : Z;
  stepIndex : Z;
  predictor : Z;
  lowNibble : bool;
  dst : list Z
}.

(** The decoder core for one 4-bit [sample]: the new predictor (the value
    the loop stores) and the new step index.  A table read outside the
    table stops the model. *)
Definition decodeSample (sample stepIndex predictor : Z) : option (Z * Z) :=
  step ← at_ ADPCM_STEP_TABLE stepIndex;
  let predictor := predictor + diff4 sample step in
  let predictor := clamp predictor (-32768) 32767 in
  delta ← at_ ADPCM_INDEX_TABLE_4BIT sample;
  let stepIndex := clamp (stepIndex + delta) 0 88 in
  Some (predictor, stepIndex).

(** One turn of [while (srcPtr < srcSize)]. *)
Definition iteration (src : list Z) (v : vars) : option vars :=
  byte ← at_ src (srcPtr v);
  let sample := if lowNibble v then JS.and byte 0xF else JS.sar byte 4 in
  let srcPtr' := if lowNibble v then srcPtr v else srcPtr v + 1 in
  '(predictor', stepIndex') ← decodeSample sample (stepIndex v) (predictor v);
  Some (mk srcPtr' (dstPtr v + 1) stepIndex' predictor' (negb (lowNibble v))
           (put (dst v) (dstPtr v) (JS.toInt16 predictor'))).

(** The loop, with the number of turns bounded by [fuel]; [None] also when
    the fuel runs out before the loop ends. *)
Fixpoint loop (fuel : nat) (src : list Z) (srcSize : Z) (v : vars) : option vars :=
  if srcPtr v <? srcSize then
    match fuel with
    | O => None
    | S fuel' => v' ← iteration src v; loop fuel' src srcSize v'
    end
  else Some v.

(** [decodeAudioTrack], from the raw track bytes [getAudioTrackRaw] returns. *)
Definition decodeAudioTrack (src : list Z) : option (list Z) :=
  let srcSize := Z.of_nat (length src) in
  v ← loop (2 * length src) src srcSize
        (mk 0 0 0 0 true (replicate (Z.to_nat (srcSize * 2)) 0));
  Some (dst v).

(** What the loop keeps true of its variables. *)
Definition audio_inv (src : list Z) (v : vars) : Prop :=
  0 <= srcPtr v <= Z.of_nat (length src) /\
  0 <= stepIndex v <= 88 /\
  Forall int16 (dst v) /\
  length (dst v) = (2 * length src)%nat.

End PpmAudio.

Module KwzAudio.

(** The variables of [KwzParser.decodeAudioTrack] that live across samples. *)
Record vars : Type := mk {
  predictor : Z;
  stepIndex : Z;
  outputPtr : Z;
  output : list Z
}.

(** One turn of [while (currBit < 8)]: a 2-bit or a 4-bit sample.  It
    returns the shifted byte, the new bit position and the clamped
    predictor and step index. *)
Definition decodeSample (currByte currBit stepIndex predictor : Z)
  : option (Z * Z * Z * Z) :=
  step ← at_ ADPCM_STEP_TABLE stepIndex;
  if (stepIndex <? 18) || (currBit >? 4) then
    let sample := JS.and currByte 0x3 in
    let predictor := predictor + diff2 sample step in
    delta ← at_ ADPCM_INDEX_TABLE_2BIT sample;
    Some (JS.sar currByte 2, currBit + 2,
          clamp (stepIndex + delta) 0 79, clamp predictor (-2048) 2047)
  else
    let sample := JS.and currByte 0xf in
    let predictor := predictor + diff4 sample step in
    delta ← at_ ADPCM_INDEX_TABLE_4BIT sample;
    Some (JS.sar currByte 4, currBit + 4,
          clamp (stepIndex + delta) 0 79, clamp predictor (-2048) 2047).

Fixpoint byteLoop (fuel : nat) (currByte currBit : Z) (v : vars) : option vars :=
  if currBit <? 8 then
    match fuel with
    | O => None
    | S fuel' =>
        '(currByte', currBit', stepIndex', predictor') ←
          decodeSample currByte currBit (stepIndex v) (predictor v);
        byteLoop fuel' currByte' currBit'
          (mk predictor' stepIndex' (outputPtr v + 1)
              (put (output v) (outputPtr v) (JS.toInt16 (predictor' * 16))))
    end
  else Some v.

(** [for (adpcmPtr = 0; adpcmPtr < adpcm.length; adpcmPtr++)] *)
Fixpoint trackLoop (adpcm : list Z) (v : vars) : option vars :=
  match adpcm with
  | [] => Some v
  | currByte :: rest => v' ← byteLoop 4 currByte 0 v; trackLoop rest v'
  end.

(** [decodeAudioTrack], from the raw track bytes and the two settings. *)
Definition decodeAudioTrack (cleanerAudio dsiLibraryNote : bool) (adpcm : list Z)
  : option (list Z) :=
  let output0 := replicate (Z.to_nat (16364 * 60)) 0 in
  let stepIndex0 := if cleanerAudio && negb dsiLibraryNote then 0 else 40 in
  v ← trackLoop adpcm (mk 0 stepIndex0 0 output0);
  Some (take (Z.to_nat (outputPtr v)) (output v)).

(** What the loops keep true of their variables. *)
Definition audio_inv (v : vars) : Prop :=
  0 <= stepIndex v <= 79 /\ Forall int16 (output v).

End KwzAudio.

(** ** Resampling *)

Module Num.

(** A non-negative integer below [2^63] as a JavaScript number. *)
Definition num (z : Z) : float := PrimFloat.of_uint63 (Uint63.of_Z z).



End Num.






(** ** Format B: the bit cursor of [KwzParser] *)

(** [BITMASKS[i] = (1 << i) - 1] for [i] from 0 to 15, a [Uint16Array(16)]. *)
Definition BITMASKS : list Z :=
  map (fun i => JS.shl 1 (Z.of_nat i) - 1) (seq 0 16).

Module KwzReader.

(** The fields of the parser that reading touches: the byte cursor it
    inherits from [DataStream], [bitIndex] and [bitValue]. *)
Record t : Type := mk {
  stream : DataStream.t;
  bitIndex : Z;
  bitValue : Z
}.

Definition seek (offset : Z) (r : t) : t :=
  mk (DataStream.seek offset 0 (stream r)) (bitIndex r) (bitValue r).

(** [readBits(num)].  [BITMASKS[num]] is [undefined] from 16 on, and
    [bitValue & undefined] is 0. *)
Definition readBits (num : Z) (r : t) : option (Z * t) :=
  r1 ← (if bitIndex r + num >? 16 then
          '(nextBits, ds) ← DataStream.readUint16 true (stream r);
          Some (mk ds (bitIndex r - 16)
                   (JS.or (bitValue r) (JS.shl nextBits (16 - bitIndex r))))
        else Some r);
  let result := JS.and (bitValue r1) (JS.int_of (at_ BITMASKS num)) in
  Some (result, mk (stream r1) (bitIndex r1 + num) (JS.sar (bitValue r1) num)).

(** [bitIndex = 16; bitValue = 0], the state each layer starts from. *)
Definition resetBits (r : t) : t := mk (stream r) 16 0.

(** A sequence of [readBits] calls, one per width, collecting the results. *)
Fixpoint readBitsSeq (widths : list Z) (r : t) : option (list Z * t) :=
  match widths with
  | [] => Some ([], r)
  | num :: rest =>
      '(v, r1) ← readBits num r;
      '(vs, r2) ← readBitsSeq rest r1;
      Some (v :: vs, r2)
  end.

(** *** What the bit cursor is meant to deliver *)

(** The byte stream as one number, first byte lowest: bit [k] of the
    stream is bit [k mod 8] of byte [k / 8], that is, every little-endian
    16-bit word in file order, each from its lowest bit up. *)
Definition streamBits (r : t) : Z :=
  DataStream.le_value (DataStream.buffer (stream r)).

(** The bits held in the accumulator and the position of the next bit. *)
Definition avail (r : t) : Z := 16 - bitIndex r.

Definition position (r : t) : Z := 8 * DataStream.pointer (stream r) - avail r.

(** The [n] bits of the stream from [pos] on, as a number. *)
Definition field (r : t) (pos n : Z) : Z :=
  Z.shiftr (streamBits r) pos mod 2 ^ n.

(** The states the cursor is in between calls: the accumulator holds the
    [avail] stream bits that precede the byte cursor. *)
Definition coherent (r : t) : Prop :=
  Forall uint8 (DataStream.buffer (stream r)) /\
  1 <= bitIndex r <= 16 /\
  0 <= position r /\
  DataStream.pointer (stream r) <= DataStream.byteLength (stream r) /\
  bitValue r = field r (position r) (avail r).

(** The consecutive fields a sequence of widths should return. *)
Fixpoint fields (r : t) (pos : Z) (widths : list Z) : list Z :=
  match widths with
  | [] => []
  | n :: rest => field r pos n :: fields r (pos + n) rest
  end.

Definition total (widths : list Z) : Z := fold_right Z.add 0 widths.

End KwzReader.

(** ** Format B: line tables and tile order *)

Definition digits3 : list Z := [0; 1; 2].

(** [KWZ_LINE_TABLE]: the eight nested loops over [a] to [h], writing
    [[b, a, d, c, f, e, h, g]] at consecutive offsets. *)
Definition KWZ_LINE_TABLE : list Z :=
  a ← digits3; b ← digits3; c ← digits3; d ← digits3;
  e ← digits3; f ← digits3; g ← digits3; h ← digits3;
  [b; a; d; c; f; e; h; g].

(** [KWZ_LINE_TABLE_SHIFT]: the same loops writing [[a, d, c, f, e, h, g, b]]. *)
Definition KWZ_LINE_TABLE_SHIFT : list Z :=
  a ← digits3; b ← digits3; c ← digits3; d ← digits3;
  e ← digits3; f ← digits3; g ← digits3; h ← digits3;
  [a; d; c; f; e; h; g; b].

Definition KWZ_COMMON_LINE_INDICES : list Z :=
  [0x0000; 0x0CD0; 0x19A0; 0x02D9; 0x088B; 0x0051; 0x00F3; 0x0009;
   0x001B; 0x0001; 0x0003; 0x05B2; 0x1116; 0x00A2; 0x01E6; 0x0012;
   0x0036; 0x0002; 0x0006; 0x0B64; 0x08DC; 0x0144; 0x00FC; 0x0024;
   0x001C; 0x0004; 0x0334; 0x099C; 0x0668; 0x1338; 0x1004; 0x166C].

(** [KWZ_LINE_TABLE_COMMON] and [KWZ_LINE_TABLE_COMMON_SHIFT]: for the
    [i]-th index [value], the eight pixels at [value * 8] of the full
    table, copied to offset [i * 8]. *)
Definition KWZ_LINE_TABLE_COMMON : list Z :=
  value ← KWZ_COMMON_LINE_INDICES;
  subarray KWZ_LINE_TABLE (value * 8) (value * 8 + 8).

Definition KWZ_LINE_TABLE_COMMON_SHIFT : list Z :=
  value ← KWZ_COMMON_LINE_INDICES;
  subarray KWZ_LINE_TABLE_SHIFT (value * 8) (value * 8 + 8).

(** The origins [(y, x)] of the 8x8 tiles in the order the four nested
    loops of [decodeFrame] visit them: large tiles of 128x128 row by row,
    and inside each the small tiles row by row; [break] ends a loop at the
    frame's edge. *)
Definition subTileOffsets : list Z := (fun k => 8 * k) <$> seqZ 0 16.

Fixpoint scanX (tileOffsetX y : Z) (subs : list Z) : list (Z * Z) :=
  match subs with
  | [] => []
  | subTileOffsetX :: rest =>
      let x := tileOffsetX + subTileOffsetX in
      if x >=? 320 then [] else (y, x) :: scanX tileOffsetX y rest
  end.

Fixpoint scanY (tileOffsetY tileOffsetX : Z) (subs : list Z) : list (Z * Z) :=
  match subs with
  | [] => []
  | subTileOffsetY :: rest =>
      let y := tileOffsetY + subTileOffsetY in
      if y >=? 240 then []
      else scanX tileOffsetX y subTileOffsets ++ scanY tileOffsetY tileOffsetX rest
  end.

Definition tileOrigins : list (Z * Z) :=
  tileOffsetY ← [0; 128]; tileOffsetX ← [0; 128; 256];
  scanY tileOffsetY tileOffsetX subTileOffsets.

(** ** Format B: [KwzParser.decodeFrame] *)

Module Kwz.

(** The size of a layer buffer: [KwzParser.width * KwzParser.height]. *)
Definition layerLength : nat := 320 * 240.

(** One call [pixelBuffer.set(pixels, offset)]. *)
Definition setcall : Type := (list Z * Z)%type.

(** What decoding one tile asks for: a list of [set] calls, in order, or
    (type 5) a number of tiles to skip. *)
Inductive tile : Type :=
| Draw (sets : list setcall)
| SkipTiles (count : Z).

(** The rows of a tile: [set(row, pixelBufferPtr)], then after each
    [pixelBufferPtr += 320] the next. *)
Definition setRows (rows : list (list Z)) (pixelBufferPtr : Z) : list setcall :=
  imap (fun k row => (row, pixelBufferPtr + 320 * Z.of_nat k)) rows.

Definition commonLine (linePtr : Z) : list Z :=
  subarray KWZ_LINE_TABLE_COMMON linePtr (linePtr + 8).

Definition commonLineShift (linePtr : Z) : list Z :=
  subarray KWZ_LINE_TABLE_COMMON_SHIFT linePtr (linePtr + 8).

Definition fullLine (linePtr : Z) : list Z :=
  subarray KWZ_LINE_TABLE linePtr (linePtr + 8).

Definition fullLineShift (linePtr : Z) : list Z :=
  subarray KWZ_LINE_TABLE_SHIFT linePtr (linePtr + 8).

(** Tile type 4: for [mask = 1, 2, 4, ..., 128] a common line (5 bits) if
    the flag bit is set, a full line (13 bits) otherwise. *)
Fixpoint readFlaggedLines (masks : list Z) (flags : Z) (r : KwzReader.t)
  : option (list (list Z) * KwzReader.t) :=
  match masks with
  | [] => Some ([], r)
  | mask :: rest =>
      '(pixels, r) ←
        (if truthy (JS.and flags mask)
         then '(v, r) ← KwzReader.readBits 5 r; Some (commonLine (v * 8), r)
         else '(v, r) ← KwzReader.readBits 13 r; Some (fullLine (v * 8), r));
      '(rows, r) ← readFlaggedLines rest flags r;
      Some (pixels :: rows, r)
  end.

(** Tile type 7: the four row patterns of two lines. *)
Definition patternRows (pattern : Z) (a b : list Z) : list (list Z) :=
  if pattern =? 0 then [a; b; a; b; a; b; a; b]
  else if pattern =? 1 then [a; a; b; a; a; b; a; a]
  else if pattern =? 2 then [a; b; a; a; b; a; a; b]
  else if pattern =? 3 then [a; b; b; a; b; b; a; b]
  else [].

(** The body of the tile loop after the skip counter: read the 3-bit tile
    type and the data of the tile. *)
Definition decodeTile (pixelBufferPtr : Z) (r : KwzReader.t)
  : option (tile * KwzReader.t) :=
  '(tileType, r) ← KwzReader.readBits 3 r;
  if tileType =? 0 then
    '(v, r) ← KwzReader.readBits 5 r;
    let pixels := commonLine (v * 8) in
    Some (Draw (setRows [pixels; pixels; pixels; pixels; pixels; pixels; pixels; pixels]
                  pixelBufferPtr), r)
  else if tileType =? 1 then
    '(v, r) ← KwzReader.readBits 13 r;
    let pixels := fullLine (v * 8) in
    Some (Draw (setRows [pixels; pixels; pixels; pixels; pixels; pixels; pixels; pixels]
                  pixelBufferPtr), r)
  else if tileType =? 2 then
    '(v, r) ← KwzReader.readBits 5 r;
    let a := commonLine (v * 8) in
    let b := commonLineShift (v * 8) in
    Some (Draw (setRows [a; b; a; b; a; b; a; b] pixelBufferPtr), r)
  else if tileType =? 3 then
    '(v, r) ← KwzReader.readBits 13 r;
    let a := fullLine (v * 8) in
    let b := fullLineShift (v * 8) in
    Some (Draw (setRows [a; b; a; b; a; b; a; b] pixelBufferPtr), r)
  else if tileType =? 4 then
    '(flags, r) ← KwzReader.readBits 8 r;
    '(rows, r) ← readFlaggedLines [1; 2; 4; 8; 16; 32; 64; 128] flags r;
    Some (Draw (setRows rows pixelBufferPtr), r)
  else if tileType =? 5 then
    '(count, r) ← KwzReader.readBits 5 r;
    Some (SkipTiles count, r)
  else if tileType =? 7 then
    '(pattern, r) ← KwzReader.readBits 2 r;
    '(useCommonLines, r) ← KwzReader.readBits 1 r;
    if truthy useCommonLines then
      '(va, r) ← KwzReader.readBits 5 r;
      '(vb, r) ← KwzReader.readBits 5 r;
      Some (Draw (setRows (patternRows ((pattern + 1) mod 4)
                             (commonLine (va * 8)) (commonLine (vb * 8)))
                    pixelBufferPtr), r)
    else
      '(va, r) ← KwzReader.readBits 13 r;
      '(vb, r) ← KwzReader.readBits 13 r;
      Some (Draw (setRows (patternRows pattern (fullLine (va * 8)) (fullLine (vb * 8)))
                    pixelBufferPtr), r)
  else Some (Draw [], r).

(** The [set] calls of a tile, applied in order. *)
Fixpoint applySets (sets : list setcall) (pixelBuffer : list Z) : option (list Z) :=
  match sets with
  | [] => Some pixelBuffer
  | (pixels, offset) :: rest =>
      pixelBuffer ← typed_set pixelBuffer pixels offset;
      applySets rest pixelBuffer
  end.

(** The tile loops of one layer, over the tile origins in order. *)
Fixpoint tileLoop (tiles : list (Z * Z)) (skipTileCounter : Z)
  (r : KwzReader.t) (pixelBuffer : list Z) : option (list Z) :=
  match tiles with
  | [] => Some pixelBuffer
  | (y, x) :: rest =>
      if skipTileCounter >? 0
      then tileLoop rest (skipTileCounter - 1) r pixelBuffer
      else
        '(t, r) ← decodeTile (y * 320 + x) r;
        match t with
        | Draw sets =>
            pixelBuffer ← applySets sets pixelBuffer;
            tileLoop rest skipTileCounter r pixelBuffer
        | SkipTiles count => tileLoop rest count r pixelBuffer
        end
  end.

(** What the constructor leaves in the parser and decoding does not
    change: the file and the frame tables.  The byte cursor and the bit
    cursor are set anew before every use ([seek], [bitIndex = 16;
    bitValue = 0]) and are therefore not part of the state below. *)
Record parser : Type := mkParser {
  buffer : list Z;
  frameCount : Z;
  frameMetaOffsets : list Z;
  frameDataOffsets : list Z;
  frameLayerSizes : list (list Z);
  dsiLibraryNote : bool
}.

(** What [decodeFrame] changes: the three layer buffers and the index of
    the frame decoded last ([null] at first). *)
Record state : Type := mkState {
  layers : list (list Z);
  prevFrameIndex : option Z
}.

(** The state of a parser just constructed. *)
Definition fresh : state :=
  mkState [replicate layerLength 0; replicate layerLength 0; replicate layerLength 0]
          None.

(** [getFrameDiffingFlag(frameIndex)] *)
Definition getFrameDiffingFlag (p : parser) (frameIndex : Z) : option Z :=
  offset ← at_ (frameMetaOffsets p) frameIndex;
  '(flags, _) ← DataStream.readUint32 true (DataStream.mk (buffer p) offset);
  Some (JS.and (JS.sar flags 4) 0x07).

(** One layer: the cursor is put at [framePtr], the bit cursor reset, and
    the tiles are decoded into [pixelBuffer]. *)
Definition decodeLayer (p : parser) (framePtr : Z) (pixelBuffer : list Z)
  : option (list Z) :=
  tileLoop tileOrigins 0
    (KwzReader.mk (DataStream.mk (buffer p) framePtr) 16 0) pixelBuffer.

(** [for (layerIndex = 0; layerIndex < 3; layerIndex++)] *)
Fixpoint layerLoop (p : parser) (layerSizes : list Z) (diffingFlag : Z)
  (layerIndexes : list Z) (framePtr : Z) (layers : list (list Z))
  : option (list (list Z)) :=
  match layerIndexes with
  | [] => Some layers
  | layerIndex :: rest =>
      if dsiLibraryNote p && (layerIndex =? 3) then Some layers
      else
        layerSize ← at_ layerSizes layerIndex;
        pixelBuffer ← layers !! Z.to_nat layerIndex;
        if layerSize =? 38
        then layerLoop p layerSizes diffingFlag rest (framePtr + layerSize) layers
        else if JS.and (JS.sar diffingFlag layerIndex) 0x1 =? 0
        then layerLoop p layerSizes diffingFlag rest (framePtr + layerSize) layers
        else
          pixelBuffer ← decodeLayer p framePtr pixelBuffer;
          layerLoop p layerSizes diffingFlag rest (framePtr + layerSize)
            (<[Z.to_nat layerIndex := pixelBuffer]> layers)
  end.

(** The part of [decodeFrame] after the recursion. *)
Definition decodeLayers (p : parser) (frameIndex diffingFlag : Z) (s : state)
  : option state :=
  framePtr ← at_ (frameDataOffsets p) frameIndex;
  layerSizes ← frameLayerSizes p !! Z.to_nat frameIndex;
  layers ← layerLoop p layerSizes diffingFlag [0; 1; 2] framePtr (layers s);
  Some (mkState layers (Some frameIndex)).

(** [this.prevFrameIndex !== frameIndex - 1] *)
Definition prevIsNot (prev : option Z) (n : Z) : bool :=
  match prev with
  | Some q => negb (q =? n)
  | None => true
  end.

(** [decodeFrame(frameIndex, diffingFlag, isPrevFrame)] for the frame
    index [n >= 0]; the recursive call is on [frameIndex - 1]. *)
Fixpoint decodeFrameFrom (p : parser) (n : nat) (diffingFlag : Z)
  (isPrevFrame : bool) (s : state) : option state :=
  let frameIndex := Z.of_nat n in
  if negb (frameIndex <? frameCount p) then None
  else
    '(diffingFlag, s) ←
      match n with
      | O => Some (diffingFlag, s)
      | S n' =>
          if prevIsNot (prevFrameIndex s) (frameIndex - 1) then
            diffingFlag ←
              (if isPrevFrame
               then flag ← getFrameDiffingFlag p (frameIndex + 1);
                    Some (JS.and diffingFlag (JS.not flag))
               else Some diffingFlag);
            if negb (diffingFlag =? 0)
            then s ← decodeFrameFrom p n' diffingFlag true s; Some (diffingFlag, s)
            else Some (diffingFlag, s)
          else Some (diffingFlag, s)
      end;
    decodeLayers p frameIndex diffingFlag s.

(** [decodeFrame(frameIndex)] with the default arguments; the assertion
    fails for a negative index. *)
Definition decodeFrame (p : parser) (frameIndex : Z) (s : state) : option state :=
  if frameIndex >? -1 then decodeFrameFrom p (Z.to_nat frameIndex) 0x7 false s
  else None.

(** [decodeFrame(0)], [decodeFrame(1)], ..., [decodeFrame(n)] in sequence. *)
Fixpoint decodeSequence (p : parser) (n : nat) (s : state) : option state :=
  match n with
  | O => decodeFrame p 0 s
  | S n' => s ← decodeSequence p n' s; decodeFrame p (Z.of_nat n) s
  end.

(** [getFrameOffsets()], the part of the constructor that builds the
    frame tables, from the frame count and the positions of the KMI and
    KMC sections. *)
Fixpoint frameOffsetsLoop (buf : list Z) (frames : nat)
  (frameMetaPtr frameDataPtr : Z) (metas datas : list Z) (sizes : list (list Z))
  : option (list Z * list Z * list (list Z)) :=
  match frames with
  | O => Some (metas, datas, sizes)
  | S frames' =>
      '(layerASize, ds) ← DataStream.readUint16 true (DataStream.mk buf (frameMetaPtr + 4));
      '(layerBSize, ds) ← DataStream.readUint16 true ds;
      '(layerCSize, ds) ← DataStream.readUint16 true ds;
      let metas := metas ++ [frameMetaPtr mod 2 ^ 32] in
      let datas := datas ++ [frameDataPtr mod 2 ^ 32] in
      let frameMetaPtr := frameMetaPtr + 28 in
      let frameDataPtr := frameDataPtr + (layerASize + layerBSize + layerCSize) in
      if negb (frameMetaPtr <? Z.of_nat (length buf)) then None
      else if negb (frameDataPtr <? Z.of_nat (length buf)) then None
      else frameOffsetsLoop buf frames' frameMetaPtr frameDataPtr metas datas
             (sizes ++ [[layerASize; layerBSize; layerCSize]])
  end.

Definition getFrameOffsets (buf : list Z) (numFrames kmiPtr kmiLength kmcPtr : Z)
  (dsiLibraryNote : bool) : option parser :=
  if negb (28 * numFrames <=? kmiLength) then None
  else
    '(metas, datas, sizes) ←
      frameOffsetsLoop buf (Z.to_nat numFrames) (kmiPtr + 8) (kmcPtr + 12) [] [] [];
    Some (mkParser buf numFrames metas datas sizes dsiLibraryNote).

End Kwz.

(** ** Format A: [PpmParser.decodeFrame] (dist/flipnote.es.js) *)

Module Ppm.

(** [PpmParser.width], [PpmParser.height] *)
Definition width : Z := 256.
Definition height : Z := 192.

(** The length of a layer buffer, [width * height]. *)
Definition layerLength : nat := 256 * 192.

(** [a[i] = v] on a [Uint8Array]: the value is kept modulo 256. *)
Definition store (a : list Z) (i v : Z) : list Z := put a i (v mod 256).

(** What the constructor leaves in the parser and decoding does not
    change: the file, the frame count and the table of frame offsets.  A
    frame index without an entry in the table is outside the model
    ([None]).  The byte cursor is set anew by every [seek] and the line
    encoding buffers are cleared before every use; they are locals below. *)
Record parser : Type := mkParser {
  buffer : list Z;
  frameCount : Z;
  frameOffsets : list Z
}.

(** What [decodeFrame] changes: [layerBuffers], [prevLayerBuffers] (two
    buffers each) and [prevDecodedFrame] ([null] at first). *)
Record state : Type := mkState {
  layerBuffers : list Z * list Z;
  prevLayerBuffers : list Z * list Z;
  prevDecodedFrame : option Z
}.

(** The state of a parser just constructed. *)
Definition fresh : state :=
  mkState (replicate layerLength 0, replicate layerLength 0)
          (replicate layerLength 0, replicate layerLength 0) None.

(** [isNewFrame(frameIndex)] *)
Definition isNewFrame (p : parser) (frameIndex : Z) : option Z :=
  offset ← at_ (frameOffsets p) frameIndex;
  '(header, _) ← DataStream.readUint8 (DataStream.mk (buffer p) offset);
  Some (JS.and (JS.sar header 7) 0x1).

(** The line encodings of one layer:
    [for (let ptr = 0; ptr < lineEncodingBuffer.length;)]; either branch
    advances [ptr] by 4, which makes 48 rounds for the 192 lines. *)
Fixpoint lineEncodingLoop (rounds : nat) (ptr : Z) (lineEncodingBuffer : list Z)
  (ds : DataStream.t) : option (list Z * DataStream.t) :=
  match rounds with
  | O => Some (lineEncodingBuffer, ds)
  | S rounds' =>
      '(byte, ds) ← DataStream.readUint8 ds;
      if byte =? 0 then lineEncodingLoop rounds' (ptr + 4) lineEncodingBuffer ds
      else
        let b := store lineEncodingBuffer ptr (JS.and byte 0x03) in
        let b := store b (ptr + 1) (JS.and (JS.sar byte 2) 0x03) in
        let b := store b (ptr + 2) (JS.and (JS.sar byte 4) 0x03) in
        let b := store b (ptr + 3) (JS.and (JS.sar byte 6) 0x03) in
        lineEncodingLoop rounds' (ptr + 4) b ds
  end.

(** Line type 1, one chunk:
    [for (let pixel = 0; chunk !== 0; pixel++, chunk >>= 1)]; a byte is
    zero after eight shifts. *)
Fixpoint chunkLoop (fuel : nat) (pixel chunk pixelBufferPtr : Z)
  (pixelBuffer : list Z) : list Z :=
  match fuel with
  | O => pixelBuffer
  | S fuel' =>
      if chunk =? 0 then pixelBuffer
      else chunkLoop fuel' (pixel + 1) (JS.sar chunk 1) pixelBufferPtr
             (store pixelBuffer (pixelBufferPtr + pixel) (JS.and chunk 0x1))
  end.

(** Line type 2, one chunk:
    [for (let pixel = 0; pixel < 8; pixel++, chunk >>= 1)] *)
Fixpoint chunkLoop8 (count : nat) (pixel chunk pixelBufferPtr : Z)
  (pixelBuffer : list Z) : list Z :=
  match count with
  | O => pixelBuffer
  | S count' =>
      chunkLoop8 count' (pixel + 1) (JS.sar chunk 1) pixelBufferPtr
        (store pixelBuffer (pixelBufferPtr + pixel) (JS.and chunk 0x1))
  end.

(** [for (; lineHeader !== 0; lineHeader <<= 1, pixelBufferPtr += 8)],
    with the chunk loop of the line type; a 32-bit value is zero after 32
    shifts to the left. *)
Fixpoint lineHeaderLoop (fuel : nat) (unpack : Z -> Z -> list Z -> list Z)
  (lineHeader pixelBufferPtr : Z) (pixelBuffer : list Z) (ds : DataStream.t)
  : option (list Z * DataStream.t) :=
  match fuel with
  | O => Some (pixelBuffer, ds)
  | S fuel' =>
      if lineHeader =? 0 then Some (pixelBuffer, ds)
      else
        '(pixelBuffer, ds) ←
          (if negb (JS.and lineHeader 0x80000000 =? 0)
           then '(chunk, ds) ← DataStream.readUint8 ds;
                Some (unpack chunk pixelBufferPtr pixelBuffer, ds)
           else Some (pixelBuffer, ds));
        lineHeaderLoop fuel' unpack (JS.shl lineHeader 1) (pixelBufferPtr + 8)
          pixelBuffer ds
  end.

(** Line type 3:
    [for (let chunk = 0, i = 0; i < PpmParser.width; i++)] *)
Fixpoint rawLoop (count : nat) (i chunk pixelBufferPtr : Z)
  (pixelBuffer : list Z) (ds : DataStream.t) : option (list Z * DataStream.t) :=
  match count with
  | O => Some (pixelBuffer, ds)
  | S count' =>
      '(chunk, ds) ← (if i mod 8 =? 0 then DataStream.readUint8 ds
                      else Some (chunk, ds));
      rawLoop count' (i + 1) (JS.sar chunk 1) (pixelBufferPtr + 1)
        (store pixelBuffer pixelBufferPtr (JS.and chunk 0x1)) ds
  end.

(** The bitmap of one layer: [for (let y = 0; y < PpmParser.height; y++)] *)
Fixpoint lineLoop (count : nat) (y : Z) (lineEncodingBuffer pixelBuffer : list Z)
  (ds : DataStream.t) : option (list Z * DataStream.t) :=
  match count with
  | O => Some (pixelBuffer, ds)
  | S count' =>
      let pixelBufferPtr := y * width in
      lineType ← at_ lineEncodingBuffer y;
      '(pixelBuffer, ds) ←
        (if lineType =? 1 then
           '(lineHeader, ds) ← DataStream.readUint32 false ds;
           lineHeaderLoop 32 (chunkLoop 8 0) lineHeader pixelBufferPtr pixelBuffer ds
         else if lineType =? 2 then
           let pixelBuffer :=
             fill_range 1 pixelBuffer pixelBufferPtr (pixelBufferPtr + width) in
           '(lineHeader, ds) ← DataStream.readUint32 false ds;
           lineHeaderLoop 32 (chunkLoop8 8 0) lineHeader pixelBufferPtr pixelBuffer ds
         else if lineType =? 3 then
           rawLoop 256 0 0 pixelBufferPtr pixelBuffer ds
         else Some (pixelBuffer, ds));
      lineLoop count' (y + 1) lineEncodingBuffer pixelBuffer ds
  end.

(** [layer[dest] ^= layerPrev[src]] *)
Definition xorStore (layer : list Z) (dest : Z) (layerPrev : list Z) (src : Z)
  : list Z :=
  store layer dest (JS.xor (JS.int_of (at_ layer dest)) (JS.int_of (at_ layerPrev src))).

(** [for (let x = 0; x < PpmParser.width; x++)] with its [continue] and
    [break] *)
Fixpoint xorPixels (count : nat) (x y translateX translateY : Z)
  (layer1 layer2 layer1Prev layer2Prev : list Z) : list Z * list Z :=
  match count with
  | O => (layer1, layer2)
  | S count' =>
      if x - translateX <? 0
      then xorPixels count' (x + 1) y translateX translateY
             layer1 layer2 layer1Prev layer2Prev
      else if x - translateX >=? width then (layer1, layer2)
      else
        let dest := x + y * width in
        let src := dest - (translateX + translateY * width) in
        xorPixels count' (x + 1) y translateX translateY
          (xorStore layer1 dest layer1Prev src) (xorStore layer2 dest layer2Prev src)
          layer1Prev layer2Prev
  end.

(** [for (let y = 0; y < PpmParser.height; y++)] with its [continue] and
    [break] *)
Fixpoint xorLines (count : nat) (y translateX translateY : Z)
  (layer1 layer2 layer1Prev layer2Prev : list Z) : list Z * list Z :=
  match count with
  | O => (layer1, layer2)
  | S count' =>
      if y - translateY <? 0
      then xorLines count' (y + 1) translateX translateY
             layer1 layer2 layer1Prev layer2Prev
      else if y - translateY >=? height then (layer1, layer2)
      else
        let '(layer1, layer2) :=
          xorPixels 256 0 y translateX translateY
            layer1 layer2 layer1Prev layer2Prev in
        xorLines count' (y + 1) translateX translateY
          layer1 layer2 layer1Prev layer2Prev
  end.

(** What the frame data holds: the header flags, the translation and the
    two bitmaps, unpacked into the cleared layer buffers. *)
Record bitmaps : Type := mkBitmaps {
  isNew : Z;
  translateX : Z;
  translateY : Z;
  layer1 : list Z;
  layer2 : list Z
}.

(** [decodeFrame] from the [seek] to the end of the bitmap loops. *)
Definition unpackFrame (p : parser) (frameIndex : Z) (layerBuffers : list Z * list Z)
  : option bitmaps :=
  offset ← at_ (frameOffsets p) frameIndex;
  '(header, ds) ← DataStream.readUint8 (DataStream.mk (buffer p) offset);
  let isNewFrame := JS.and (JS.sar header 7) 0x1 in
  let isTranslated := JS.and (JS.sar header 5) 0x3 in
  let layer1 := fill 0 (fst layerBuffers) in
  let layer2 := fill 0 (snd layerBuffers) in
  '(translateX, translateY, ds) ←
    (if negb (isTranslated =? 0)
     then '(translateX, ds) ← DataStream.readInt8 ds;
          '(translateY, ds) ← DataStream.readInt8 ds;
          Some (translateX, translateY, ds)
     else Some (0, 0, ds));
  '(lineEncoding1, ds) ← lineEncodingLoop 48 0 (replicate 192 0) ds;
  '(lineEncoding2, ds) ← lineEncodingLoop 48 0 (replicate 192 0) ds;
  '(layer1, ds) ← lineLoop 192 0 lineEncoding1 layer1 ds;
  '(layer2, ds) ← lineLoop 192 0 lineEncoding2 layer2 ds;
  Some (mkBitmaps isNewFrame translateX translateY layer1 layer2).

(** The part of [decodeFrame] after the recursion. *)
Definition decodeBody (p : parser) (frameIndex : Z) (s : state) : option state :=
  f ← unpackFrame p frameIndex (layerBuffers s);
  let '(layer1, layer2) :=
    if isNew f =? 0
    then xorLines 192 0 (translateX f) (translateY f) (layer1 f) (layer2 f)
           (fst (prevLayerBuffers s)) (snd (prevLayerBuffers s))
    else (layer1 f, layer2 f) in
  prev1 ← typed_set (fst (prevLayerBuffers s)) layer1 0;
  prev2 ← typed_set (snd (prevLayerBuffers s)) layer2 0;
  Some (mkState (layer1, layer2) (prev1, prev2) (Some frameIndex)).

(** [this.prevDecodedFrame !== frameIndex - 1] *)
Definition prevIsNot (prev : option Z) (n : Z) : bool :=
  match prev with
  | Some q => negb (q =? n)
  | None => true
  end.

(** [decodeFrame(frameIndex)] for the frame index [n >= 0]; the recursive
    call is on [frameIndex - 1]. *)
Fixpoint decodeFrameFrom (p : parser) (n : nat) (s : state) : option state :=
  let frameIndex := Z.of_nat n in
  if negb (frameIndex <? frameCount p) then None
  else
    s ← (if prevIsNot (prevDecodedFrame s) (frameIndex - 1) then
           isNew ← isNewFrame p frameIndex;
           if isNew =? 0 then
             match n with
             | O => Some s
             | S n' => decodeFrameFrom p n' s
             end
           else Some s
         else Some s);
    decodeBody p frameIndex s.

(** [decodeFrame(frameIndex)]; the assertion fails for a negative index. *)
Definition decodeFrame (p : parser) (frameIndex : Z) (s : state) : option state :=
  if frameIndex >? -1 then decodeFrameFrom p (Z.to_nat frameIndex) s else None.

(** [decodeFrame(0)], [decodeFrame(1)], ..., [decodeFrame(n)] in sequence. *)
Fixpoint decodeSequence (p : parser) (n : nat) (s : state) : option state :=
  match n with
  | O => decodeFrame p 0 s
  | S n' => s ← decodeSequence p n' s; decodeFrame p (Z.of_nat n) s
  end.

End Ppm.

(** ** Format B: the notions the statements about [decodeFrame] use *)

Module KwzView.
Import Kwz.

(** A function on layer buffers that only overwrites: it keeps the
    length, and at each position it either stores a value of its own or
    leaves what was there. *)
Definition overwrites (f : list Z -> list Z) : Prop :=
  (forall b, length b = layerLength -> length (f b) = layerLength) /\
  (forall q : nat,
      (exists v, forall b, length b = layerLength -> f b !! q = Some v) \/
      (forall b, length b = layerLength -> f b !! q = b !! q)).

(** The offsets the [set] calls of the tile at [pixelBufferPtr] may have:
    one of its eight rows, with at most eight pixels. *)
Definition tileSet (pixelBufferPtr : Z) (c : setcall) : Prop :=
  (length (fst c) <= 8)%nat /\
  exists k, 0 <= k < 8 /\ snd c = pixelBufferPtr + 320 * k.

(** The tile origins of a 320x240 frame. *)
Definition originInside (yx : Z * Z) : Prop :=
  0 <= fst yx <= 232 /\ 0 <= snd yx <= 312.

(** Bit [layerIndex] of a diffing flag, as [decodeFrame] tests it. *)
Definition layerBit (diffingFlag layerIndex : Z) : bool :=
  negb (JS.and (JS.sar diffingFlag layerIndex) 0x1 =? 0).

(** The tables answer for every frame, and the flags of every frame can be
    read; the constructor establishes both. *)
Definition tables_ok (p : parser) : Prop :=
  forall j, 0 <= j < frameCount p ->
    exists metaPtr dataPtr a b c,
      at_ (frameMetaOffsets p) j = Some metaPtr /\
      0 <= metaPtr /\ metaPtr + 4 <= Z.of_nat (length (buffer p)) /\
      at_ (frameDataOffsets p) j = Some dataPtr /\
      frameLayerSizes p !! Z.to_nat j = Some [a; b; c].

(** Three layer buffers of the right size. *)
Definition state_ok (s : state) : Prop :=
  exists b0 b1 b2,
    layers s = [b0; b1; b2] /\
    length b0 = layerLength /\ length b1 = layerLength /\ length b2 = layerLength.

(** Where layer [layerIndex] of frame [frameIndex] starts in the file. *)
Definition layerPtr (p : parser) (frameIndex layerIndex : Z) : option Z :=
  framePtr ← at_ (frameDataOffsets p) frameIndex;
  layerSizes ← frameLayerSizes p !! Z.to_nat frameIndex;
  Some (framePtr + fold_right Z.add 0 (take (Z.to_nat layerIndex) layerSizes)).

(** What frame [frameIndex] does to layer [layerIndex] when the diffing
    flag lets it: nothing for a 38-byte layer, else the tiles. *)
Definition layerOp (p : parser) (frameIndex layerIndex : Z) (b : list Z)
  : option (list Z) :=
  layerSizes ← frameLayerSizes p !! Z.to_nat frameIndex;
  layerSize ← at_ layerSizes layerIndex;
  ptr ← layerPtr p frameIndex layerIndex;
  if layerSize =? 38 then Some b else decodeLayer p ptr b.

(** What [decodeLayers] does to one layer under a diffing flag. *)
Definition maskedOp (p : parser) (j m : Z) (L : nat) (b : list Z) : option (list Z) :=
  if layerBit m (Z.of_nat L) then layerOp p j (Z.of_nat L) b else Some b.

(** The layer operations of the frames [first], [first + 1], ...,
    [count] of them, one after the other. *)
Fixpoint applyFrom (p : parser) (layerIndex : Z) (first : Z) (count : nat)
  (b : list Z) : option (list Z) :=
  match count with
  | O => Some b
  | S count' =>
      b ← layerOp p first layerIndex b;
      applyFrom p layerIndex (first + 1) count' b
  end.

(** Frame [frameIndex] marks layer [layerIndex] as not based on the
    previous frame. *)
Definition keyLayer (p : parser) (frameIndex layerIndex : Z) : bool :=
  layerBit (default 0 (getFrameDiffingFlag p frameIndex)) layerIndex.

(** The frame at which the recursion of [decodeFrame(n)] stops for a
    layer: the last frame up to [n], from frame 2 on, that marks the layer
    as not based on its predecessor, or frame 0. *)
Fixpoint chainStart (p : parser) (layerIndex : Z) (n : nat) : nat :=
  match n with
  | O => O
  | S O => O
  | S n' => if keyLayer p (Z.of_nat n) layerIndex then n else chainStart p layerIndex n'
  end.

(** The frames from [chainStart] to [n], one after the other, on [b]. *)
Definition replay (p : parser) (layerIndex : Z) (n : nat) (b : list Z)
  : option (list Z) :=
  applyFrom p layerIndex (Z.of_nat (chainStart p layerIndex n))
    (S n - chainStart p layerIndex n) b.

(** The buffer is what the frames from [chainStart] to [n] leave, started
    on some buffer. *)
Definition chainImage (p : parser) (layerIndex : Z) (n : nat) (b : list Z) : Prop :=
  exists b0, length b0 = layerLength /\ replay p layerIndex n b0 = Some b.


(** No frame below [n] is the one decoded last, so that a call for frame
    [n] goes down the whole chain. *)
Definition noShortcut (prev : option Z) (n : nat) : Prop :=
  match prev with
  | Some q => Z.of_nat n <= q
  | None => True
  end.

(** One pixel of a layer. *)
Definition pixel (L q : nat) (s : state) : option Z :=
  b ← layers s !! L; b !! q.

(** What every state reached by [decodeFrame] calls satisfies. *)
Definition chained (p : parser) (s : state) : Prop :=
  forall n : nat,
    prevFrameIndex s = Some (Z.of_nat n) ->
    forall L b, (L < 3)%nat -> layers s !! L = Some b -> chainImage p (Z.of_nat L) n b.

(** The states a parser goes through: freshly constructed, then any
    successful [decodeFrame] calls. *)
Inductive reachable (p : parser) : state -> Prop :=
| reach_fresh : reachable p fresh
| reach_decode s frameIndex s' :
    reachable p s -> decodeFrame p frameIndex s = Some s' -> reachable p s'.



End KwzView.

(** ** Format A: the notions the statements about [decodeFrame] use *)

Module PpmView.
Import Ppm.

(** Two layer buffers and two previous buffers of the right size. *)
Definition state_ok (s : state) : Prop :=
  length (fst (layerBuffers s)) = layerLength /\
  length (snd (layerBuffers s)) = layerLength /\
  length (fst (prevLayerBuffers s)) = layerLength /\
  length (snd (prevLayerBuffers s)) = layerLength.





(** No frame below [n] is the one decoded last. *)
Definition noShortcut (prev : option Z) (n : nat) : Prop :=
  match prev with
  | Some q => Z.of_nat n <= q
  | None => True
  end.


(** The states a parser goes through: freshly constructed, then any
    successful [decodeFrame] calls. *)
Inductive reachable (p : parser) : state -> Prop :=
| reach_fresh : reachable p fresh
| reach_decode s frameIndex s' :
    reachable p s -> decodeFrame p frameIndex s = Some s' -> reachable p s'.

End PpmView.

(** ** Test files *)

(** A run returns something. *)
Definition returns {A} (x : option A) : bool :=
  match x with
  | Some _ => true
  | None => false
  end.

(** The frame sections of a format B file with three frames: the KMI
    section at 0 (three 28-byte records), the KMC section at 92, a KSN tag
    at the end.  The sections in front of them, which hold the frame count
    and the thumbnail, are left out: [decodeFrame] does not read them.
    Frame 0 has a
    40-byte layer A: tile type 0 with common line 1 (eight pixels of
    colour 1) for the first tile, then skip commands for all the others;
    its layers B and C, and all layers of frames 1 and 2, have the size
    38.  Frame 2 carries the flags [0x70]: all three layers marked as not
    based on the previous frame. *)
Definition kwz_three_frames : list Z :=
  [75; 77; 73; 0; 84] ++ replicate 7 0 ++ [40; 0; 38; 0; 38] ++ replicate 23 0
  ++ [38; 0; 38; 0; 38] ++ replicate 19 0
  ++ [112; 0; 0; 0; 38; 0; 38; 0; 38] ++ replicate 19 0
  ++ [75; 77; 67; 0; 92; 1] ++ replicate 6 0
  ++ [8] ++ replicate 39 253 ++ replicate 304 0 ++ [75; 83; 78; 0].

(** The parser [getFrameOffsets] builds from them. *)
Definition kwz_three_parser : Kwz.parser :=
  Kwz.mkParser kwz_three_frames 3 [8; 36; 64] [104; 220; 334]
    [[40; 38; 38]; [38; 38; 38]; [38; 38; 38]] false.

(** The same with two frames, the first two of the file above: no frame
    from frame 2 on, so no flags that are ever looked at. *)
Definition kwz_two_frames : list Z :=
  [75; 77; 73; 0; 56] ++ replicate 7 0 ++ [40; 0; 38; 0; 38] ++ replicate 23 0
  ++ [38; 0; 38; 0; 38] ++ replicate 19 0
  ++ [75; 77; 67; 0; 234] ++ replicate 7 0
  ++ [8] ++ replicate 39 253 ++ replicate 190 0 ++ [75; 83; 78; 0].

Definition kwz_two_parser : Kwz.parser :=
  Kwz.mkParser kwz_two_frames 2 [8; 36] [76; 192]
    [[40; 38; 38]; [38; 38; 38]] false.

(** The data of a format A frame with one pixel: a header byte, the line
    encodings of the two layers (line 0 of the first layer has type 1),
    the line header [0x80000000] and the chunk. *)
Definition ppm_frame (header chunk : Z) : list Z :=
  [header] ++ [1] ++ replicate 47 0 ++ replicate 48 0 ++ [128; 0; 0; 0; chunk].


(** The same with two frames, neither based on the previous one. *)
Definition ppm_key_parser : Ppm.parser :=
  Ppm.mkParser (ppm_frame 128 1 ++ ppm_frame 128 2) 2 [0; 102].

(** ** Notions for the statements about the rest of the code *)

(** A pixel of a format B layer: empty, or one of the two colours of the
    layer. *)
Definition ternary (v : Z) : Prop := 0 <= v <= 2.


Definition kwz_pixels_ok (s : Kwz.state) : Prop :=
  KwzView.state_ok s /\ Forall (Forall ternary) (Kwz.layers s).


(** What the accessors of the frame meta data of format B need: the
    28-byte record of the frame lies inside the file. *)
Definition record_inside (p : Kwz.parser) (i : Z) : Prop :=
  exists m, at_ (Kwz.frameMetaOffsets p) i = Some m /\
            0 <= m /\ m + 28 < Z.of_nat (length (Kwz.buffer p)).

(** The pixels [getFramePixels] of format B visits with [dsiLibraryNote]:
    the rows 32 to 191, and of each the columns 0 to 231. *)
Definition inCrop (q : Z) : Prop := 32 <= q / 320 < 192 /\ q mod 320 < 232.

(** A sample of a format B track: 16 times a 12-bit value. *)
Definition sample12 (x : Z) : Prop := exists k, x = 16 * k /\ -2048 <= k <= 2047.

(** What the mixers leave at a position of the master track that held
    [d], for the source [src] mixed in from [dstOffset] on with [mix]. *)
Definition mixedAt (mix : Z -> Z -> Z) (src : list Z) (dstOffset q d : Z) : Z :=
  match at_ src (q - dstOffset) with
  | Some s => mix d s
  | None => d
  end.

(** The digit of weight [3 ^ k] of a line index. *)
Definition digit3 (i k : Z) : Z := (i / 3 ^ k) mod 3.

(** The line a line index stands for: its eight digits, the most
    significant first, swapped in pairs. *)
Definition lineOf (i : Z) : list Z :=
  [digit3 i 6; digit3 i 7; digit3 i 4; digit3 i 5;
   digit3 i 2; digit3 i 3; digit3 i 0; digit3 i 1].

(** A line, rotated to the left by one pixel. *)
Definition rotated (line : list Z) : list Z := drop 1 line ++ take 1 line.

(** A table holds the lines [line i], [line (i + 1)], ... and nothing
    else. *)
Fixpoint holdsLines (line : Z -> list Z) (count : nat) (i : Z) (table : list Z) : bool :=
  match count with
  | O => match table with
         | [] => true
         | _ => false
         end
  | S count' =>
      bool_decide (take 8 table = line i)
      && holdsLines line count' (i + 1) (drop 8 table)
  end.

(** ** Format A: palette and pixels of a frame (dist/flipnote.es.js) *)

Module PpmImage.
Import Ppm.

(** [getFramePaletteIndices(frameIndex)]: the indices of the paper colour
    and of the colours of the two layers. *)
Definition getFramePaletteIndices (p : parser) (frameIndex : Z) : option (list Z) :=
  offset ← at_ (frameOffsets p) frameIndex;
  '(header, _) ← DataStream.readUint8 (DataStream.mk (buffer p) offset);
  let isInverted := negb (JS.and header 0x1 =? 1) in
  let penMap : list Z :=
    [if isInverted then 0 else 1; if isInverted then 0 else 1; 2; 3] in
  layer1Color ← at_ penMap (JS.and (JS.sar header 1) 0x3);
  layer2Color ← at_ penMap (JS.and (JS.sar header 3) 0x3);
  Some [if isInverted then 1 else 0; layer1Color; layer2Color].

(** [PpmParser.globalPalette]: white, black, red, blue. *)
Definition globalPalette : list (list Z) :=
  [[0xff; 0xff; 0xff; 0xff]; [0x0e; 0x0e; 0x0e; 0xff];
   [0xff; 0x2a; 0x2a; 0xff]; [0x0a; 0x39; 0xff; 0xff]].

(** [getFramePalette(frameIndex)]; [None] in the list stands for the
    [undefined] an index outside the palette gives. *)
Definition getFramePalette (p : parser) (frameIndex : Z)
  : option (list (option (list Z))) :=
  indices ← getFramePaletteIndices p frameIndex;
  Some (map (fun colorIndex =>
               if colorIndex <? 0 then None else globalPalette !! Z.to_nat colorIndex)
            indices).

(** The loop of [getLayerPixels] over a fresh [Uint8Array]. *)
Definition layerImage (layer : list Z) (layerColor : Z) : list Z :=
  map (fun pixel => if decide (at_ layer pixel = Some 1) then layerColor mod 256 else 0)
      (seqZ 0 (width * height)).

(** [getLayerPixels(frameIndex, layerIndex)]: the frame is decoded unless
    it is the one decoded last. *)
Definition getLayerPixels (p : parser) (frameIndex layerIndex : Z) (s : state)
  : option (list Z * state) :=
  s ← (if prevIsNot (prevDecodedFrame s) frameIndex
       then decodeFrame p frameIndex s else Some s);
  palette ← getFramePaletteIndices p frameIndex;
  layer ← (if layerIndex =? 0 then Some (fst (layerBuffers s))
           else if layerIndex =? 1 then Some (snd (layerBuffers s))
           else None);
  let layerColor := JS.int_of (at_ palette (layerIndex + 1)) in
  Some (layerImage layer layerColor, s).

(** The loop of [getFramePixels] over an image filled with the paper
    colour. *)
Definition frameImage (layer1 layer2 : list Z) (paperColor layer1Color layer2Color : Z)
  : list Z :=
  map (fun pixel =>
         if decide (at_ layer1 pixel = Some 1) then layer1Color mod 256
         else if decide (at_ layer2 pixel = Some 1) then layer2Color mod 256
         else paperColor mod 256)
      (seqZ 0 (width * height)).

(** [getFramePixels(frameIndex)]: the palette is read first, then the
    frame is decoded, whatever was decoded last. *)
Definition getFramePixels (p : parser) (frameIndex : Z) (s : state)
  : option (list Z * state) :=
  palette ← getFramePaletteIndices p frameIndex;
  s ← decodeFrame p frameIndex s;
  let paperColor := JS.int_of (at_ palette 0) in
  let layer1Color := JS.int_of (at_ palette 1) in
  let layer2Color := JS.int_of (at_ palette 2) in
  Some (frameImage (fst (layerBuffers s)) (snd (layerBuffers s))
          paperColor layer1Color layer2Color, s).

End PpmImage.

(** ** Format B: frame meta data, palette and pixels (src/parsers/KwzParser.ts) *)

Module KwzImage.
Import Kwz.

(** [getFramePaletteIndices(frameIndex)]: the paper colour and two colours
    for each layer, four bits each. *)
Definition getFramePaletteIndices (p : parser) (frameIndex : Z) : option (list Z) :=
  offset ← at_ (frameMetaOffsets p) frameIndex;
  '(flags, _) ← DataStream.readUint32 true (DataStream.mk (buffer p) offset);
  Some [JS.and flags 0xF;
        JS.and (JS.sar flags 8) 0xF;
        JS.and (JS.sar flags 12) 0xF;
        JS.and (JS.sar flags 16) 0xF;
        JS.and (JS.sar flags 20) 0xF;
        JS.and (JS.sar flags 24) 0xF;
        JS.and (JS.sar flags 28) 0xF].

(** [getFrameLayerDepths(frameIndex)] *)
Definition getFrameLayerDepths (p : parser) (frameIndex : Z) : option (list Z) :=
  offset ← at_ (frameMetaOffsets p) frameIndex;
  '(a, ds) ← DataStream.readUint8 (DataStream.mk (buffer p) (offset + 0x14));
  '(b, ds) ← DataStream.readUint8 ds;
  '(c, ds) ← DataStream.readUint8 ds;
  Some [a; b; c].

(** [getFrameSoundFlags(frameIndex)] *)
Definition getFrameSoundFlags (p : parser) (frameIndex : Z) : option (list bool) :=
  offset ← at_ (frameMetaOffsets p) frameIndex;
  '(soundFlags, _) ← DataStream.readUint8 (DataStream.mk (buffer p) (offset + 0x17));
  Some [negb (JS.and soundFlags 0x1 =? 0); negb (JS.and soundFlags 0x2 =? 0);
        negb (JS.and soundFlags 0x4 =? 0); negb (JS.and soundFlags 0x8 =? 0)].

(** [getFrameCameraFlags(frameIndex)] *)
Definition getFrameCameraFlags (p : parser) (frameIndex : Z) : option (list bool) :=
  offset ← at_ (frameMetaOffsets p) frameIndex;
  '(cameraFlags, _) ← DataStream.readUint8 (DataStream.mk (buffer p) (offset + 0x1A));
  Some [negb (JS.and cameraFlags 0x1 =? 0); negb (JS.and cameraFlags 0x2 =? 0);
        negb (JS.and cameraFlags 0x4 =? 0)].

(** [decodeSoundFlags()]: the sound flags of the frames 0 to
    [frameCount - 1]. *)
Fixpoint soundFlagsLoop (p : parser) (count : nat) (i : Z) : option (list (list bool)) :=
  match count with
  | O => Some []
  | S count' =>
      flags ← getFrameSoundFlags p i;
      rest ← soundFlagsLoop p count' (i + 1);
      Some (flags :: rest)
  end.

Definition decodeSoundFlags (p : parser) : option (list (list bool)) :=
  soundFlagsLoop p (Z.to_nat (frameCount p)) 0.

(** [Array.prototype.sort] with a comparison function.  The sort is
    stable, and for a comparison that orders the elements consistently
    its result is the one list that is sorted and keeps equal elements in
    their order; insertion from the right computes it. *)
Fixpoint sortInsert (compareFn : Z -> Z -> Z) (x : Z) (sorted : list Z) : list Z :=
  match sorted with
  | [] => [x]
  | y :: rest =>
      if compareFn x y >? 0 then y :: sortInsert compareFn x rest
      else x :: sorted
  end.

Definition sort (compareFn : Z -> Z -> Z) (a : list Z) : list Z :=
  fold_right (sortInsert compareFn) [] a.

(** [getFrameLayerOrder(frameIndex)]:
    [[2, 1, 0].sort((a, b) => depths[b] - depths[a])] *)
Definition getFrameLayerOrder (p : parser) (frameIndex : Z) : option (list Z) :=
  depths ← getFrameLayerDepths p frameIndex;
  Some (sort (fun a b => JS.int_of (at_ depths b) - JS.int_of (at_ depths a)) [2; 1; 0]).

(** [this.layers[i]] *)
Definition layer (s : state) (i : Z) : option (list Z) :=
  if i <? 0 then None else layers s !! Z.to_nat i.

(** [palette[offset + pixel]] as it is stored into the image: 0 for
    [undefined]. *)
Definition colour (palette : list Z) (offset : Z) (pixel : option Z) : Z :=
  match pixel with
  | Some v => JS.int_of (at_ palette (offset + v)) mod 256
  | None => 0
  end.

(** [pixel !== 0] *)
Definition drawn (pixel : option Z) : bool :=
  match pixel with
  | Some v => negb (v =? 0)
  | None => true
  end.

(** The loop of [getLayerPixels] over a fresh [Uint8Array]; it runs over
    the length of the layer. *)
Definition layerImage (layers : list Z) (palette : list Z) (paletteOffset : Z)
  : list Z :=
  take (Z.to_nat (320 * 240))
    (map (fun pixel =>
            if pixel =? 1 then JS.int_of (at_ palette paletteOffset) mod 256
            else if pixel =? 2 then JS.int_of (at_ palette (paletteOffset + 1)) mod 256
            else 0)
         layers)
  ++ replicate (Z.to_nat (320 * 240) - length layers) 0.

(** [getLayerPixels(frameIndex, layerIndex)] *)
Definition getLayerPixels (p : parser) (frameIndex layerIndex : Z) (s : state)
  : option (list Z * state) :=
  s ← (if prevIsNot (prevFrameIndex s) frameIndex
       then decodeFrame p frameIndex s else Some s);
  palette ← getFramePaletteIndices p frameIndex;
  layers ← layer s layerIndex;
  Some (layerImage layers palette (layerIndex * 2 + 1), s).

(** The loop of [getFramePixels] without the [dsiLibraryNote] setting,
    over an image filled with the paper colour. *)
Definition frameImage (layerA layerB layerC palette : list Z)
  (layerAOffset layerBOffset layerCOffset : Z) : list Z :=
  map (fun pixel =>
         let a := at_ layerA pixel in
         let b := at_ layerB pixel in
         let c := at_ layerC pixel in
         if drawn a then colour palette layerAOffset a
         else if drawn b then colour palette layerBOffset b
         else if drawn c then colour palette layerCOffset c
         else JS.int_of (at_ palette 0) mod 256)
      (seqZ 0 (320 * 240)).

(** The loops of [getFramePixels] with [dsiLibraryNote]: the inner one
    over [x], from [srcPtr] on, and the outer one over the rows [y],
    which starts the inner one at [y * srcStride]. *)
Fixpoint cropPixels (count : nat) (srcPtr : Z) (layerA layerB palette : list Z)
  (layerAOffset layerBOffset : Z) (image : list Z) : list Z :=
  match count with
  | O => image
  | S count' =>
      let a := at_ layerA srcPtr in
      let b := at_ layerB srcPtr in
      let image :=
        if drawn a then put image srcPtr (colour palette layerAOffset a)
        else if drawn b then put image srcPtr (colour palette layerBOffset b)
        else image in
      cropPixels count' (srcPtr + 1) layerA layerB palette layerAOffset layerBOffset
        image
  end.

Fixpoint cropRows (count columns : nat) (y srcStride : Z)
  (layerA layerB palette : list Z) (layerAOffset layerBOffset : Z) (image : list Z)
  : list Z :=
  match count with
  | O => image
  | S count' =>
      cropRows count' columns (y + 1) srcStride layerA layerB palette
        layerAOffset layerBOffset
        (cropPixels columns (y * srcStride) layerA layerB palette
           layerAOffset layerBOffset image)
  end.

Definition croppedImage (layerA layerB palette : list Z)
  (layerAOffset layerBOffset : Z) : list Z :=
  let image := replicate (Z.to_nat (320 * 240)) (JS.int_of (at_ palette 0) mod 256) in
  let cropStartY := 32 in
  let cropStartX := 24 in
  let cropWidth := 320 - 64 in
  let cropHeight := 240 - 48 in
  let srcStride := 320 in
  cropRows (Z.to_nat (cropHeight - cropStartY)) (Z.to_nat (cropWidth - cropStartX))
    cropStartY srcStride layerA layerB palette layerAOffset layerBOffset image.

(** [getFramePixels(frameIndex)] *)
Definition getFramePixels (p : parser) (frameIndex : Z) (s : state)
  : option (list Z * state) :=
  s ← (if prevIsNot (prevFrameIndex s) frameIndex
       then decodeFrame p frameIndex s else Some s);
  palette ← getFramePaletteIndices p frameIndex;
  layerOrder ← getFrameLayerOrder p frameIndex;
  top ← at_ layerOrder 2;
  middle ← at_ layerOrder 1;
  bottom ← at_ layerOrder 0;
  layerA ← layer s top;
  layerB ← layer s middle;
  if negb (dsiLibraryNote p)
  then layerC ← layer s bottom;
       Some (frameImage layerA layerB layerC palette
               (top * 2) (middle * 2) (bottom * 2), s)
  else Some (croppedImage layerA layerB palette (top * 2) (middle * 2), s).

End KwzImage.

(** What one round of the inner loop of [getFramePixels] with
    [dsiLibraryNote] leaves at the pixel [q] it visits, [old] being what
    the image held. *)
Definition cropPixel (layerA layerB palette : list Z) (layerAOffset layerBOffset : Z)
  (q old : Z) : Z :=
  if KwzImage.drawn (at_ layerA q)
  then KwzImage.colour palette layerAOffset (at_ layerA q)
  else if KwzImage.drawn (at_ layerB q)
       then KwzImage.colour palette layerBOffset (at_ layerB q)
       else old.

(** The three-frame test file of format B, read with the
    [dsiLibraryNote] setting. *)
Definition kwz_dsi_parser : Kwz.parser :=
  Kwz.mkParser kwz_three_frames 3 [8; 36; 64] [104; 220; 334]
    [[40; 38; 38]; [38; 38; 38]; [38; 38; 38]] true.

(** ** The byte cursor: writes and strings (dist/flipnote.es.js, [DataStream]) *)

Module DataStreamWrite.
Import DataStream.

(** The bytes of a value, least significant first: what a [DataView]
    setter stores for an integer, which it takes modulo the width. *)
Fixpoint le_bytes (size : nat) (value : Z) : list Z :=
  match size with
  | O => []
  | S size' => value mod 256 :: le_bytes size' (value / 256)
  end.

(** The store of a [DataView] setter: a [RangeError] ([None]) unless
    [0 <= byteOffset] and the bytes fit. *)
Definition setBytes (ds : t) (byteOffset : Z) (bs : list Z) : option t :=
  if (0 <=? byteOffset) && (byteOffset + Z.of_nat (length bs) <=? byteLength ds)
  then Some (mk (take (Z.to_nat byteOffset) (buffer ds) ++ bs
                 ++ drop (Z.to_nat byteOffset + length bs) (buffer ds))
                (pointer ds))
  else None.

(** [setUint8] to [setInt32]: the signed setters store the same bytes. *)
Definition setUint (ds : t) (byteOffset size : Z) (littleEndian : bool) (value : Z)
  : option t :=
  let bs := le_bytes (Z.to_nat size) value in
  setBytes ds byteOffset (if littleEndian then bs else rev bs).

Definition writeUint8 (value : Z) (ds : t) : option t :=
  ds ← setUint ds (pointer ds) 1 true value; Some (advance ds 1).

Definition writeInt8 (value : Z) (ds : t) : option t :=
  ds ← setUint ds (pointer ds) 1 true value; Some (advance ds 1).

Definition writeUint16 (value : Z) (littleEndian : bool) (ds : t) : option t :=
  ds ← setUint ds (pointer ds) 2 littleEndian value; Some (advance ds 2).

Definition writeInt16 (value : Z) (littleEndian : bool) (ds : t) : option t :=
  ds ← setUint ds (pointer ds) 2 littleEndian value; Some (advance ds 2).

Definition writeUint32 (value : Z) (littleEndian : bool) (ds : t) : option t :=
  ds ← setUint ds (pointer ds) 4 littleEndian value; Some (advance ds 4).

Definition writeInt32 (value : Z) (littleEndian : bool) (ds : t) : option t :=
  ds ← setUint ds (pointer ds) 4 littleEndian value; Some (advance ds 4).

(** The typed writes, named as the reads are. *)
Definition write (ty : typed) (littleEndian : bool) (value : Z) (ds : t) : option t :=
  match ty with
  | Uint8 => writeUint8 value ds
  | Int8 => writeInt8 value ds
  | Uint16 => writeUint16 value littleEndian ds
  | Int16 => writeInt16 value littleEndian ds
  | Uint32 => writeUint32 value littleEndian ds
  | Int32 => writeInt32 value littleEndian ds
  end.

(** The values of a type. *)
Definition in_range (ty : typed) (v : Z) : Prop :=
  match ty with
  | Uint8 | Uint16 | Uint32 => 0 <= v < 2 ^ (8 * width ty)
  | Int8 | Int16 | Int32 => - 2 ^ (8 * width ty - 1) <= v < 2 ^ (8 * width ty - 1)
  end.

(** [readBytes(count)]: a view of [count] bytes from the pointer on; the
    [Uint8Array] constructor throws unless they lie in the buffer. *)
Definition readBytes (count : Z) (ds : t) : option (list Z * t) :=
  if 0 <=? count
  then bytes ← getBytes ds (pointer ds) count; Some (bytes, advance ds count)
  else None.

(** [writeBytes(bytes)] *)
Fixpoint writeBytes (bytes : list Z) (ds : t) : option t :=
  match bytes with
  | [] => Some ds
  | byte :: rest => ds ← writeUint8 byte ds; writeBytes rest ds
  end.

(** The loop of [readChars] and [readWideChars]: the characters up to
    the first 0.  A string is the list of its character codes. *)
Fixpoint untilZero (chars : list Z) : list Z :=
  match chars with
  | [] => []
  | char :: rest => if char =? 0 then [] else char :: untilZero rest
  end.

(** [readChars(count)] *)
Definition readChars (count : Z) (ds : t) : option (list Z * t) :=
  '(chars, ds) ← readBytes count ds; Some (untilZero chars, ds).

(** [writeChars(string)] *)
Fixpoint writeChars (string : list Z) (ds : t) : option t :=
  match string with
  | [] => Some ds
  | char :: rest => ds ← writeUint8 char ds; writeChars rest ds
  end.



End DataStreamWrite.

(** ** The growing byte buffer of the encoders (dist/flipnote.es.js, [ByteArray]) *)

Module ByteArray.

Definition pageSize : Z := 2048.

(** [currPage] is the page [pages[currPageIndex]] itself, so a store
    through it is a store into that page. *)
Record t : Type := mk {
  pages : list (list Z);
  currPageIndex : Z;
  pointer : Z
}.

(** [newPage()]: [this.pages[++this.currPageIndex] = new Uint8Array(pageSize)].
    The index is the length of [pages] at every call the class makes; an
    index past it would leave a hole in the array, which the model does
    not have ([None]). *)
Definition newPage (b : t) : option t :=
  let index := currPageIndex b + 1 in
  let page := replicate (Z.to_nat pageSize) 0 in
  if index <? 0 then None
  else if index <? Z.of_nat (length (pages b))
       then Some (mk (<[Z.to_nat index := page]> (pages b)) index 0)
       else if index =? Z.of_nat (length (pages b))
            then Some (mk (pages b ++ [page]) index 0)
            else None.

(** [new ByteArray()] *)
Definition create : option t := newPage (mk [] (-1) 0).

(** [writeByte(val)]; the page keeps the value modulo 256, a store
    outside the page is ignored. *)
Definition writeByte (val : Z) (b : t) : option t :=
  b ← (if pointer b >=? pageSize then newPage b else Some b);
  page ← (if currPageIndex b <? 0 then None
          else pages b !! Z.to_nat (currPageIndex b));
  Some (mk (<[Z.to_nat (currPageIndex b) := put page (pointer b) (val mod 256)]> (pages b))
           (currPageIndex b) (pointer b + 1)).

(** [writeBytes(bytes, offset, length)]: the loop runs [i] from
    [offset || 0] up to [length || bytes.length], so for a [length]
    other than 0 it is the index the loop stops at; [None] for an
    argument left out.  [bytes[i]] outside the array is [undefined],
    stored as 0. *)
Fixpoint writeBytesLoop (count : nat) (bytes : list Z) (i : Z) (b : t) : option t :=
  match count with
  | O => Some b
  | S count' =>
      b ← writeByte (JS.int_of (at_ bytes i)) b;
      writeBytesLoop count' bytes (i + 1) b
  end.

Definition writeBytes (bytes : list Z) (offset length : option Z) (b : t) : option t :=
  let l := match length with
           | Some n => if n =? 0 then Z.of_nat (List.length bytes) else n
           | None => Z.of_nat (List.length bytes)
           end in
  let i := match offset with
           | Some n => n
           | None => 0
           end in
  writeBytesLoop (Z.to_nat (l - i)) bytes i b.

(** [getData()] *)
Fixpoint getDataLoop (ps : list (list Z)) (index : Z) (b : t) (data : list Z)
  : option (list Z) :=
  match ps with
  | [] => Some data
  | page :: rest =>
      data ← (if index =? currPageIndex b
              then typed_set data (subarray page 0 (pointer b)) (index * pageSize)
              else typed_set data page (index * pageSize));
      getDataLoop rest (index + 1) b data
  end.

Definition getData (b : t) : option (list Z) :=
  let size := currPageIndex b * pageSize + pointer b in
  if size <? 0 then None
  else getDataLoop (pages b) 0 b (replicate (Z.to_nat size) 0).

(** The bytes a call [writeBytes(bytes, offset, length)] appends. *)
Definition written (bytes : list Z) (offset length : option Z) : list Z :=
  let l := match length with
           | Some n => if n =? 0 then Z.of_nat (List.length bytes) else n
           | None => Z.of_nat (List.length bytes)
           end in
  let i := match offset with
           | Some n => n
           | None => 0
           end in
  map (fun i => JS.int_of (at_ bytes i) mod 256) (seqZ i (l - i)).

(** A [ByteArray] as the class builds it, with the bytes written to it
    so far. *)
Inductive built : t -> list Z -> Prop :=
| built_create b : create = Some b -> built b []
| built_writeByte b data val b' :
    built b data -> writeByte val b = Some b' -> built b' (data ++ [val mod 256])
| built_writeBytes b data bytes offset length b' :
    built b data -> writeBytes bytes offset length b = Some b' ->
    built b' (data ++ written bytes offset length).

(** The pages of a [ByteArray] that holds [data]: full pages and the
    current one, filled up to the pointer. *)
Definition holds (b : t) (data : list Z) : Prop :=
  exists full last,
    pages b = full ++ [last] /\
    Forall (fun page => Z.of_nat (List.length page) = pageSize) (pages b) /\
    currPageIndex b = Z.of_nat (List.length full) /\
    0 <= pointer b <= pageSize /\
    data = concat full ++ take (Z.to_nat (pointer b)) last.

End ByteArray.

(** ** Format A: the headers the constructor decodes (dist/flipnote.es.js, [PpmParser]) *)

(** [assert(condition)]: an exception when the condition fails. *)
Definition assert (condition : bool) : option unit :=
  if condition then Some tt else None.

Module PpmHeader.
Import DataStream DataStreamWrite.

Record header : Type := mkHeader {
  frameDataLength : Z;
  soundDataLength : Z;
  frameCount : Z;
  version : Z
}.

(** [decodeHeader()] *)
Definition decodeHeader (buf : list Z) : option header :=
  _ ← assert (16 <? Z.of_nat (length buf));
  '(frameDataLength, ds) ← readUint32 true (mk buf 4);
  '(soundDataLength, ds) ← readUint32 true ds;
  '(frameCount, ds) ← readUint16 true ds;
  '(version, ds) ← readUint16 true ds;
  Some (mkHeader frameDataLength soundDataLength (frameCount + 1) version).

(** The loop of [decodeAnimationHeader] over [n < numOffsets]; a store
    past the end of the table is ignored, the table keeps an offset
    modulo 2^32. *)
Fixpoint offsetsLoop (count : nat) (n offsetTableLength : Z) (ds : t)
  (frameOffsets : list Z) : option (list Z) :=
  match count with
  | O => Some frameOffsets
  | S count' =>
      '(offset, ds) ← readUint32 true ds;
      let ptr := 0x06A8 + offsetTableLength + offset in
      _ ← assert (ptr <? byteLength ds);
      offsetsLoop count' (n + 1) offsetTableLength ds
        (put frameOffsets n (ptr mod 2 ^ 32))
  end.

(** [decodeAnimationHeader()].  [numOffsets] is [offsetTableLength / 4],
    a fraction when the length is not a multiple of 4: the table then has
    the whole part of it as its length, and the loop runs once more. *)
Definition decodeAnimationHeader (buf : list Z) (frameCount : Z) : option (list Z) :=
  '(offsetTableLength, _) ← readUint16 true (mk buf 0x06A0);
  _ ← assert (offsetTableLength <=? 4 * frameCount);
  offsetsLoop (Z.to_nat ((offsetTableLength + 3) / 4)) 0 offsetTableLength
    (mk buf 0x06A8) (replicate (Z.to_nat (offsetTableLength / 4)) 0).

(** The constructor, as far as the frames need it. *)
Definition parser_of (buf : list Z) : option Ppm.parser :=
  h ← decodeHeader buf;
  frameOffsets ← decodeAnimationHeader buf (frameCount h);
  Some (Ppm.mkParser buf (frameCount h) frameOffsets).

Definition PPM_FRAMERATES : list Q :=
  [1 # 2; 1 # 2; 1; 2; 4; 6; 12; 20; 30]%Q.

(** [PPM_FRAMERATES[speed]]: [None] is [undefined]. *)
Definition rate_of (rates : list Q) (speed : Z) : option Q :=
  if speed <? 0 then None else rates !! Z.to_nat speed.

(** The fields [decodeSoundHeader] sets, but for the duration: the
    entries of [soundMeta] are the [ptr] and [length] of the tracks BGM,
    SE1, SE2 and SE3. *)
Record soundHeader : Type := mkSoundHeader {
  frameSpeed : Z;
  bgmSpeed : Z;
  framerate : option Q;
  bgmrate : option Q;
  soundMeta : list (Z * Z)
}.

(** [decodeSoundHeader()] *)
Definition decodeSoundHeader (buf : list Z) (h : header) : option soundHeader :=
  let ptr := 0x06A0 + frameDataLength h + frameCount h in
  _ ← assert (ptr <? Z.of_nat (length buf));
  let ptr := if negb (Z.rem ptr 4 =? 0) then ptr + (4 - Z.rem ptr 4) else ptr in
  '(bgmLen, ds) ← readUint32 true (mk buf ptr);
  '(se1Len, ds) ← readUint32 true ds;
  '(se2Len, ds) ← readUint32 true ds;
  '(se3Len, ds) ← readUint32 true ds;
  '(speed, ds) ← readUint8 ds;
  let frameSpeed := 8 - speed in
  '(speed, ds) ← readUint8 ds;
  let bgmSpeed := 8 - speed in
  _ ← assert ((frameSpeed <=? 8) && (bgmSpeed <=? 8));
  let ptr := ptr + 32 in
  Some (mkSoundHeader frameSpeed bgmSpeed
          (rate_of PPM_FRAMERATES frameSpeed) (rate_of PPM_FRAMERATES bgmSpeed)
          [(ptr, bgmLen);
           (ptr + bgmLen, se1Len);
           (ptr + bgmLen + se1Len, se2Len);
           (ptr + bgmLen + se1Len + se2Len, se3Len)]).

(** [soundMeta.get(trackId)] *)
Definition track (soundMeta : list (Z * Z)) (trackId : Z) : option (Z * Z) :=
  if trackId <? 0 then None else soundMeta !! Z.to_nat trackId.

(** [hasAudioTrack(trackId)] *)
Definition hasAudioTrack (soundMeta : list (Z * Z)) (trackId : Z) : bool :=
  match track soundMeta trackId with
  | Some (_, length) => length >? 0
  | None => false
  end.

(** [getAudioTrackRaw(trackId)] *)
Definition getAudioTrackRaw (buf : list Z) (soundMeta : list (Z * Z)) (trackId : Z)
  : option (list Z) :=
  '(ptr, length) ← track soundMeta trackId;
  _ ← assert (ptr + length <? Z.of_nat (List.length buf));
  '(bytes, _) ← readBytes length (mk buf ptr);
  Some bytes.

End PpmHeader.

(** ** Format B: the sections and the sound header (src/parsers/KwzParser.ts) *)

Module KwzHeader.
Import DataStream DataStreamWrite.

(** A section of the file: where its header starts, and the length its
    header gives. *)
Record section : Type := mkSection { ptr : Z; length : Z }.

(** The [Map] from the section names to the sections: [set] replaces the
    value of a key that is there and adds a new key at the end. *)
Fixpoint mapSet (m : list (list Z * section)) (key : list Z) (value : section)
  : list (list Z * section) :=
  match m with
  | [] => [(key, value)]
  | (k, v) :: rest =>
      if decide (k = key) then (k, value) :: rest
      else (k, v) :: mapSet rest key value
  end.

Fixpoint mapGet (m : list (list Z * section)) (key : list Z) : option section :=
  match m with
  | [] => None
  | (k, v) :: rest => if decide (k = key) then Some v else mapGet rest key
  end.

Definition mapHas (m : list (list Z * section)) (key : list Z) : bool :=
  match mapGet m key with
  | Some _ => true
  | None => false
  end.

(** The names, as character codes. *)
Definition KFH : list Z := [75; 70; 72].
Definition KMC : list Z := [75; 77; 67].
Definition KMI : list Z := [75; 77; 73].
Definition KSN : list Z := [75; 83; 78].

(** The loop of [buildSectionMap]; [count] is what is left of the six
    sections it reads at most. *)
Fixpoint sectionLoop (count : nat) (buf : list Z) (fileSize ptr : Z)
  (sectionMap : list (list Z * section)) : option (list (list Z * section)) :=
  match count with
  | O => Some sectionMap
  | S count' =>
      if ptr <? fileSize then
        '(chars, ds) ← readChars 4 (mk buf ptr);
        let magic := take 3 chars in
        '(length, ds) ← readUint32 true ds;
        sectionLoop count' buf fileSize (ptr + length + 8)
          (mapSet sectionMap magic (mkSection ptr length))
      else Some sectionMap
  end.

(** [buildSectionMap()] *)
Definition buildSectionMap (buf : list Z) : option (list (list Z * section)) :=
  let fileSize := Z.of_nat (List.length buf) - 256 in
  sectionMap ← sectionLoop 6 buf fileSize 0 [];
  _ ← assert (mapHas sectionMap KMC && mapHas sectionMap KMI);
  Some sectionMap.

(** [decodeMetaQuick()], as far as the frame count. *)
Definition decodeMetaQuick (buf : list Z) (sectionMap : list (list Z * section))
  : option Z :=
  _ ← assert (mapHas sectionMap KFH);
  kfh ← mapGet sectionMap KFH;
  '(frameCount, _) ← readUint16 true (mk buf (ptr kfh + 0x8 + 0xC4));
  Some frameCount.

(** The constructor with the [quickMeta] setting, as far as the frames
    need it. *)
Definition parser_of (buf : list Z) (dsiLibraryNote : bool) : option Kwz.parser :=
  sectionMap ← buildSectionMap buf;
  frameCount ← decodeMetaQuick buf sectionMap;
  _ ← assert (mapHas sectionMap KMI && mapHas sectionMap KMC);
  kmiSection ← mapGet sectionMap KMI;
  kmcSection ← mapGet sectionMap KMC;
  Kwz.getFrameOffsets buf frameCount (ptr kmiSection) (length kmiSection)
    (ptr kmcSection) dsiLibraryNote.

Definition KWZ_FRAMERATES : list Q :=
  [1 # 5; 1 # 2; 1; 2; 4; 6; 8; 12; 20; 24; 30]%Q.

(** The elements of a [Uint32Array] over bytes (little-endian). *)
Fixpoint uint32s (bytes : list Z) : list Z :=
  match bytes with
  | b0 :: b1 :: b2 :: b3 :: rest =>
      (b0 + 256 * (b1 + 256 * (b2 + 256 * b3))) :: uint32s rest
  | _ => []
  end.

(** [new Uint32Array(buffer, byteOffset, length)]: a [RangeError] unless
    the offset is a multiple of 4 and the elements lie in the buffer. *)
Definition Uint32Array (buf : list Z) (byteOffset length : Z) : option (list Z) :=
  if (0 <=? length) && (byteOffset mod 4 =? 0)
  then bytes ← getBytes (mk buf 0) byteOffset (4 * length); Some (uint32s bytes)
  else None.

Record soundHeader : Type := mkSoundHeader {
  bgmSpeed : Z;
  bgmrate : option Q;
  soundMeta : list (Z * Z)
}.

(** [decodeSoundHeader()]; the entries of [soundMeta] are the [ptr] and
    [length] of the tracks BGM, SE1, SE2, SE3 and SE4. *)
Definition decodeSoundHeader (buf : list Z) (sectionMap : list (list Z * section))
  : option soundHeader :=
  _ ← assert (mapHas sectionMap KSN);
  ksn ← mapGet sectionMap KSN;
  let ptr := ptr ksn + 8 in
  '(bgmSpeed, _) ← readUint32 true (mk buf ptr);
  _ ← assert (bgmSpeed <=? 10);
  trackSizes ← Uint32Array buf (ptr + 4) 20;
  let size i := JS.int_of (at_ trackSizes i) in
  Some (mkSoundHeader bgmSpeed (PpmHeader.rate_of KWZ_FRAMERATES bgmSpeed)
          [(ptr + 28, size 0);
           (ptr + 28 + size 0, size 1);
           (ptr + 28 + size 0 + size 1, size 2);
           (ptr + 28 + size 0 + size 1 + size 2, size 3);
           (ptr + 28 + size 0 + size 1 + size 2 + size 3, size 4)]).

(** [getAudioTrackRaw(trackId)] *)
Definition getAudioTrackRaw (buf : list Z) (soundMeta : list (Z * Z)) (trackId : Z)
  : option (list Z) :=
  '(ptr, length) ← PpmHeader.track soundMeta trackId;
  _ ← assert (ptr + length <? Z.of_nat (List.length buf));
  '(bytes, _) ← readBytes length (mk buf ptr);
  Some bytes.

End KwzHeader.

(** ** Test files with headers *)

(** A format A file with one frame (the frame of [ppm_key_parser]) and a
    background track of three bytes: the header, the meta data left
    empty, the animation header with a table of one offset, the frame,
    one byte of sound flags, the sound header at the next multiple of 4,
    the track, and 16 bytes more. *)
Definition ppm_file : list Z :=
  [80; 65; 82; 65] ++ [114; 0; 0; 0] ++ [0; 0; 0; 0] ++ [0; 0] ++ [36; 0]
  ++ replicate 1680 0
  ++ [4; 0] ++ replicate 6 0 ++ [0; 0; 0; 0]
  ++ ppm_frame 128 1
  ++ [0; 0]
  ++ [3; 0; 0; 0] ++ replicate 12 0 ++ [2; 0] ++ replicate 14 0
  ++ [127; 240; 8] ++ replicate 16 0.

(** A format B file: a KFH section that gives three frames, the KMI and
    KMC sections of [kwz_three_frames], a KSN section with a background
    track of two bytes, and 256 bytes more. *)
Definition kwz_file : list Z :=
  [75; 70; 72; 0] ++ [204; 0; 0; 0] ++ replicate 196 0 ++ [3; 0] ++ replicate 6 0
  ++ take 448 kwz_three_frames
  ++ [75; 83; 78; 0] ++ [30; 0; 0; 0] ++ [3; 0; 0; 0]
  ++ [2; 0; 0; 0] ++ replicate 16 0 ++ replicate 4 0 ++ [127; 240]
  ++ replicate 256 0.

(** The parser the constructor builds from it. *)
Definition kwz_file_parser : Kwz.parser :=
  Kwz.mkParser kwz_file 3 [220; 248; 276] [316; 432; 546]
    [[40; 38; 38]; [38; 38; 38]; [38; 38; 38]] false.

(** ** The WAV encoder (dist/flipnote.es.js, [WavAudio]) *)

Module WavAudio.
Import DataStream DataStreamWrite.

(** The strings of the header, as character codes. *)
Definition RIFF : list Z := [82; 73; 70; 70].
Definition WAVE : list Z := [87; 65; 86; 69].
Definition fmt_ : list Z := [102; 109; 116; 32].
Definition data : list Z := [100; 97; 116; 97].

Record t : Type := mk {
  sampleRate : Z;
  channels : Z;
  bitsPerSample : Z;
  header : DataStream.t;
  pcmData : option (list Z)
}.

(** [new WavAudio(sampleRate, channels, bitsPerSample)] for whole
    numbers; a setter drops the fraction of a quotient. *)
Definition create (sampleRate channels bitsPerSample : Z) : option t :=
  let header := DataStream.mk (replicate 44 0) 0 in
  header ← writeChars RIFF header;
  header ← writeUint32 0 true header;
  header ← writeChars WAVE header;
  header ← writeChars fmt_ header;
  header ← writeUint32 16 true header;
  header ← writeUint16 1 true header;
  header ← writeUint16 channels true header;
  header ← writeUint32 sampleRate true header;
  header ← writeUint32 (Z.quot (sampleRate * bitsPerSample * channels) 8) true header;
  header ← writeUint16 (Z.quot (bitsPerSample * channels) 8) true header;
  header ← writeUint16 bitsPerSample true header;
  header ← writeChars data header;
  header ← writeUint32 0 true header;
  Some (mk sampleRate channels bitsPerSample header None).





End WavAudio.
(** * Part II: facts about the embedding *)

(** ** Machine integers *)

Lemma toInt32_small n : - 2 ^ 31 <= n < 2 ^ 31 -> JS.toInt32 n = n.
Proof. intros H. unfold JS.toInt32. rewrite Z.mod_small; lia. Qed.

Lemma toInt32_range n : - 2 ^ 31 <= JS.toInt32 n < 2 ^ 31.
Proof.
  unfold JS.toInt32.
  pose proof (Z.mod_pos_bound (n + 2 ^ 31) (2 ^ 32) ltac:(lia)). lia.
Qed.

Lemma toInt16_small n : - 2 ^ 15 <= n < 2 ^ 15 -> JS.toInt16 n = n.
Proof. intros H. unfold JS.toInt16. rewrite Z.mod_small; lia. Qed.

Lemma toInt16_range n : - 32768 <= JS.toInt16 n <= 32767.
Proof.
  unfold JS.toInt16.
  pose proof (Z.mod_pos_bound (n + 2 ^ 15) (2 ^ 16) ltac:(lia)). lia.
Qed.

Lemma clamp_range n l h : l <= h -> l <= clamp n l h <= h.
Proof. intros H. unfold clamp. destruct (Z.ltb_spec n l), (Z.gtb_spec n h); lia. Qed.

Lemma clamp_id n l h : l <= n <= h -> clamp n l h = n.
Proof. intros H. unfold clamp. destruct (Z.ltb_spec n l), (Z.gtb_spec n h); lia. Qed.




(** ** The format dispatcher *)

Section ParseSourceFacts.
Import ParseSource.








End ParseSourceFacts.

(** ** The byte cursor *)

Section DataStreamFacts.
Import DataStream.

Lemma getBytes_Some ds off size :
  0 <= off -> 0 <= size -> off + size <= byteLength ds ->
  exists bs, getBytes ds off size = Some bs /\ length bs = Z.to_nat size.
Proof.
  intros H0 Hs H1. unfold getBytes.
  destruct (Z.leb_spec 0 off); [|lia].
  destruct (Z.leb_spec (off + size) (byteLength ds)); [|lia].
  simpl. eexists; split; [reflexivity|].
  unfold byteLength in *. rewrite length_take, length_drop. lia.
Qed.

Lemma getBytes_None ds off size :
  byteLength ds < off + size -> getBytes ds off size = None.
Proof.
  intros H. unfold getBytes.
  destruct (Z.leb_spec (off + size) (byteLength ds)); [lia|].
  rewrite andb_false_r. reflexivity.
Qed.

Lemma read_in_bounds ty le ds :
  0 <= pointer ds -> pointer ds + width ty <= byteLength ds ->
  exists v, read ty le ds = Some (v, advance ds (width ty)).
Proof.
  intros H0 H1.
  destruct (getBytes_Some ds (pointer ds) (width ty)) as (bs & E & _);
    [lia | destruct ty; simpl; lia | lia |].
  destruct ty; simpl in *;
    unfold readUint8, readInt8, readUint16, readInt16, readUint32, readInt32,
      getInt, getUint; rewrite E; simpl; eexists; reflexivity.
Qed.

Lemma read_out_of_bounds ty le ds :
  byteLength ds < pointer ds + width ty -> read ty le ds = None.
Proof.
  intros H. pose proof (getBytes_None ds (pointer ds) (width ty) H) as E.
  destruct ty; simpl in *;
    unfold readUint8, readInt8, readUint16, readInt16, readUint32, readInt32,
      getInt, getUint; rewrite E; reflexivity.
Qed.

Lemma seek_spec offset whence ds :
  seek offset whence ds = mk (buffer ds) (seek_target offset whence ds).
Proof.
  unfold seek, seek_target.
  destruct (whence =? 2); [reflexivity|]. destruct (whence =? 1); reflexivity.
Qed.

(** C8, as the specification states it, fails: [seek] stores any position,
    here 5 from the beginning and 1 past the end of a three-byte buffer. *)
Lemma seek_leaves_buffer :
  at_rest (mk [1; 2; 3] 0) /\ ~ at_rest (seek 5 0 (mk [1; 2; 3] 0))
  /\ ~ at_rest (FileReader.seek 1 2 (mk [1; 2; 3] 0)).
Proof. unfold at_rest, byteLength, FileReader.seek, seek, byteLength; simpl. lia. Qed.

(** C8 (amended). From a cursor at rest, a typed read of width [w]
    succeeds exactly when [pointer + w <= byteLength]; it then advances the
    pointer by [w] and leaves the cursor at rest; otherwise it fails and
    returns no data.  [seek] stores the requested position unchecked, so
    the cursor is at rest after it exactly when the target lies in the
    buffer; [fileReader.seek] is the same function. *)
Theorem cursor_reads_checked (ds : t) (ty : typed) (littleEndian : bool) :
  at_rest ds ->
  (pointer ds + width ty <= byteLength ds ->
   exists v ds',
     read ty littleEndian ds = Some (v, ds') /\
     buffer ds' = buffer ds /\
     pointer ds' = pointer ds + width ty /\
     at_rest ds') /\
  (byteLength ds < pointer ds + width ty -> read ty littleEndian ds = None) /\
  (forall offset whence,
      pointer (seek offset whence ds) = seek_target offset whence ds /\
      FileReader.seek offset whence ds = seek offset whence ds /\
      (at_rest (seek offset whence ds)
       <-> 0 <= seek_target offset whence ds <= byteLength ds)).
Proof.
  intros Hrest. unfold at_rest in Hrest. split; [|split].
  - intros Hfit.
    destruct (read_in_bounds ty littleEndian ds) as [v E]; [lia | lia |].
    exists v, (advance ds (width ty)). split; [exact E|].
    unfold at_rest, advance, byteLength in *; simpl.
    repeat split; try lia. destruct ty; simpl; lia.
  - apply read_out_of_bounds.
  - intros offset whence. rewrite seek_spec. simpl.
    split; [reflexivity|]. split; [|reflexivity].
    unfold FileReader.seek, seek_target.
    destruct (whence =? 2); [reflexivity|]. destruct (whence =? 1); reflexivity.
Qed.

Lemma cursor_reads_checked_witness :
  read Uint16 true (mk [0x34; 0x12; 0xff] 0) = Some (0x1234, mk [0x34; 0x12; 0xff] 2)
  /\ read Uint32 true (mk [0x34; 0x12; 0xff] 0) = None.
Proof.
  assert (H : at_rest (mk [0x34; 0x12; 0xff] 0))
    by (unfold at_rest, byteLength; simpl; lia).
  split.
  - reflexivity.
  - apply (proj1 (proj2 (cursor_reads_checked (mk [0x34; 0x12; 0xff] 0) Uint32 true H))).
    unfold byteLength; simpl. lia.
Defined.

End DataStreamFacts.

(** ** Clipping ratio *)

Lemma countClipped_acc src acc :
  fold_left (fun numClippedSamples sample =>
               if (sample <=? -32768) || (sample >=? 32767)
               then numClippedSamples + 1 else numClippedSamples)
            src acc
  = acc + countClipped src.
Proof.
  unfold countClipped. revert acc.
  induction src as [|s src IH]; intros acc; simpl; [lia|].
  rewrite IH.
  rewrite (IH (if (s <=? -32768) || (s >=? 32767) then 0 + 1 else 0)).
  destruct ((s <=? -32768) || (s >=? 32767)); lia.
Qed.

Lemma countClipped_zeros src :
  Forall (fun s => s = 0) src -> countClipped src = 0.
Proof.
  induction 1 as [|s src Hs _ IH]; [reflexivity|].
  unfold countClipped. simpl. rewrite countClipped_acc, IH. subst s. reflexivity.
Qed.

Lemma countClipped_all src :
  Forall (fun s => s <= -32768 \/ s >= 32767) src ->
  countClipped src = Z.of_nat (length src).
Proof.
  induction 1 as [|s src Hs _ IH]; [reflexivity|].
  unfold countClipped. simpl length. simpl fold_left.
  rewrite countClipped_acc, IH.
  destruct (Z.leb_spec s (-32768)), (Z.geb_spec s 32767); simpl; lia.
Qed.

(** C6. On a non-empty buffer of zeros the clipping ratio is 0; on a
    non-empty buffer whose samples all sit at a clipping bound
    ([<= -32768] or [>= 32767]) it is 1. *)
Theorem pcmGetClippingRatio_extremes (src : list Z) :
  src <> [] ->
  (Forall (fun s => s = 0) src -> Qeq (pcmGetClippingRatio src) 0%Q) /\
  (Forall (fun s => s <= -32768 \/ s >= 32767) src ->
   Qeq (pcmGetClippingRatio src) 1%Q).
Proof.
  intros Hne.
  assert (Hlen : 0 < Z.of_nat (length src)) by (destruct src; [congruence | simpl; lia]).
  unfold pcmGetClippingRatio. split; intros H.
  - rewrite countClipped_zeros by assumption.
    unfold Qeq, Qdiv, Qmult, inject_Z; simpl. reflexivity.
  - rewrite countClipped_all by assumption.
    apply Qmult_inv_r. unfold Qeq, inject_Z; simpl. lia.
Qed.

Lemma pcmGetClippingRatio_extremes_witness :
  Qeq (pcmGetClippingRatio [0; 0; 0]) 0%Q /\
  Qeq (pcmGetClippingRatio [32767; -32768; 32767; -32768]) 1%Q.
Proof.
  split.
  - apply (pcmGetClippingRatio_extremes [0; 0; 0]); [discriminate|].
    repeat constructor.
  - apply (pcmGetClippingRatio_extremes [32767; -32768; 32767; -32768]);
      [discriminate|].
    repeat (constructor; [lia|]). constructor.
Defined.

(** ** The overlay mixer *)

(** C10 fails on the code.  With a two-sample source, a one-sample
    destination and offset 0 the loop stores at index 0 and then at index
    1, which is [dst.length]: the guard [dstOffset + n > dstSize] lets the
    index [dstSize] through.  [PpmParser.pcmAudioMix] has the same guard. *)
Theorem pcmAudioMix_stores_at_length :
  snd (kwz_pcmAudioMix [1000; 1000] [0] 0) = [0; 1] /\
  fst (kwz_pcmAudioMix [1000; 1000] [0] 0) = [1000] /\
  snd (ppm_pcmAudioMix [1000; 1000] [0] 0) = [0; 1] /\
  ~ Forall (fun i => i < Z.of_nat (length [0])) (snd (kwz_pcmAudioMix [1000; 1000] [0] 0)).
Proof.
  repeat split; try reflexivity.
  intros H. vm_compute in H.
  apply Forall_cons_1 in H as [_ H]. apply Forall_cons_1 in H as [H _].
  vm_compute in H. discriminate.
Qed.

(** ** ADPCM decoding *)

Lemma at_Some (a : list Z) i :
  0 <= i < Z.of_nat (length a) -> exists v, at_ a i = Some v.
Proof.
  intros H. unfold at_. destruct (Z.ltb_spec i 0); [lia|].
  destruct (lookup_lt_is_Some_2 a (Z.to_nat i)) as [v E]; [lia|]. eauto.
Qed.

Lemma at_Forall (P : Z -> Prop) (a : list Z) i b :
  Forall P a -> at_ a i = Some b -> P b.
Proof.
  intros Ha. unfold at_. destruct (i <? 0); [discriminate|].
  intros E. eapply Forall_lookup_1; eassumption.
Qed.


Lemma and_ones_range x n :
  0 <= n < 31 -> 0 <= JS.and x (Z.ones n) < 2 ^ n.
Proof.
  intros Hn. unfold JS.and.
  assert (0 < 2 ^ n) by (apply Z.pow_pos_nonneg; lia).
  assert (2 ^ n <= 2 ^ 30) by (apply Z.pow_le_mono_r; lia).
  rewrite (toInt32_small (Z.ones n)) by (rewrite Z.ones_equiv; lia).
  rewrite Z.land_ones by lia. apply Z.mod_pos_bound. lia.
Qed.


Lemma put_int16 (a : list Z) i v :
  Forall int16 a -> Forall int16 (put a i (JS.toInt16 v)).
Proof.
  intros H. unfold put. destruct (i <? 0); [assumption|].
  apply Forall_insert; [assumption|]. apply toInt16_range.
Qed.

Lemma length_put (a : list Z) i v : length (put a i v) = length a.
Proof. unfold put. destruct (i <? 0); [reflexivity|]. apply length_insert. Qed.

Section PpmAudioFacts.
Import PpmAudio.




End PpmAudioFacts.

Section KwzAudioFacts.
Import KwzAudio.

(** The value the loop stores is 16 times a 12-bit predictor. *)
Lemma kwz_decodeSample_range currByte currBit stepIndex predictor :
  0 <= stepIndex <= 79 ->
  exists byte' bit' si p,
    decodeSample currByte currBit stepIndex predictor = Some (byte', bit', si, p) /\
    currBit + 2 <= bit' /\ 0 <= si <= 79 /\ -2048 <= p <= 2047 /\
    int16 (p * 16) /\ JS.toInt16 (p * 16) = p * 16.
Proof.
  intros Hi. unfold decodeSample.
  destruct (at_Some ADPCM_STEP_TABLE stepIndex) as [step ->]; [simpl; lia|].
  simpl.
  destruct ((stepIndex <? 18) || (currBit >? 4)).
  - pose proof (and_ones_range currByte 2 ltac:(lia)) as Hs.
    change (Z.ones 2) with 3 in Hs.
    destruct (at_Some ADPCM_INDEX_TABLE_2BIT (JS.and currByte 3)) as [delta ->];
      [simpl; lia|].
    simpl. eexists _, _, _, _. split; [reflexivity|].
    pose proof (clamp_range (predictor + diff2 (JS.and currByte 3) step)
                  (-2048) 2047 ltac:(lia)).
    pose proof (clamp_range (stepIndex + delta) 0 79 ltac:(lia)).
    unfold int16. repeat split; try lia. apply toInt16_small. lia.
  - pose proof (and_ones_range currByte 4 ltac:(lia)) as Hs.
    change (Z.ones 4) with 15 in Hs.
    destruct (at_Some ADPCM_INDEX_TABLE_4BIT (JS.and currByte 15)) as [delta ->];
      [simpl; lia|].
    simpl. eexists _, _, _, _. split; [reflexivity|].
    pose proof (clamp_range (predictor + diff4 (JS.and currByte 15) step)
                  (-2048) 2047 ltac:(lia)).
    pose proof (clamp_range (stepIndex + delta) 0 79 ltac:(lia)).
    unfold int16. repeat split; try lia. apply toInt16_small. lia.
Qed.



End KwzAudioFacts.



(** ** The bit cursor *)

Section BitCursorFacts.
Import DataStream KwzReader.

Lemma le_value_app a b :
  le_value (a ++ b) = le_value a + 2 ^ (8 * Z.of_nat (length a)) * le_value b.
Proof.
  induction a as [|x a IH]; simpl le_value.
  - simpl. lia.
  - rewrite IH. simpl length. rewrite Nat2Z.inj_succ.
    replace (8 * Z.succ (Z.of_nat (length a))) with (8 + 8 * Z.of_nat (length a)) by lia.
    rewrite Z.pow_add_r by lia. change (2 ^ 8) with 256. lia.
Qed.

Lemma le_value_range bs :
  Forall uint8 bs -> 0 <= le_value bs < 2 ^ (8 * Z.of_nat (length bs)).
Proof.
  induction 1 as [|b bs Hb _ IH]; simpl le_value.
  - simpl. lia.
  - simpl length. rewrite Nat2Z.inj_succ.
    replace (8 * Z.succ (Z.of_nat (length bs))) with (8 + 8 * Z.of_nat (length bs)) by lia.
    rewrite Z.pow_add_r by lia. change (2 ^ 8) with 256. unfold uint8 in Hb. lia.
Qed.

(** A 16-bit little-endian read is a 16-bit field of the stream. *)
Lemma readUint16_field ds :
  Forall uint8 (buffer ds) -> 0 <= pointer ds -> pointer ds + 2 <= byteLength ds ->
  readUint16 true ds
  = Some (Z.shiftr (le_value (buffer ds)) (8 * pointer ds) mod 2 ^ 16, advance ds 2).
Proof.
  intros Hb Hp Hfit. unfold readUint16, getUint, getBytes.
  destruct (Z.leb_spec 0 (pointer ds)); [|lia].
  destruct (Z.leb_spec (pointer ds + 2) (byteLength ds)); [|lia].
  simpl. do 2 f_equal.
  set (p := Z.to_nat (pointer ds)).
  set (w := take (Z.to_nat 2) (drop p (buffer ds))).
  assert (Hsplit : buffer ds = take p (buffer ds) ++ w ++ drop 2 (drop p (buffer ds))).
  { unfold w. change (Z.to_nat 2) with 2%nat.
    rewrite (take_drop 2 (drop p (buffer ds))). rewrite take_drop. reflexivity. }
  assert (Hlp : length (take p (buffer ds)) = p).
  { rewrite length_take. unfold byteLength in *. lia. }
  assert (Hlw : length w = 2%nat).
  { unfold w. rewrite length_take, length_drop. unfold byteLength in *. lia. }
  assert (Hw : 0 <= le_value w < 2 ^ 16).
  { pose proof (le_value_range w) as H1. rewrite Hlw in H1. apply H1.
    unfold w. apply Forall_take, Forall_drop. assumption. }
  assert (Ha : 0 <= le_value (take p (buffer ds)) < 2 ^ (8 * pointer ds)).
  { pose proof (le_value_range (take p (buffer ds))) as H1. rewrite Hlp in H1.
    replace (8 * pointer ds) with (8 * Z.of_nat p) by lia.
    apply H1. apply Forall_take. assumption. }
  rewrite Hsplit at 1. rewrite !le_value_app, Hlp, Hlw.
  replace (8 * Z.of_nat p) with (8 * pointer ds) by lia.
  change (8 * Z.of_nat 2) with 16.
  rewrite Z.shiftr_div_pow2 by lia.
  set (R := le_value (drop 2 (drop p (buffer ds)))).
  assert (Hpow : 0 < 2 ^ (8 * pointer ds)) by (apply Z.pow_pos_nonneg; lia).
  replace (le_value (take p (buffer ds)) + 2 ^ (8 * pointer ds) * (le_value w + 2 ^ 16 * R))
    with (le_value (take p (buffer ds)) + (le_value w + 2 ^ 16 * R) * 2 ^ (8 * pointer ds))
    by lia.
  rewrite Z.div_add by lia. rewrite Z.div_small by lia.
  replace (0 + (le_value w + 2 ^ 16 * R)) with (le_value w + R * 2 ^ 16) by lia.
  rewrite Z.mod_add by lia. rewrite Z.mod_small by lia. reflexivity.
Qed.

(** Bits of a field. *)
Lemma field_bit r pos n i :
  0 <= n -> 0 <= i ->
  Z.testbit (field r pos n) i = (i <? n) && Z.testbit (streamBits r) (i + pos).
Proof.
  intros Hn Hi. unfold field.
  rewrite Z.testbit_mod_pow2 by lia. rewrite Z.shiftr_spec by lia. reflexivity.
Qed.

Lemma field_range r pos n : 0 <= n -> 0 <= field r pos n < 2 ^ n.
Proof.
  intros Hn. unfold field. apply Z.mod_pos_bound. apply Z.pow_pos_nonneg; lia.
Qed.

Lemma field_low r pos a n :
  0 <= n <= a -> field r pos a mod 2 ^ n = field r pos n.
Proof.
  intros H. apply Z.bits_inj'. intros i Hi.
  rewrite Z.testbit_mod_pow2 by lia. rewrite !field_bit by lia.
  destruct (Z.ltb_spec i n), (Z.ltb_spec i a); simpl; try reflexivity; lia.
Qed.

Lemma field_shiftr r pos a n :
  0 <= n <= a -> Z.shiftr (field r pos a) n = field r (pos + n) (a - n).
Proof.
  intros H. apply Z.bits_inj'. intros i Hi.
  rewrite Z.shiftr_spec by lia. rewrite !field_bit by lia.
  replace (i + n + pos) with (i + (pos + n)) by lia.
  destruct (Z.ltb_spec (i + n) a), (Z.ltb_spec i (a - n)); simpl; try reflexivity; lia.
Qed.

Lemma field_refill r pos a :
  0 <= a ->
  Z.lor (field r pos a) (Z.shiftl (field r (pos + a) 16) a) = field r pos (a + 16).
Proof.
  intros Ha. apply Z.bits_inj'. intros i Hi.
  rewrite Z.lor_spec, Z.shiftl_spec by lia. rewrite (field_bit r pos) by lia.
  rewrite (field_bit r pos (a + 16)) by lia.
  destruct (Z.ltb_spec i a).
  - rewrite (Z.testbit_neg_r _ (i - a)) by lia.
    destruct (Z.ltb_spec i (a + 16)); [|lia]. simpl. apply orb_false_r.
  - rewrite field_bit by lia. simpl.
    replace (i - a + (pos + a)) with (i + pos) by lia.
    destruct (Z.ltb_spec (i - a) 16), (Z.ltb_spec i (a + 16)); simpl; try reflexivity; lia.
Qed.

Lemma BITMASKS_at n :
  0 <= n < 16 -> at_ BITMASKS n = Some (2 ^ n - 1).
Proof.
  intros H. unfold at_, BITMASKS. destruct (Z.ltb_spec n 0); [lia|].
  rewrite list_lookup_fmap, lookup_seq_lt by lia. simpl.
  rewrite Z2Nat.id by lia. do 2 f_equal.
  unfold JS.shl. rewrite (toInt32_small 1) by lia.
  rewrite Z.mod_small by lia. rewrite Z.shiftl_mul_pow2 by lia.
  assert (0 < 2 ^ n) by (apply Z.pow_pos_nonneg; lia).
  assert (2 ^ n <= 2 ^ 15) by (apply Z.pow_le_mono_r; lia).
  rewrite toInt32_small by lia. lia.
Qed.

(** Taking [n] bits out of an accumulator that holds [a >= n] of them. *)
Lemma take_bits r pos a n :
  1 <= n <= 15 -> n <= a <= 31 ->
  JS.and (field r pos a) (JS.int_of (at_ BITMASKS n)) = field r pos n /\
  JS.sar (field r pos a) n = field r (pos + n) (a - n).
Proof.
  intros Hn Ha.
  pose proof (field_range r pos a ltac:(lia)) as Hr.
  assert (2 ^ a <= 2 ^ 31) by (apply Z.pow_le_mono_r; lia).
  assert (0 < 2 ^ n) by (apply Z.pow_pos_nonneg; lia).
  assert (2 ^ n <= 2 ^ 15) by (apply Z.pow_le_mono_r; lia).
  rewrite BITMASKS_at by lia. simpl JS.int_of. split.
  - unfold JS.and. rewrite !toInt32_small by lia.
    replace (2 ^ n - 1) with (Z.ones n) by (rewrite Z.ones_equiv; lia).
    rewrite Z.land_ones by lia. apply field_low. lia.
  - unfold JS.sar. rewrite toInt32_small by lia.
    rewrite Z.mod_small by lia. apply field_shiftr. lia.
Qed.


Lemma field_same_stream r r' pos n :
  buffer (stream r') = buffer (stream r) -> field r' pos n = field r pos n.
Proof. intros E. unfold field, streamBits. rewrite E. reflexivity. Qed.

(** One call: the next [n] bits, at most one refill, [n] bits consumed. *)
Lemma readBits_spec r n :
  coherent r -> 1 <= n <= 15 ->
  (bitIndex r + n > 16 -> pointer (stream r) + 2 <= byteLength (stream r)) ->
  exists r',
    readBits n r = Some (field r (position r) n, r') /\
    coherent r' /\
    buffer (stream r') = buffer (stream r) /\
    position r' = position r + n /\
    pointer (stream r')
    = pointer (stream r) + (if bitIndex r + n >? 16 then 2 else 0).
Proof.
  intros (Hb & Hi & Hpos & Hptr & Hv) Hn Hfit.
  unfold position, avail in *. unfold readBits.
  destruct (Z.gtb_spec (bitIndex r + n) 16) as [Hre | Hno].
  - specialize (Hfit ltac:(lia)).
    rewrite readUint16_field by (assumption || lia).
    cbn [mbind option_bind].
    set (a := 16 - bitIndex r) in *.
    set (pos := 8 * pointer (stream r) - a) in *.
    assert (Hacc : JS.or (bitValue r)
                     (JS.shl (Z.shiftr (le_value (buffer (stream r)))
                                (8 * pointer (stream r)) mod 2 ^ 16) a)
                   = field r pos (a + 16)).
    { rewrite Hv.
      replace (8 * pointer (stream r)) with (pos + a) by (unfold pos; lia).
      change (Z.shiftr (le_value (buffer (stream r))) (pos + a) mod 2 ^ 16)
        with (field r (pos + a) 16).
      pose proof (field_range r pos a ltac:(lia)) as H1.
      pose proof (field_range r (pos + a) 16 ltac:(lia)) as H2.
      assert (0 < 2 ^ a) by (apply Z.pow_pos_nonneg; lia).
      assert (2 ^ a <= 2 ^ 15) by (apply Z.pow_le_mono_r; lia).
      unfold JS.shl. rewrite (toInt32_small (field r (pos + a) 16)) by lia.
      rewrite (Z.mod_small a 32) by lia.
      assert (Hsh : 0 <= Z.shiftl (field r (pos + a) 16) a < 2 ^ 31).
      { rewrite Z.shiftl_mul_pow2 by lia. nia. }
      rewrite (toInt32_small (Z.shiftl _ a)) by lia.
      unfold JS.or. rewrite !toInt32_small by lia.
      apply field_refill. lia. }
    rewrite Hacc.
    destruct (take_bits r pos (a + 16) n) as [Hres Hrest]; [lia | lia |].
    cbn [bitValue stream bitIndex]. rewrite Hres, Hrest.
    eexists. split; [reflexivity|].
    unfold coherent, position, avail.
    cbn [bitValue stream bitIndex advance buffer pointer].
    unfold byteLength in *. cbn [buffer].
    repeat split; try assumption; try lia.
    unfold field, streamBits. cbn [stream buffer].
    f_equal; [f_equal|f_equal]; unfold pos; lia.
  - cbn [mbind option_bind].
    set (a := 16 - bitIndex r) in *.
    set (pos := 8 * pointer (stream r) - a) in *.
    rewrite Hv.
    destruct (take_bits r pos a n) as [Hres Hrest]; [lia | lia |].
    rewrite Hres, Hrest.
    eexists. split; [reflexivity|].
    unfold coherent, position, avail.
    cbn [bitValue stream bitIndex].
    repeat split; try assumption; try lia.
    erewrite field_same_stream by reflexivity.
    f_equal; unfold pos; lia.
Qed.


Lemma fields_same_stream r r' pos widths :
  buffer (stream r') = buffer (stream r) -> fields r' pos widths = fields r pos widths.
Proof.
  intros E. revert pos. induction widths as [|n rest IH]; intros pos; simpl.
  - reflexivity.
  - rewrite IH. rewrite (field_same_stream r r') by assumption. reflexivity.
Qed.

(** A sequence of calls: consecutive fields, and one refill for every 16
    bits the accumulator did not already hold. *)
Lemma readBitsSeq_spec widths : forall r,
  coherent r -> Forall (fun n => 1 <= n <= 15) widths ->
  pointer (stream r) + 2 * ((total widths - avail r + 15) / 16)
  <= byteLength (stream r) ->
  exists r',
    readBitsSeq widths r = Some (fields r (position r) widths, r') /\
    coherent r' /\
    buffer (stream r') = buffer (stream r) /\
    position r' = position r + total widths /\
    pointer (stream r')
    = pointer (stream r) + 2 * ((total widths - avail r + 15) / 16).
Proof.
  induction widths as [|n rest IH]; intros r Hc Hw Hfit.
  - pose proof Hc as (_ & Hi & _).
    assert (Hz : (total [] - avail r + 15) / 16 = 0)
      by (unfold total, avail; simpl; apply Z.div_small; lia).
    rewrite Hz. exists r. change (total []) with 0.
    split; [reflexivity|]. split; [exact Hc|]. repeat split; lia.
  - apply Forall_cons_1 in Hw as [Hn Hw].
    pose proof Hc as (_ & Hi & _).
    assert (Hnn : Forall (fun n => 0 <= n) rest)
      by (eapply Forall_impl; [exact Hw | simpl; intros; lia]).
    assert (Ht : 0 <= total rest).
    { clear -Hnn. induction Hnn; unfold total in *; simpl; lia. }
    change (total (n :: rest)) with (n + total rest) in *.
    unfold avail in *.
    destruct (readBits_spec r n Hc Hn) as (r1 & E1 & Hc1 & Hb1 & Hp1 & Hq1).
    { intros Hre.
      assert (1 <= (n + total rest - (16 - bitIndex r) + 15) / 16)
        by (apply Z.div_le_lower_bound; lia).
      lia. }
    assert (Ha1 : 16 - bitIndex r1
                  = 16 - bitIndex r - n + (if bitIndex r + n >? 16 then 16 else 0)).
    { unfold position, avail in Hp1. destruct (bitIndex r + n >? 16); lia. }
    assert (Hdiv : (n + total rest - (16 - bitIndex r) + 15) / 16
                   = (total rest - (16 - bitIndex r1) + 15) / 16
                     + (if bitIndex r + n >? 16 then 1 else 0)).
    { rewrite Ha1. destruct (bitIndex r + n >? 16).
      - replace (n + total rest - (16 - bitIndex r) + 15)
          with (total rest - (16 - bitIndex r - n + 16) + 15 + 1 * 16) by lia.
        rewrite Z.div_add by lia. lia.
      - rewrite Z.add_0_r. f_equal. lia. }
    destruct (IH r1 Hc1 Hw) as (r2 & E2 & Hc2 & Hb2 & Hp2 & Hq2).
    { unfold byteLength in *. rewrite Hb1. unfold avail.
      rewrite Hq1. rewrite Hdiv in Hfit. destruct (bitIndex r + n >? 16); lia. }
    exists r2. cbn [readBitsSeq]. rewrite E1. cbn [mbind option_bind].
    rewrite E2. cbn [mbind option_bind].
    rewrite (fields_same_stream r r1) by assumption. rewrite Hp1.
    unfold avail in *.
    split; [reflexivity|]. split; [exact Hc2|]. split; [congruence|].
    split; [lia|].
    rewrite Hq2, Hq1, Hdiv. destruct (bitIndex r + n >? 16); lia.
Qed.

(** C4, as stated, fails at [n = 16]: [BITMASKS] has the entries 0 to 15,
    the mask for 16 is [undefined], and the call returns 0 whatever the
    next sixteen bits are (here sixteen ones). *)
Lemma readBits_16_returns_zero :
  coherent (resetBits (mk (DataStream.mk [0xFF; 0xFF] 0) 0 0)) /\
  fst <$> readBits 16 (resetBits (mk (DataStream.mk [0xFF; 0xFF] 0) 0 0)) = Some 0 /\
  field (resetBits (mk (DataStream.mk [0xFF; 0xFF] 0) 0 0)) 0 16 = 0xFFFF.
Proof.
  split; [|split; reflexivity].
  unfold coherent, position, avail, byteLength; simpl.
  repeat split; try lia.
  repeat (constructor; [unfold uint8; lia|]). constructor.
Qed.

(** C4 (amended: widths from 1 to 15).  In a state the cursor can be in
    between calls, [readBits(n)] with [1 <= n <= 15] returns the next [n]
    bits of the stream (each little-endian 16-bit word from its lowest
    bit, words in file order), refills at most once and consumes exactly
    [n] bits.  A sequence of such calls returns consecutive fields and
    consumes the sum of the widths; started right after a reset with the
    widths summing to a multiple of 16, it takes exactly that many bits
    from the byte stream. *)
Theorem readBits_consumes_fields (r : KwzReader.t) (widths : list Z) :
  coherent r ->
  Forall (fun n => 1 <= n <= 15) widths ->
  pointer (stream r) + 2 * ((total widths - avail r + 15) / 16)
  <= byteLength (stream r) ->
  (forall n,
      1 <= n <= 15 ->
      (bitIndex r + n > 16 -> pointer (stream r) + 2 <= byteLength (stream r)) ->
      exists r',
        readBits n r = Some (field r (position r) n, r') /\
        coherent r' /\
        position r' = position r + n /\
        (pointer (stream r') = pointer (stream r) \/
         pointer (stream r') = pointer (stream r) + 2)) /\
  (exists r',
      readBitsSeq widths r = Some (fields r (position r) widths, r') /\
      coherent r' /\
      position r' = position r + total widths /\
      (bitIndex r = 16 -> total widths mod 16 = 0 ->
       8 * (pointer (stream r') - pointer (stream r)) = total widths /\
       bitIndex r' = 16)).
Proof.
  intros Hc Hw Hfit. split.
  - intros n Hn Hfit1.
    destruct (readBits_spec r n Hc Hn Hfit1) as (r' & E & Hc' & _ & Hp & Hq).
    exists r'. split; [exact E|]. split; [exact Hc'|]. split; [exact Hp|].
    rewrite Hq. destruct (bitIndex r + n >? 16); lia.
  - destruct (readBitsSeq_spec widths r Hc Hw Hfit) as (r' & E & Hc' & _ & Hp & Hq).
    exists r'. split; [exact E|]. split; [exact Hc'|]. split; [exact Hp|].
    intros H H0. split.
    + rewrite Hq. unfold avail. rewrite H.
      replace (total widths - (16 - 16) + 15) with (total widths + 15) by lia.
      pose proof (Z.div_mod (total widths) 16 ltac:(lia)) as Hd.
      rewrite H0 in Hd.
      replace (total widths + 15) with (15 + (total widths / 16) * 16) by lia.
      rewrite Z.div_add by lia. change (15 / 16) with 0. lia.
    + unfold position, avail in Hp. rewrite Hq in Hp. unfold avail in Hp.
      rewrite H in Hp.
      replace (total widths - (16 - 16) + 15) with (total widths + 15) in Hp by lia.
      pose proof (Z.div_mod (total widths) 16 ltac:(lia)) as Hd.
      rewrite H0 in Hd.
      replace (total widths + 15) with (15 + (total widths / 16) * 16) in Hp by lia.
      rewrite Z.div_add in Hp by lia. change (15 / 16) with 0 in Hp. lia.
Qed.

Lemma readBits_consumes_fields_witness :
  exists r',
    readBitsSeq [3; 5; 13; 11]
      (resetBits (mk (DataStream.mk [0xB4; 0x5A; 0xC3; 0x3C; 0x99] 0) 0 0))
    = Some ([4; 22; 858; 486], r') /\
    pointer (stream r') = 4.
Proof.
  pose (r := resetBits (mk (DataStream.mk [0xB4; 0x5A; 0xC3; 0x3C; 0x99] 0) 0 0)).
  assert (Hc : coherent r).
  { unfold coherent, position, avail, byteLength; simpl.
    repeat split; try lia.
    repeat (constructor; [unfold uint8; lia|]). constructor. }
  assert (Hw : Forall (fun n => 1 <= n <= 15) [3; 5; 13; 11])
    by (repeat (constructor; [lia|]); constructor).
  assert (Hfit : pointer (stream r) + 2 * ((total [3; 5; 13; 11] - avail r + 15) / 16)
                 <= byteLength (stream r))
    by (vm_compute; discriminate).
  destruct (readBits_consumes_fields r [3; 5; 13; 11] Hc Hw Hfit)
    as (_ & r' & E & _ & _ & Hm).
  exists r'. split.
  - exact E.
  - destruct Hm as [Hm _]; [reflexivity | reflexivity |].
    change (pointer (stream r)) with 0 in Hm. change (total [3; 5; 13; 11]) with 32 in Hm.
    lia.
Defined.

End BitCursorFacts.

(** ** Resampling *)





(** ** Format B: one layer is an overwriting function *)

Section KwzLayerFacts.
Import Kwz KwzView.

Lemma overwrites_id : overwrites (fun b => b).
Proof. split; [auto|]. intros q. right. auto. Qed.

Lemma overwrites_compose f g :
  overwrites f -> overwrites g -> overwrites (fun b => g (f b)).
Proof.
  intros [Hlf Hpf] [Hlg Hpg]. split; [auto|].
  intros q. destruct (Hpg q) as [[v Hv] | Hkeep].
  - left. exists v. auto.
  - destruct (Hpf q) as [[v Hv] | Hkeepf].
    + left. exists v. intros b Hb. rewrite Hkeep by auto. auto.
    + right. intros b Hb. rewrite Hkeep by auto. auto.
Qed.


Lemma typed_set_overwrites pixels offset :
  0 <= offset -> offset + Z.of_nat (length pixels) <= Z.of_nat layerLength ->
  exists f, overwrites f /\
            forall b, length b = layerLength -> typed_set b pixels offset = Some (f b).
Proof.
  intros H0 H1.
  exists (fun b => take (Z.to_nat offset) b ++ pixels
                   ++ drop (Z.to_nat offset + length pixels) b).
  split; [split|].
  - intros b Hb. rewrite !length_app, length_take, length_drop. lia.
  - intros q.
    destruct (decide (q < Z.to_nat offset)%nat) as [Hlow | Hnlow].
    + right. intros b Hb. rewrite lookup_app_l by (rewrite length_take; lia).
      apply lookup_take_lt. lia.
    + destruct (decide (q < Z.to_nat offset + length pixels)%nat) as [Hin | Hhigh].
      * left.
        destruct (lookup_lt_is_Some_2 pixels (q - Z.to_nat offset)) as [v Hv]; [lia|].
        exists v. intros b Hb.
        rewrite lookup_app_r by (rewrite length_take; lia).
        rewrite length_take. replace (Z.to_nat offset `min` length b)%nat
          with (Z.to_nat offset) by lia.
        rewrite lookup_app_l by lia. exact Hv.
      * right. intros b Hb.
        rewrite lookup_app_r by (rewrite length_take; lia).
        rewrite length_take. replace (Z.to_nat offset `min` length b)%nat
          with (Z.to_nat offset) by lia.
        rewrite lookup_app_r by lia. rewrite lookup_drop. f_equal. lia.
  - intros b Hb. unfold typed_set. rewrite Hb.
    destruct (Z.leb_spec 0 offset); [|lia].
    destruct (Z.leb_spec (offset + Z.of_nat (length pixels)) (Z.of_nat layerLength)); [|lia].
    reflexivity.
Qed.

Lemma tileSet_fits y x c :
  originInside (y, x) -> tileSet (y * 320 + x) c ->
  0 <= snd c /\ snd c + Z.of_nat (length (fst c)) <= Z.of_nat layerLength.
Proof.
  intros [Hy Hx] [Hlen (k & Hk & ->)]. simpl in *.
  unfold layerLength. lia.
Qed.

Lemma applySets_overwrites y x sets :
  originInside (y, x) -> Forall (tileSet (y * 320 + x)) sets ->
  exists f, overwrites f /\
            forall b, length b = layerLength -> applySets sets b = Some (f b).
Proof.
  intros Ho. induction 1 as [|[pixels offset] sets Hc _ (g & Hg & Eg)].
  - exists (fun b => b). split; [apply overwrites_id | reflexivity].
  - destruct (tileSet_fits y x _ Ho Hc) as [H0 H1]. simpl in H0, H1.
    destruct (typed_set_overwrites pixels offset H0 H1) as (f & Hf & Ef).
    exists (fun b => g (f b)). split; [apply overwrites_compose; assumption|].
    intros b Hb. simpl. rewrite Ef by assumption. simpl.
    apply Eg. apply Hf. assumption.
Qed.

Lemma length_subarray8 t linePtr : (length (subarray t linePtr (linePtr + 8)) <= 8)%nat.
Proof.
  unfold subarray. rewrite length_take.
  replace (linePtr + 8 - linePtr) with 8 by lia. change (Z.to_nat 8) with 8%nat. lia.
Qed.

Lemma setRows_tileSet rows ptr :
  (length rows <= 8)%nat -> Forall (fun row => (length row <= 8)%nat) rows ->
  Forall (tileSet ptr) (setRows rows ptr).
Proof.
  intros Hn Hrows. apply Forall_lookup. intros i c Hc.
  unfold setRows in Hc. rewrite list_lookup_imap in Hc.
  destruct (rows !! i) as [row|] eqn:Er; [|discriminate].
  simpl in Hc. injection Hc as <-.
  split; simpl.
  - eapply Forall_lookup_1 in Hrows; [|exact Er]. exact Hrows.
  - exists (Z.of_nat i). split; [|reflexivity].
    apply lookup_lt_Some in Er. lia.
Qed.

Lemma readFlaggedLines_rows masks flags r rows r' :
  readFlaggedLines masks flags r = Some (rows, r') ->
  length rows = length masks /\ Forall (fun row => (length row <= 8)%nat) rows.
Proof.
  revert r rows r'. induction masks as [|mask masks IH]; intros r rows r' E.
  - simpl in E. injection E as <- <-. split; [reflexivity | constructor].
  - simpl in E.
    destruct (truthy (JS.and flags mask)).
    + destruct (KwzReader.readBits 5 r) as [[v r1]|]; [|discriminate]. simpl in E.
      destruct (readFlaggedLines masks flags r1) as [[rows1 r2]|] eqn:E1; [|discriminate].
      simpl in E. injection E as <- <-.
      destruct (IH _ _ _ E1) as [Hl Hr]. split; [simpl; lia|].
      constructor; [apply length_subarray8 | assumption].
    + destruct (KwzReader.readBits 13 r) as [[v r1]|]; [|discriminate]. simpl in E.
      destruct (readFlaggedLines masks flags r1) as [[rows1 r2]|] eqn:E1; [|discriminate].
      simpl in E. injection E as <- <-.
      destruct (IH _ _ _ E1) as [Hl Hr]. split; [simpl; lia|].
      constructor; [apply length_subarray8 | assumption].
Qed.

Lemma patternRows_rows pattern a b :
  (length a <= 8)%nat -> (length b <= 8)%nat ->
  (length (patternRows pattern a b) <= 8)%nat /\
  Forall (fun row => (length row <= 8)%nat) (patternRows pattern a b).
Proof.
  intros Ha Hb. unfold patternRows.
  repeat match goal with |- context [if ?c then _ else _] => destruct c end;
    (split; [simpl; lia
            | repeat (constructor; [assumption|]); constructor]).
Qed.

Ltac rows8 :=
  apply setRows_tileSet;
  [simpl; lia
  | repeat (constructor; [apply length_subarray8|]); constructor].

(** Every [set] call of a tile targets one of the tile's eight rows. *)
Lemma decodeTile_sets ptr r sets r' :
  decodeTile ptr r = Some (Draw sets, r') -> Forall (tileSet ptr) sets.
Proof.
  unfold decodeTile. intros E.
  destruct (KwzReader.readBits 3 r) as [[tileType r1]|]; [|discriminate]. cbn [mbind option_bind] in E.
  destruct (tileType =? 0).
  { destruct (KwzReader.readBits 5 r1) as [[v r2]|]; [|discriminate]. cbn [mbind option_bind] in E.
    injection E as <- <-. rows8. }
  destruct (tileType =? 1).
  { destruct (KwzReader.readBits 13 r1) as [[v r2]|]; [|discriminate]. cbn [mbind option_bind] in E.
    injection E as <- <-. rows8. }
  destruct (tileType =? 2).
  { destruct (KwzReader.readBits 5 r1) as [[v r2]|]; [|discriminate]. cbn [mbind option_bind] in E.
    injection E as <- <-. rows8. }
  destruct (tileType =? 3).
  { destruct (KwzReader.readBits 13 r1) as [[v r2]|]; [|discriminate]. cbn [mbind option_bind] in E.
    injection E as <- <-. rows8. }
  destruct (tileType =? 4).
  { destruct (KwzReader.readBits 8 r1) as [[flags r2]|]; [|discriminate]. cbn [mbind option_bind] in E.
    destruct (readFlaggedLines [1; 2; 4; 8; 16; 32; 64; 128] flags r2)
      as [[rows r3]|] eqn:E1; [|discriminate].
    cbn [mbind option_bind] in E. injection E as <- <-.
    destruct (readFlaggedLines_rows _ _ _ _ _ E1) as [Hl Hr].
    apply setRows_tileSet; [rewrite Hl; simpl; lia | assumption]. }
  destruct (tileType =? 5).
  { destruct (KwzReader.readBits 5 r1) as [[v r2]|]; discriminate. }
  destruct (tileType =? 7).
  { destruct (KwzReader.readBits 2 r1) as [[pattern r2]|]; [|discriminate]. cbn [mbind option_bind] in E.
    destruct (KwzReader.readBits 1 r2) as [[useCommonLines r3]|]; [|discriminate].
    cbn [mbind option_bind] in E.
    destruct (truthy useCommonLines).
    - destruct (KwzReader.readBits 5 r3) as [[va r4]|]; [|discriminate]. cbn [mbind option_bind] in E.
      destruct (KwzReader.readBits 5 r4) as [[vb r5]|]; [|discriminate]. cbn [mbind option_bind] in E.
      injection E as <- <-.
      apply setRows_tileSet; apply patternRows_rows; apply length_subarray8.
    - destruct (KwzReader.readBits 13 r3) as [[va r4]|]; [|discriminate]. cbn [mbind option_bind] in E.
      destruct (KwzReader.readBits 13 r4) as [[vb r5]|]; [|discriminate]. cbn [mbind option_bind] in E.
      injection E as <- <-.
      apply setRows_tileSet; apply patternRows_rows; apply length_subarray8. }
  injection E as <- <-. constructor.
Qed.

(** Whether the tiles decode depends on the file only, and if they do,
    the layer is overwritten. *)
Lemma tileLoop_uniform tiles :
  Forall originInside tiles ->
  forall skipTileCounter r,
    (forall b, length b = layerLength -> tileLoop tiles skipTileCounter r b = None) \/
    (exists f, overwrites f /\
               forall b, length b = layerLength ->
                         tileLoop tiles skipTileCounter r b = Some (f b)).
Proof.
  induction 1 as [|[y x] tiles Ho _ IH]; intros skipTileCounter r.
  - right. exists (fun b => b). split; [apply overwrites_id | reflexivity].
  - cbn [tileLoop]. destruct (skipTileCounter >? 0); [apply IH|].
    destruct (decodeTile (y * 320 + x) r) as [[[sets | count] r1]|] eqn:Et.
    + pose proof (decodeTile_sets _ _ _ _ Et) as Hsets.
      destruct (applySets_overwrites y x sets Ho Hsets) as (f & Hf & Ef).
      destruct (IH skipTileCounter r1) as [Hnone | (g & Hg & Eg)].
      * left. intros b Hb. cbn [mbind option_bind]. rewrite Ef by assumption.
        cbn [mbind option_bind]. apply Hnone. apply Hf. assumption.
      * right. exists (fun b => g (f b)).
        split; [apply overwrites_compose; assumption|].
        intros b Hb. cbn [mbind option_bind]. rewrite Ef by assumption.
        cbn [mbind option_bind]. apply Eg. apply Hf. assumption.
    + cbn [mbind option_bind]. apply IH.
    + left. intros b Hb. reflexivity.
Qed.

Lemma tileOrigins_inside : Forall originInside tileOrigins.
Proof.
  apply Forall_forall. intros [y x] Hin.
  assert (Hb : forallb (fun yx : Z * Z =>
                          (0 <=? fst yx) && (fst yx <=? 232)
                          && (0 <=? snd yx) && (snd yx <=? 312)) tileOrigins = true)
    by (vm_compute; reflexivity).
  rewrite forallb_forall in Hb. apply list_elem_of_In in Hin.
  specialize (Hb _ Hin). simpl in Hb. unfold originInside. simpl. lia.
Qed.

Lemma layerOp_uniform p j L :
  (forall b, length b = layerLength -> layerOp p j L b = None) \/
  (exists f, overwrites f /\
             forall b, length b = layerLength -> layerOp p j L b = Some (f b)).
Proof.
  unfold layerOp.
  destruct (frameLayerSizes p !! Z.to_nat j) as [sizes|]; [|left; reflexivity].
  cbn [mbind option_bind].
  destruct (at_ sizes L) as [size|]; [|left; reflexivity].
  cbn [mbind option_bind].
  destruct (layerPtr p j L) as [ptr|]; [|left; reflexivity].
  cbn [mbind option_bind].
  destruct (size =? 38).
  - right. exists (fun b => b). split; [apply overwrites_id | reflexivity].
  - apply (tileLoop_uniform tileOrigins tileOrigins_inside).
Qed.


End KwzLayerFacts.

(** ** Format B: one frame *)

Section KwzFrameFacts.
Import Kwz KwzView.

Lemma mask_cases m : 0 <= m <= 7 ->
  m = 0 \/ m = 1 \/ m = 2 \/ m = 3 \/ m = 4 \/ m = 5 \/ m = 6 \/ m = 7.
Proof. lia. Qed.

Lemma layer_cases (L : nat) : (L < 3)%nat -> L = 0%nat \/ L = 1%nat \/ L = 2%nat.
Proof. lia. Qed.

Ltac each_mask m H :=
  destruct (mask_cases m H) as [-> | [-> | [-> | [-> | [-> | [-> | [-> | ->]]]]]]].

(** Narrowing a diffing flag by the flags of the next frame. *)
Lemma narrowed_mask m fl :
  0 <= m <= 7 -> 0 <= fl <= 7 ->
  0 <= JS.and m (JS.not fl) <= 7 /\
  (forall L : nat, (L < 3)%nat ->
     layerBit (JS.and m (JS.not fl)) (Z.of_nat L)
     = layerBit m (Z.of_nat L) && negb (layerBit fl (Z.of_nat L))) /\
  ((JS.and m (JS.not fl) =? 0) = true ->
   forall L : nat, (L < 3)%nat -> layerBit (JS.and m (JS.not fl)) (Z.of_nat L) = false).
Proof.
  intros Hm Hf. each_mask m Hm; each_mask fl Hf;
    (split; [vm_compute; split; discriminate|]);
    (split; [intros L HL; destruct (layer_cases L HL) as [-> | [-> | ->]];
             vm_compute; reflexivity|]);
    intros E; try (vm_compute in E; discriminate);
    intros L HL; destruct (layer_cases L HL) as [-> | [-> | ->]];
    vm_compute; reflexivity.
Qed.

Lemma layerBit_zero (L : nat) : (L < 3)%nat -> layerBit 0 (Z.of_nat L) = false.
Proof. intros HL. destruct (layer_cases L HL) as [-> | [-> | ->]]; reflexivity. Qed.

Lemma layerBit_seven (L : nat) : (L < 3)%nat -> layerBit 7 (Z.of_nat L) = true.
Proof. intros HL. destruct (layer_cases L HL) as [-> | [-> | ->]]; reflexivity. Qed.

(** The flags of a frame can be read, and are three bits. *)
Lemma getFrameDiffingFlag_ok p j :
  tables_ok p -> 0 <= j < frameCount p ->
  exists fl, getFrameDiffingFlag p j = Some fl /\ 0 <= fl <= 7.
Proof.
  intros Ht Hj. destruct (Ht j Hj) as (mo & dp & a & b & c & Em & H0 & H1 & _).
  unfold getFrameDiffingFlag. rewrite Em. cbn [mbind option_bind].
  destruct (read_in_bounds DataStream.Uint32 true (DataStream.mk (buffer p) mo))
    as [v Ev]; [simpl; lia | unfold DataStream.byteLength; simpl; lia |].
  simpl in Ev. rewrite Ev. cbn [mbind option_bind].
  eexists. split; [reflexivity|].
  pose proof (and_ones_range (JS.sar v 4) 3 ltac:(lia)) as Hr.
  change (Z.ones 3) with 7 in Hr. change (2 ^ 3) with 8 in Hr. lia.
Qed.

Lemma layerOp_length p j L b b' :
  length b = layerLength -> layerOp p j L b = Some b' -> length b' = layerLength.
Proof.
  intros Hb E. destruct (layerOp_uniform p j L) as [Hnone | (f & [Hl _] & Ef)].
  - rewrite Hnone in E by assumption. discriminate.
  - rewrite Ef in E by assumption. injection E as <-. auto.
Qed.

Lemma decodeLayers_unfold p j m s b0 b1 b2 :
  tables_ok p -> 0 <= j < frameCount p -> layers s = [b0; b1; b2] ->
  decodeLayers p j m s
  = (c0 ← maskedOp p j m 0 b0;
     c1 ← maskedOp p j m 1 b1;
     c2 ← maskedOp p j m 2 b2;
     Some (mkState [c0; c1; c2] (Some j))).
Proof.
  intros Ht Hj El. destruct (Ht j Hj) as (mo & dp & sa & sb & sc & _ & _ & _ & Ed & Es).
  unfold decodeLayers, maskedOp, layerOp, layerPtr, layerBit. rewrite Ed, Es, El.
  change (Z.of_nat 0) with 0. change (Z.of_nat 1) with 1. change (Z.of_nat 2) with 2.
  cbn [layerLoop].
  generalize (JS.and (JS.sar m 0) 1 =? 0) (JS.and (JS.sar m 1) 1 =? 0)
    (JS.and (JS.sar m 2) 1 =? 0).
  generalize (decodeLayer p). intros D t0 t1 t2.
  simpl. rewrite !andb_false_r.
  replace (dp + 0) with dp by lia.
  replace (dp + (sa + 0)) with (dp + sa) by lia.
  replace (dp + (sa + (sb + 0))) with (dp + sa + sb) by lia.
  destruct (sa =? 38), (sb =? 38), (sc =? 38), t0, t1, t2; simpl;
    repeat match goal with
      | |- context [D ?ptr ?b] => destruct (D ptr b); simpl
      end; reflexivity.
Qed.


Lemma maskedOp_length p j m L b b' :
  length b = layerLength -> maskedOp p j m L b = Some b' -> length b' = layerLength.
Proof.
  unfold maskedOp. intros Hb. destruct (layerBit m (Z.of_nat L)).
  - apply layerOp_length. assumption.
  - intros [= <-]. assumption.
Qed.

Lemma decodeLayers_spec p j m s s' :
  tables_ok p -> 0 <= j < frameCount p -> state_ok s ->
  decodeLayers p j m s = Some s' ->
  state_ok s' /\ prevFrameIndex s' = Some j /\
  forall (L : nat) b, (L < 3)%nat -> layers s !! L = Some b ->
                      maskedOp p j m L b = layers s' !! L.
Proof.
  intros Ht Hj (b0 & b1 & b2 & El & H0 & H1 & H2) E.
  rewrite (decodeLayers_unfold p j m s b0 b1 b2 Ht Hj El) in E.
  destruct (maskedOp p j m 0 b0) as [c0|] eqn:E0; [|discriminate].
  destruct (maskedOp p j m 1 b1) as [c1|] eqn:E1; [|discriminate].
  destruct (maskedOp p j m 2 b2) as [c2|] eqn:E2; [|discriminate].
  cbn [mbind option_bind] in E. injection E as <-. split; [|split].
  - exists c0, c1, c2. simpl. split; [reflexivity|].
    split; [exact (maskedOp_length p j m 0 b0 c0 H0 E0)|].
    split; [exact (maskedOp_length p j m 1 b1 c1 H1 E1)|].
    exact (maskedOp_length p j m 2 b2 c2 H2 E2).
  - reflexivity.
  - intros L b HL Eb. rewrite El in Eb.
    destruct (layer_cases L HL) as [-> | [-> | ->]]; simpl in Eb;
      injection Eb as <-; simpl; assumption.
Qed.


(** *** Chains of layer operations *)

Lemma applyFrom_app p L c1 : forall c2 first b,
  applyFrom p L first (c1 + c2) b
  = (b1 ← applyFrom p L first c1 b; applyFrom p L (first + Z.of_nat c1) c2 b1).
Proof.
  induction c1 as [|c1 IH]; intros c2 first b.
  - simpl. f_equal. lia.
  - cbn [Nat.add applyFrom]. destruct (layerOp p first L b) as [b1|]; [|reflexivity].
    cbn [mbind option_bind]. rewrite IH. f_equal.
    replace (first + 1 + Z.of_nat c1) with (first + Z.of_nat (S c1)) by lia.
    reflexivity.
Qed.

Lemma applyFrom_one p L first b : applyFrom p L first 1 b = layerOp p first L b.
Proof.
  cbn [applyFrom]. destruct (layerOp p first L b); reflexivity.
Qed.

Lemma applyFrom_snoc p L count first b :
  applyFrom p L first (S count) b
  = (b1 ← applyFrom p L first count b; layerOp p (first + Z.of_nat count) L b1).
Proof.
  replace (S count) with (count + 1)%nat by lia. rewrite applyFrom_app.
  destruct (applyFrom p L first count b) as [b1|]; [|reflexivity].
  cbn [mbind option_bind]. apply applyFrom_one.
Qed.

Lemma applyFrom_length p L count : forall first b b',
  length b = layerLength -> applyFrom p L first count b = Some b' ->
  length b' = layerLength.
Proof.
  induction count as [|count IH]; intros first b b' Hb E.
  - simpl in E. injection E as <-. assumption.
  - cbn [applyFrom] in E.
    destruct (layerOp p first L b) as [b1|] eqn:E1; [|discriminate].
    cbn [mbind option_bind] in E.
    eapply IH; [|exact E]. eapply layerOp_length; eassumption.
Qed.

Lemma chainStart_S p L n :
  (1 <= n)%nat ->
  chainStart p L (S n)
  = if keyLayer p (Z.of_nat (S n)) L then S n else chainStart p L n.
Proof. intros Hn. destruct n as [|n]; [lia|]. reflexivity. Qed.

Lemma chainStart_le p L n : (chainStart p L n <= n)%nat.
Proof.
  induction n as [|n IH]; [simpl; lia|].
  destruct n as [|n]; [simpl; lia|].
  rewrite chainStart_S by lia.
  destruct (keyLayer p (Z.of_nat (S (S n))) L); lia.
Qed.


(** Frame 0 starts a chain. *)
Lemma chainImage_first p L b b' :
  length b = layerLength -> layerOp p 0 L b = Some b' -> chainImage p L 0 b'.
Proof.
  intros Hb E. exists b. split; [assumption|]. unfold replay.
  simpl chainStart. change (S 0 - 0)%nat with 1%nat.
  rewrite applyFrom_one. exact E.
Qed.

(** A frame that marks the layer as not based on its predecessor starts a
    chain. *)
Lemma chainImage_start p L n b b' :
  (1 <= n)%nat -> keyLayer p (Z.of_nat (S n)) L = true ->
  length b = layerLength -> layerOp p (Z.of_nat (S n)) L b = Some b' ->
  chainImage p L (S n) b'.
Proof.
  intros Hn Hk Hb E. exists b. split; [assumption|]. unfold replay.
  rewrite chainStart_S, Hk by assumption.
  replace (S (S n) - S n)%nat with 1%nat by lia.
  rewrite applyFrom_one. exact E.
Qed.

(** Any frame extends the chain of its predecessor. *)
Lemma chainImage_step p L n b b' :
  chainImage p L n b -> layerOp p (Z.of_nat (S n)) L b = Some b' ->
  chainImage p L (S n) b'.
Proof.
  intros (b0 & Hb0 & E0) E. unfold replay in E0.
  pose proof (chainStart_le p L n) as Hle.
  destruct (decide (1 <= n)%nat) as [Hn | Hn].
  - destruct (keyLayer p (Z.of_nat (S n)) L) eqn:Ek.
    + apply (chainImage_start p L n b b' Hn Ek); [|exact E].
      eapply applyFrom_length; eassumption.
    + exists b0. split; [assumption|].
      unfold replay. rewrite (chainStart_S p L n Hn), Ek.
      replace (S (S n) - chainStart p L n)%nat with (S (S n - chainStart p L n)) by lia.
      rewrite applyFrom_snoc, E0. cbn [mbind option_bind].
      replace (Z.of_nat (chainStart p L n) + Z.of_nat (S n - chainStart p L n))
        with (Z.of_nat (S n)) by lia.
      exact E.
  - assert (n = 0%nat) as -> by lia.
    exists b0. split; [assumption|]. unfold replay.
    simpl chainStart in *. change (S 1 - 0)%nat with (S 1).
    change (1 - 0)%nat with 1%nat in E0.
    rewrite applyFrom_snoc, E0. cbn [mbind option_bind]. exact E.
Qed.


(** *** The recursion of [decodeFrame] *)

Lemma decodeFrameFrom_O p m isPrev s :
  decodeFrameFrom p 0 m isPrev s
  = if negb (0 <? frameCount p) then None else decodeLayers p 0 m s.
Proof. reflexivity. Qed.

Lemma decodeFrameFrom_S p n m isPrev s :
  decodeFrameFrom p (S n) m isPrev s
  = if negb (Z.of_nat (S n) <? frameCount p) then None
    else
      ms ←
        (if prevIsNot (prevFrameIndex s) (Z.of_nat (S n) - 1) then
           m1 ← (if isPrev
                 then flag ← getFrameDiffingFlag p (Z.of_nat (S n) + 1);
                      Some (JS.and m (JS.not flag))
                 else Some m);
           if negb (m1 =? 0)
           then s1 ← decodeFrameFrom p n m1 true s; Some (m1, s1)
           else Some (m1, s)
         else Some (m, s));
      decodeLayers p (Z.of_nat (S n)) ms.1 ms.2.
Proof.
  cbn [decodeFrameFrom].
  destruct (negb (Z.of_nat (S n) <? frameCount p)); [reflexivity|].
  destruct (prevIsNot (prevFrameIndex s) (Z.of_nat (S n) - 1)); [|reflexivity].
  destruct isPrev.
  - destruct (getFrameDiffingFlag p (Z.of_nat (S n) + 1)) as [fl|]; [|reflexivity].
    cbn [mbind option_bind].
    destruct (negb (JS.and m (JS.not fl) =? 0)); [|reflexivity].
    destruct (decodeFrameFrom p n (JS.and m (JS.not fl)) true s); reflexivity.
  - cbn [mbind option_bind].
    destruct (negb (m =? 0)); [|reflexivity].
    destruct (decodeFrameFrom p n m true s); reflexivity.
Qed.

Lemma state_ok_layer s (L : nat) :
  state_ok s -> (L < 3)%nat ->
  exists b, layers s !! L = Some b /\ length b = layerLength.
Proof.
  intros (b0 & b1 & b2 & El & H0 & H1 & H2) HL. rewrite El.
  destruct (layer_cases L HL) as [-> | [-> | ->]]; simpl; eauto.
Qed.

Lemma prevIsNot_false prev n : prevIsNot prev n = false -> prev = Some n.
Proof.
  unfold prevIsNot. destruct prev as [q|]; [|discriminate].
  destruct (Z.eqb_spec q n); [congruence | discriminate].
Qed.

(** The mask the layers of frame [S n] are decoded with, when the frame
    before it is not the one decoded last. *)
Lemma narrowing p n m isPrev m1 :
  tables_ok p -> 0 <= m <= 7 ->
  (isPrev = true -> Z.of_nat (S n) + 1 < frameCount p) ->
  (if isPrev
   then flag ← getFrameDiffingFlag p (Z.of_nat (S n) + 1);
        Some (JS.and m (JS.not flag))
   else Some m) = Some m1 ->
  0 <= m1 <= 7 /\
  forall L : nat, (L < 3)%nat ->
    layerBit m1 (Z.of_nat L)
    = layerBit m (Z.of_nat L)
      && negb (isPrev && keyLayer p (Z.of_nat (S n) + 1) (Z.of_nat L)).
Proof.
  intros Ht Hm Hnext E. destruct isPrev.
  - destruct (getFrameDiffingFlag_ok p (Z.of_nat (S n) + 1) Ht) as (fl & Ef & Hfl);
      [specialize (Hnext eq_refl); lia|].
    unfold keyLayer. rewrite Ef in *. cbn [mbind option_bind default] in *.
    injection E as <-.
    destruct (narrowed_mask m fl Hm Hfl) as (Hr & Hbits & _).
    split; [assumption|]. intros L HL. rewrite Hbits by assumption. reflexivity.
  - injection E as <-. split; [assumption|].
    intros L HL. simpl. rewrite andb_true_r. reflexivity.
Qed.

(** Every call leaves each layer its mask covers at the end of a chain,
    or untouched where the next frame starts a chain of its own; the
    layers outside the mask are untouched. *)
Lemma decodeFrameFrom_chained p :
  tables_ok p ->
  forall n m isPrev s s',
    state_ok s -> chained p s -> 0 <= m <= 7 ->
    (isPrev = true -> Z.of_nat n + 1 < frameCount p) ->
    decodeFrameFrom p n m isPrev s = Some s' ->
    state_ok s' /\ prevFrameIndex s' = Some (Z.of_nat n) /\
    forall (L : nat) b b', (L < 3)%nat ->
      layers s !! L = Some b -> layers s' !! L = Some b' ->
      if layerBit m (Z.of_nat L)
      then chainImage p (Z.of_nat L) n b' \/
           (isPrev = true /\ (1 <= n)%nat /\
            keyLayer p (Z.of_nat n + 1) (Z.of_nat L) = true /\ b' = b)
      else b' = b.
Proof.
  intros Ht. induction n as [|n IH]; intros m isPrev s s' Hok Hch Hm Hnext E.
  - rewrite decodeFrameFrom_O in E.
    destruct (Z.ltb_spec 0 (frameCount p)); [|discriminate]. simpl in E.
    destruct (decodeLayers_spec p 0 m s s' Ht ltac:(lia) Hok E) as (Hok' & Hp' & Hl).
    split; [assumption|]. split; [assumption|].
    intros L b b' HL Eb Eb'. specialize (Hl L b HL Eb). rewrite Eb' in Hl.
    unfold maskedOp in Hl. destruct (layerBit m (Z.of_nat L)).
    + left. destruct (state_ok_layer s L Hok HL) as (b1 & Eb1 & Hlen).
      rewrite Eb in Eb1. injection Eb1 as <-.
      eapply chainImage_first; eassumption.
    + congruence.
  - rewrite decodeFrameFrom_S in E.
    destruct (Z.ltb_spec (Z.of_nat (S n)) (frameCount p)) as [Hlt|]; [|discriminate].
    cbn [negb] in E.
    destruct (prevIsNot (prevFrameIndex s) (Z.of_nat (S n) - 1)) eqn:Eprev.
    + (* the frame before is not the last one decoded *)
      destruct (if isPrev
                then flag ← getFrameDiffingFlag p (Z.of_nat (S n) + 1);
                     Some (JS.and m (JS.not flag))
                else Some m) as [m1|] eqn:Em1; [|discriminate].
      cbn [mbind option_bind] in E.
      destruct (narrowing p n m isPrev m1 Ht Hm Hnext Em1) as [Hm1 Hbits].
      assert (Hinner : exists s1,
                 state_ok s1 /\
                 decodeLayers p (Z.of_nat (S n)) m1 s1 = Some s' /\
                 forall (L : nat) b b1, (L < 3)%nat ->
                   layers s !! L = Some b -> layers s1 !! L = Some b1 ->
                   if layerBit m1 (Z.of_nat L)
                   then chainImage p (Z.of_nat L) n b1 \/
                        ((1 <= n)%nat /\
                         keyLayer p (Z.of_nat n + 1) (Z.of_nat L) = true /\ b1 = b)
                   else b1 = b).
      { destruct (Z.eqb_spec m1 0) as [-> | Hnz]; cbn [negb] in E.
        - exists s. cbn [mbind option_bind fst snd] in E.
          split; [assumption|]. split; [exact E|].
          intros L b b1 HL Eb Eb1. rewrite layerBit_zero by assumption. congruence.
        - destruct (decodeFrameFrom p n m1 true s) as [s1|] eqn:E1; [|discriminate].
          cbn [mbind option_bind fst snd] in E.
          destruct (IH m1 true s s1 Hok Hch Hm1 ltac:(intros _; lia) E1)
            as (Hok1 & Hp1 & Hl1).
          exists s1. split; [assumption|]. split; [exact E|].
          intros L b b1 HL Eb Eb1. specialize (Hl1 L b b1 HL Eb Eb1).
          destruct (layerBit m1 (Z.of_nat L)); [|assumption].
          destruct Hl1 as [Hc | (_ & Hn & Hk & Hb)]; [left; assumption|].
          right. auto. }
      destruct Hinner as (s1 & Hok1 & Edec & Hl1).
      destruct (decodeLayers_spec p (Z.of_nat (S n)) m1 s1 s' Ht ltac:(lia) Hok1 Edec)
        as (Hok' & Hp' & Hl).
      split; [assumption|]. split; [assumption|].
      intros L b b' HL Eb Eb'.
      destruct (state_ok_layer s1 L Hok1 HL) as (b1 & Eb1 & Hlen1).
      specialize (Hl L b1 HL Eb1). rewrite Eb' in Hl.
      specialize (Hl1 L b b1 HL Eb Eb1).
      specialize (Hbits L HL). unfold maskedOp in Hl.
      destruct (layerBit m (Z.of_nat L)); cbn [andb] in Hbits.
      * destruct (layerBit m1 (Z.of_nat L)).
        -- left. destruct Hl1 as [Hc | (Hn & Hk & ->)].
           ++ eapply chainImage_step; eassumption.
           ++ destruct (state_ok_layer s L Hok HL) as (b2 & Eb2 & Hlen).
              rewrite Eb in Eb2. injection Eb2 as <-.
              apply (chainImage_start p (Z.of_nat L) n b b' Hn); try assumption.
              replace (Z.of_nat (S n)) with (Z.of_nat n + 1) by lia. assumption.
        -- right. symmetry in Hbits. apply negb_false_iff in Hbits.
           apply andb_true_iff in Hbits as [-> Hk].
           repeat split; [lia | assumption | congruence].
      * rewrite Hbits in *. congruence.
    + (* the frame before is the last one decoded *)
      cbn [mbind option_bind fst snd] in E.
      apply prevIsNot_false in Eprev.
      replace (Z.of_nat (S n) - 1) with (Z.of_nat n) in Eprev by lia.
      destruct (decodeLayers_spec p (Z.of_nat (S n)) m s s' Ht ltac:(lia) Hok E)
        as (Hok' & Hp' & Hl).
      split; [assumption|]. split; [assumption|].
      intros L b b' HL Eb Eb'. specialize (Hl L b HL Eb). rewrite Eb' in Hl.
      unfold maskedOp in Hl. destruct (layerBit m (Z.of_nat L)); [|congruence].
      left. eapply chainImage_step; [|exact Hl].
      exact (Hch n Eprev L b HL Eb).
Qed.

End KwzFrameFacts.

(** *** A call that goes down the whole chain *)

Section KwzChainFacts.
Import Kwz KwzView.








(** *** Calls from outside *)

Lemma decodeFrame_nat p n s :
  decodeFrame p (Z.of_nat n) s = decodeFrameFrom p n 7 false s.
Proof.
  unfold decodeFrame. destruct (Z.gtb_spec (Z.of_nat n) (-1)); [|lia].
  rewrite Nat2Z.id. reflexivity.
Qed.

Lemma decodeFrame_Some p i s s' :
  decodeFrame p i s = Some s' ->
  0 <= i /\ i = Z.of_nat (Z.to_nat i) /\
  decodeFrameFrom p (Z.to_nat i) 7 false s = Some s'.
Proof.
  unfold decodeFrame. destruct (Z.gtb_spec i (-1)); [|discriminate].
  intros E. repeat split; [lia | lia | exact E].
Qed.


(** With frame [i - 1] decoded last, or for frame 0, a call decodes the
    layers of frame [i] only. *)
Lemma decodeFrame_fast p i s :
  0 <= i < frameCount p ->
  i = 0 \/ prevFrameIndex s = Some (i - 1) ->
  decodeFrame p i s = decodeLayers p i 7 s.
Proof.
  intros Hi Hprev. rewrite <- (Z2Nat.id i) at 1 by lia. rewrite decodeFrame_nat.
  destruct (Z.to_nat i) as [|n] eqn:En.
  - rewrite decodeFrameFrom_O. destruct (Z.ltb_spec 0 (frameCount p)); [|lia].
    replace i with 0 by lia. reflexivity.
  - rewrite decodeFrameFrom_S. replace (Z.of_nat (S n)) with i by lia.
    destruct (Z.ltb_spec i (frameCount p)); [|lia]. cbn [negb].
    destruct Hprev as [-> | ->]; [discriminate|].
    unfold prevIsNot. rewrite Z.eqb_refl. reflexivity.
Qed.

Lemma state_ok_fresh : state_ok fresh.
Proof.
  exists (replicate layerLength 0), (replicate layerLength 0), (replicate layerLength 0).
  split; [reflexivity|]. rewrite length_replicate. auto.
Qed.



(** Every state a parser goes through has three layer buffers, each at
    the end of the chain of the frame decoded last. *)
Lemma reachable_chained p s :
  tables_ok p -> reachable p s -> state_ok s /\ chained p s.
Proof.
  intros Ht Hr. induction Hr as [|s i s' Hr [Hok Hch] E].
  - split; [apply state_ok_fresh|]. intros n Hn. discriminate.
  - apply decodeFrame_Some in E as (Hi & Ei & E).
    destruct (decodeFrameFrom_chained p Ht (Z.to_nat i) 7 false s s' Hok Hch
                ltac:(lia) ltac:(discriminate) E) as (Hok' & Hp' & Hl).
    split; [assumption|].
    intros n Hn L b' HL Eb'. rewrite Hp' in Hn.
    assert (n = Z.to_nat i) as -> by (injection Hn; lia).
    destruct (state_ok_layer s L Hok HL) as (b & Eb & _).
    specialize (Hl L b b' HL Eb Eb'). rewrite layerBit_seven in Hl by assumption.
    destruct Hl as [Hc | (Hf & _)]; [assumption | discriminate].
Qed.





(** *** Frames decoded in sequence *)







End KwzChainFacts.

(** ** Format A: [decodeFrame] *)

Section PpmFacts.
Import Ppm PpmView.


Local Opaque layerLength.

(** *** The bounded loops run to their end *)

(** A byte is zero after eight shifts to the right: more rounds change
    nothing. *)
Lemma chunkLoop_enough fuel : forall k pixel chunk ptr b,
  (fuel <= 31)%nat -> 0 <= chunk < 2 ^ Z.of_nat fuel ->
  chunkLoop (fuel + k) pixel chunk ptr b = chunkLoop fuel pixel chunk ptr b.
Proof.
  induction fuel as [|fuel IH]; intros k pixel chunk ptr b Hf Hc.
  - assert (chunk = 0) as -> by (change (2 ^ Z.of_nat 0) with 1 in Hc; lia).
    destruct k; reflexivity.
  - cbn [Nat.add chunkLoop]. destruct (chunk =? 0); [reflexivity|].
    apply IH; [lia|]. unfold JS.sar.
    assert (2 ^ Z.of_nat (S fuel) <= 2 ^ 31) by (apply Z.pow_le_mono_r; lia).
    rewrite toInt32_small by lia.
    change (1 mod 32) with 1. rewrite Z.shiftr_div_pow2 by lia.
    change (2 ^ 1) with 2.
    rewrite Nat2Z.inj_succ, Z.pow_succ_r in Hc by lia.
    split; [apply Z.div_pos; lia | apply Z.div_lt_upper_bound; lia].
Qed.

Lemma toInt32_divide d x : (d | 2 ^ 32) -> (d | x) -> (d | JS.toInt32 x).
Proof.
  intros Hd Hx. unfold JS.toInt32.
  rewrite Z.mod_eq by lia.
  replace (x + 2 ^ 31 - 2 ^ 32 * ((x + 2 ^ 31) / 2 ^ 32) - 2 ^ 31)
    with (x - 2 ^ 32 * ((x + 2 ^ 31) / 2 ^ 32)) by lia.
  apply Z.divide_sub_r; [assumption|]. apply Z.divide_mul_l. assumption.
Qed.

(** A 32-bit line header is zero after 32 shifts to the left: more
    rounds change nothing. *)
Lemma lineHeaderLoop_enough unpack fuel : forall k lineHeader ptr b ds,
  (fuel <= 32)%nat ->
  (2 ^ (32 - Z.of_nat fuel) | lineHeader) -> - 2 ^ 31 <= lineHeader < 2 ^ 32 ->
  lineHeaderLoop (fuel + k) unpack lineHeader ptr b ds
  = lineHeaderLoop fuel unpack lineHeader ptr b ds.
Proof.
  induction fuel as [|fuel IH]; intros k h ptr b ds Hf Hd Hr.
  - assert (h = 0) as ->.
    { change (32 - Z.of_nat 0) with 32 in Hd. destruct Hd as [q Hq]. lia. }
    destruct k; reflexivity.
  - cbn [Nat.add lineHeaderLoop]. destruct (h =? 0); [reflexivity|].
    match goal with
    | |- mbind _ ?m = _ => destruct m as [[b1 ds1]|]; [|reflexivity]
    end.
    cbn [mbind option_bind]. apply IH; [lia | |].
    + unfold JS.shl. change (1 mod 32) with 1.
      rewrite Z.shiftl_mul_pow2 by lia. change (2 ^ 1) with 2.
      assert (Hpow : 2 ^ (32 - Z.of_nat fuel) = 2 ^ (32 - Z.of_nat (S fuel)) * 2).
      { replace (32 - Z.of_nat fuel) with (Z.succ (32 - Z.of_nat (S fuel))) by lia.
        rewrite Z.pow_succ_r by lia. lia. }
      assert (Hfull : forall e, 0 <= e <= 32 -> (2 ^ e | 2 ^ 32)).
      { intros e He. exists (2 ^ (32 - e)). rewrite <- Z.pow_add_r by lia.
        f_equal. lia. }
      apply toInt32_divide; [apply Hfull; lia|].
      rewrite Hpow. apply Z.mul_divide_mono_r.
      apply toInt32_divide; [apply Hfull; lia | assumption].
    + pose proof (toInt32_range (Z.shiftl (JS.toInt32 h) (1 mod 32))).
      unfold JS.shl. lia.
Qed.

(** *** The loops keep the length of the buffer *)














(** *** One frame *)










(** *** The recursion of [decodeFrame] *)



















(** *** Frames decoded in sequence *)



(** *** The merge with the previous frame, at the first pixel *)










End PpmFacts.

(** ** The test files *)

Section FileFacts.

(** A run that is seen to return something. *)
Lemma returns_is_Some {A} (x : option A) :
  returns x = true -> is_Some x.
Proof. destruct x; [eauto | discriminate]. Qed.

(** The tables of the format B files are the ones [getFrameOffsets]
    builds. *)
Lemma kwz_three_offsets :
  Kwz.getFrameOffsets kwz_three_frames 3 0 84 92 false = Some kwz_three_parser.
Proof. vm_compute. reflexivity. Qed.

Lemma kwz_two_offsets :
  Kwz.getFrameOffsets kwz_two_frames 2 0 56 64 false = Some kwz_two_parser.
Proof. vm_compute. reflexivity. Qed.

Lemma kwz_three_tables_ok : KwzView.tables_ok kwz_three_parser.
Proof.
  intros j Hj. change (Kwz.frameCount kwz_three_parser) with 3 in Hj.
  assert (j = 0 \/ j = 1 \/ j = 2) as [-> | [-> | ->]] by lia;
    do 5 eexists;
    (split; [reflexivity|]); (split; [lia|]);
    (split; [apply Z.leb_le; vm_compute; reflexivity|]);
    split; reflexivity.
Qed.





(** The call for its second frame decodes the first frame as well. *)
Lemma kwz_three_second_pixel :
  Kwz.decodeFrame kwz_three_parser 1 Kwz.fresh ≫= KwzView.pixel 0 0 = Some 1.
Proof. vm_compute. reflexivity. Qed.

Lemma kwz_fresh_pixel : KwzView.pixel 0 0 Kwz.fresh = Some 0.
Proof. vm_compute. reflexivity. Qed.


End FileFacts.

(** ** [decodeFrame]: the two traversals, the repeated call, the unchanged frame *)

Section DecodeFrameClaims.







(** Counterexample to C3.  The second of the three format B frames
    above stores all three layers with the size 38; on a fresh
    parser the call for it first decodes frame 0, which draws into
    layer A. *)
Lemma unchanged_frame_redraws_ancestors :
  Kwz.frameLayerSizes kwz_three_parser !! 1%nat = Some [38; 38; 38] /\
  exists s',
    Kwz.decodeFrame kwz_three_parser 1 Kwz.fresh = Some s' /\
    Kwz.layers s' <> Kwz.layers Kwz.fresh.
Proof.
  split; [reflexivity|].
  pose proof kwz_three_second_pixel as H1.
  pose proof kwz_fresh_pixel as H0.
  destruct (Kwz.decodeFrame kwz_three_parser 1 Kwz.fresh) as [s'|];
    [|discriminate].
  exists s'. split; [reflexivity|].
  cbn [mbind option_bind] in H1. unfold KwzView.pixel in H0, H1.
  intros Heq. rewrite Heq in H1. congruence.
Qed.

(** C3 (amended).  Format B: for a frame [i] whose three layers are all
    stored with the size 38, [decodeFrame(i)] leaves all three layer
    buffers as they were, whatever they held, when the call does not go
    back to earlier frames: for frame 0, or when frame [i - 1] is the
    frame decoded last. *)
Theorem unchanged_frame_keeps_layers
  (p : Kwz.parser) (i : Z) (s : Kwz.state) (b0 b1 b2 : list Z) :
  KwzView.tables_ok p -> 0 <= i < Kwz.frameCount p ->
  Kwz.frameLayerSizes p !! Z.to_nat i = Some [38; 38; 38] ->
  Kwz.layers s = [b0; b1; b2] ->
  i = 0 \/ Kwz.prevFrameIndex s = Some (i - 1) ->
  Kwz.decodeFrame p i s = Some (Kwz.mkState (Kwz.layers s) (Some i)).
Proof.
  intros Ht Hi Hs El Hprev.
  rewrite (decodeFrame_fast p i s Hi Hprev).
  rewrite (decodeLayers_unfold p i 7 s b0 b1 b2 Ht Hi El).
  destruct (Ht i Hi) as (mo & dp & a & b & c & _ & _ & _ & Ed & _).
  assert (Hop : forall (L : nat) buf, (L < 3)%nat ->
                  KwzView.maskedOp p i 7 L buf = Some buf).
  { intros L buf HL. unfold KwzView.maskedOp.
    rewrite layerBit_seven by assumption.
    unfold KwzView.layerOp, KwzView.layerPtr. rewrite Hs, Ed.
    destruct (layer_cases L HL) as [-> | [-> | ->]]; reflexivity. }
  rewrite !Hop by lia. cbn [mbind option_bind]. rewrite El. reflexivity.
Qed.

Lemma unchanged_frame_keeps_layers_witness :
  Kwz.decodeFrame kwz_three_parser 1 (Kwz.mkState [[1]; [2]; [3]] (Some 0))
  = Some (Kwz.mkState [[1]; [2]; [3]] (Some 1)).
Proof.
  apply (unchanged_frame_keeps_layers kwz_three_parser 1
           (Kwz.mkState [[1]; [2]; [3]] (Some 0)) [1] [2] [3]).
  - exact kwz_three_tables_ok.
  - change (Kwz.frameCount kwz_three_parser) with 3. lia.
  - reflexivity.
  - reflexivity.
  - right. reflexivity.
Defined.

End DecodeFrameClaims.

(** * Part III: more of the code *)

(** ** Format B: the frame tables of the constructor *)

Section KwzOffsetsFacts.
Import Kwz KwzView.

(** What the loop of [getFrameOffsets] appends to the three tables. *)
Lemma frameOffsetsLoop_spec buf frames : forall mp dp metas datas sizes M D S,
  0 <= mp ->
  frameOffsetsLoop buf frames mp dp metas datas sizes = Some (M, D, S) ->
  exists M' D' S',
    M = metas ++ M' /\ D = datas ++ D' /\ S = sizes ++ S' /\
    length M' = frames /\ length D' = frames /\ length S' = frames /\
    Forall (fun m => 0 <= m /\ m + 28 < Z.of_nat (length buf)) M' /\
    Forall (fun s => exists a b c, s = [a; b; c]) S'.
Proof.
  induction frames as [|frames IH]; intros mp dp metas datas sizes M D S Hmp E.
  - cbn [frameOffsetsLoop] in E. injection E as <- <- <-.
    exists [], [], []. rewrite !app_nil_r. repeat split; constructor.
  - cbn [frameOffsetsLoop] in E.
    destruct (DataStream.readUint16 true (DataStream.mk buf (mp + 4)))
      as [[a ds1]|]; [|discriminate].
    cbn [mbind option_bind] in E.
    destruct (DataStream.readUint16 true ds1) as [[b ds2]|]; [|discriminate].
    cbn [mbind option_bind] in E.
    destruct (DataStream.readUint16 true ds2) as [[c ds3]|]; [|discriminate].
    cbn [mbind option_bind] in E.
    destruct (Z.ltb_spec (mp + 28) (Z.of_nat (length buf))) as [Hm|]; [|discriminate].
    destruct (Z.ltb_spec (dp + (a + b + c)) (Z.of_nat (length buf))); [|discriminate].
    cbn [negb] in E.
    destruct (IH (mp + 28) _ _ _ _ M D S ltac:(lia) E)
      as (M' & D' & S' & -> & -> & -> & HM & HD & HS & HMr & HSr).
    exists (mp mod 2 ^ 32 :: M'), (dp mod 2 ^ 32 :: D'), ([a; b; c] :: S').
    rewrite <- !app_assoc. cbn [app length].
    repeat split; try congruence.
    + constructor; [|assumption].
      pose proof (Z.mod_pos_bound mp (2 ^ 32) ltac:(lia)).
      pose proof (Z.mod_le mp (2 ^ 32) Hmp ltac:(lia)). lia.
    + constructor; [eauto | assumption].
Qed.

(** The tables [getFrameOffsets] returns. *)
Lemma getFrameOffsets_parts buf numFrames kmiPtr kmiLength kmcPtr dsi p :
  0 <= kmiPtr ->
  getFrameOffsets buf numFrames kmiPtr kmiLength kmcPtr dsi = Some p ->
  28 * numFrames <= kmiLength /\
  exists M D S,
    p = mkParser buf numFrames M D S dsi /\
    length M = Z.to_nat numFrames /\ length D = Z.to_nat numFrames /\
    length S = Z.to_nat numFrames /\
    Forall (fun m => 0 <= m /\ m + 28 < Z.of_nat (length buf)) M /\
    Forall (fun s => exists a b c, s = [a; b; c]) S.
Proof.
  intros Hk E. unfold getFrameOffsets in E.
  destruct (Z.leb_spec (28 * numFrames) kmiLength) as [Hlen|]; [|discriminate].
  cbn [negb] in E.
  destruct (frameOffsetsLoop buf (Z.to_nat numFrames) (kmiPtr + 8) (kmcPtr + 12) [] [] [])
    as [[[M D] S]|] eqn:El; [|discriminate].
  cbn [mbind option_bind] in E. injection E as <-.
  destruct (frameOffsetsLoop_spec _ _ (kmiPtr + 8) _ _ _ _ _ _ _ ltac:(lia) El)
    as (M' & D' & S' & -> & -> & -> & HM & HD & HS & HMr & HSr).
  split; [exact Hlen|]. exists M', D', S'. cbn [app]. auto 10.
Qed.

Lemma parts_tables_ok buf numFrames M D S dsi :
  length M = Z.to_nat numFrames -> length D = Z.to_nat numFrames ->
  length S = Z.to_nat numFrames ->
  Forall (fun m => 0 <= m /\ m + 28 < Z.of_nat (length buf)) M ->
  Forall (fun s => exists a b c, s = [a; b; c]) S ->
  tables_ok (mkParser buf numFrames M D S dsi).
Proof.
  intros HM HD HS HMr HSr j Hj. cbn [frameCount] in Hj.
  cbn [buffer frameMetaOffsets frameDataOffsets frameLayerSizes]. unfold at_.
  destruct (Z.ltb_spec j 0); [lia|].
  destruct (lookup_lt_is_Some_2 M (Z.to_nat j)) as [m Em]; [lia|].
  destruct (lookup_lt_is_Some_2 D (Z.to_nat j)) as [d Ed]; [lia|].
  destruct (lookup_lt_is_Some_2 S (Z.to_nat j)) as [s Es]; [lia|].
  pose proof (Forall_lookup_1 _ _ _ _ HMr Em) as [Hm0 Hm1].
  pose proof (Forall_lookup_1 _ _ _ _ HSr Es) as (a & b & c & ->).
  exists m, d, a, b, c. repeat split; try assumption. lia.
Qed.

(** X1.  When [getFrameOffsets] succeeds, on sections that start inside
    the file, the tables it builds have an entry for every frame, every
    28-byte record of frame meta data lies inside the file, and every
    frame has its three layer sizes: the tables are the ones the
    statements about [decodeFrame] ask for. *)
Theorem getFrameOffsets_tables_ok
  (buf : list Z) (numFrames kmiPtr kmiLength kmcPtr : Z) (dsiLibraryNote : bool)
  (p : parser) :
  0 <= kmiPtr ->
  getFrameOffsets buf numFrames kmiPtr kmiLength kmcPtr dsiLibraryNote = Some p ->
  tables_ok p /\
  buffer p = buf /\ frameCount p = numFrames /\ 28 * numFrames <= kmiLength /\
  length (frameMetaOffsets p) = Z.to_nat numFrames /\
  length (frameDataOffsets p) = Z.to_nat numFrames /\
  length (frameLayerSizes p) = Z.to_nat numFrames /\
  Forall (fun m => 0 <= m /\ m + 28 < Z.of_nat (length buf)) (frameMetaOffsets p).
Proof.
  intros Hk E.
  destruct (getFrameOffsets_parts _ _ _ _ _ _ _ Hk E)
    as (Hlen & M & D & S & -> & HM & HD & HS & HMr & HSr).
  split; [apply parts_tables_ok; assumption|].
  cbn [buffer frameCount frameMetaOffsets frameDataOffsets frameLayerSizes].
  repeat split; assumption.
Qed.

Lemma getFrameOffsets_tables_ok_witness :
  tables_ok kwz_three_parser /\
  buffer kwz_three_parser = kwz_three_frames /\ frameCount kwz_three_parser = 3 /\
  28 * 3 <= 84 /\
  length (frameMetaOffsets kwz_three_parser) = Z.to_nat 3 /\
  length (frameDataOffsets kwz_three_parser) = Z.to_nat 3 /\
  length (frameLayerSizes kwz_three_parser) = Z.to_nat 3 /\
  Forall (fun m => 0 <= m /\ m + 28 < Z.of_nat (length kwz_three_frames))
    (frameMetaOffsets kwz_three_parser).
Proof.
  apply (getFrameOffsets_tables_ok kwz_three_frames 3 0 84 92 false kwz_three_parser).
  - lia.
  - vm_compute. reflexivity.
Defined.

End KwzOffsetsFacts.

(** ** Format B: what the layers hold *)

Section KwzPixelFacts.
Import Kwz KwzView.

Lemma Forall_of_forallb {A} (f : A -> bool) (P : A -> Prop) (l : list A) :
  (forall x, f x = true -> P x) -> forallb f l = true -> Forall P l.
Proof.
  intros Hf Hb. apply Forall_forall. intros x Hx.
  apply Hf. rewrite forallb_forall in Hb. apply Hb.
  apply list_elem_of_In. exact Hx.
Qed.

Lemma ternary_of_bool v : (0 <=? v) && (v <=? 2) = true -> ternary v.
Proof. unfold ternary. lia. Qed.

Lemma KWZ_LINE_TABLE_ternary : Forall ternary KWZ_LINE_TABLE.
Proof.
  apply (Forall_of_forallb _ _ _ ternary_of_bool). vm_compute. reflexivity.
Qed.

Lemma KWZ_LINE_TABLE_SHIFT_ternary : Forall ternary KWZ_LINE_TABLE_SHIFT.
Proof.
  apply (Forall_of_forallb _ _ _ ternary_of_bool). vm_compute. reflexivity.
Qed.

Lemma KWZ_LINE_TABLE_COMMON_ternary : Forall ternary KWZ_LINE_TABLE_COMMON.
Proof.
  apply (Forall_of_forallb _ _ _ ternary_of_bool). vm_compute. reflexivity.
Qed.

Lemma KWZ_LINE_TABLE_COMMON_SHIFT_ternary : Forall ternary KWZ_LINE_TABLE_COMMON_SHIFT.
Proof.
  apply (Forall_of_forallb _ _ _ ternary_of_bool). vm_compute. reflexivity.
Qed.

Lemma subarray_Forall (P : Z -> Prop) t start stop :
  Forall P t -> Forall P (subarray t start stop).
Proof. intros H. unfold subarray. apply Forall_take, Forall_drop, H. Qed.

Lemma typed_set_Forall (P : Z -> Prop) target source offset b :
  Forall P target -> Forall P source ->
  typed_set target source offset = Some b -> Forall P b.
Proof.
  unfold typed_set. intros Ht Hs E.
  destruct ((0 <=? offset)
            && (offset + Z.of_nat (length source) <=? Z.of_nat (length target)));
    [|discriminate].
  injection E as <-.
  apply Forall_app. split; [apply Forall_take, Ht|].
  apply Forall_app. split; [exact Hs | apply Forall_drop, Ht].
Qed.

Lemma setRows_ternary rows ptr :
  Forall (Forall ternary) rows ->
  Forall (fun c : setcall => Forall ternary (fst c)) (setRows rows ptr).
Proof.
  intros H. apply Forall_lookup. intros i c Hc.
  unfold setRows in Hc. rewrite list_lookup_imap in Hc.
  destruct (rows !! i) as [row|] eqn:Er; [|discriminate].
  simpl in Hc. injection Hc as <-. simpl.
  exact (Forall_lookup_1 _ _ _ _ H Er).
Qed.

Ltac line_ternary :=
  unfold commonLine, commonLineShift, fullLine, fullLineShift;
  apply subarray_Forall;
  match goal with
  | |- Forall ternary KWZ_LINE_TABLE_COMMON => exact KWZ_LINE_TABLE_COMMON_ternary
  | |- Forall ternary KWZ_LINE_TABLE_COMMON_SHIFT =>
      exact KWZ_LINE_TABLE_COMMON_SHIFT_ternary
  | |- Forall ternary KWZ_LINE_TABLE => exact KWZ_LINE_TABLE_ternary
  | |- Forall ternary KWZ_LINE_TABLE_SHIFT => exact KWZ_LINE_TABLE_SHIFT_ternary
  end.

Lemma readFlaggedLines_ternary masks flags : forall r rows r',
  readFlaggedLines masks flags r = Some (rows, r') -> Forall (Forall ternary) rows.
Proof.
  induction masks as [|mask masks IH]; intros r rows r' E.
  - simpl in E. injection E as <- <-. constructor.
  - cbn [readFlaggedLines] in E.
    destruct (truthy (JS.and flags mask)).
    + destruct (KwzReader.readBits 5 r) as [[v r1]|]; [|discriminate].
      cbn [mbind option_bind] in E.
      destruct (readFlaggedLines masks flags r1) as [[rows1 r2]|] eqn:E1;
        [|discriminate].
      cbn [mbind option_bind] in E. injection E as <- <-.
      constructor; [line_ternary | eapply IH; exact E1].
    + destruct (KwzReader.readBits 13 r) as [[v r1]|]; [|discriminate].
      cbn [mbind option_bind] in E.
      destruct (readFlaggedLines masks flags r1) as [[rows1 r2]|] eqn:E1;
        [|discriminate].
      cbn [mbind option_bind] in E. injection E as <- <-.
      constructor; [line_ternary | eapply IH; exact E1].
Qed.

Lemma patternRows_ternary pattern a b :
  Forall ternary a -> Forall ternary b ->
  Forall (Forall ternary) (patternRows pattern a b).
Proof.
  intros Ha Hb. unfold patternRows.
  repeat match goal with |- context [if ?c then _ else _] => destruct c end;
    repeat (constructor; [assumption|]); constructor.
Qed.

Ltac rows_ternary :=
  apply setRows_ternary;
  repeat (constructor; [line_ternary|]);
  constructor.

(** Every [set] call of a tile copies lines of the line tables. *)
Lemma decodeTile_ternary ptr r sets r' :
  decodeTile ptr r = Some (Draw sets, r') ->
  Forall (fun c : setcall => Forall ternary (fst c)) sets.
Proof.
  unfold decodeTile. intros E.
  destruct (KwzReader.readBits 3 r) as [[tileType r1]|]; [|discriminate].
  cbn [mbind option_bind] in E.
  destruct (tileType =? 0).
  { destruct (KwzReader.readBits 5 r1) as [[v r2]|]; [|discriminate].
    cbn [mbind option_bind] in E. injection E as <- <-. rows_ternary. }
  destruct (tileType =? 1).
  { destruct (KwzReader.readBits 13 r1) as [[v r2]|]; [|discriminate].
    cbn [mbind option_bind] in E. injection E as <- <-. rows_ternary. }
  destruct (tileType =? 2).
  { destruct (KwzReader.readBits 5 r1) as [[v r2]|]; [|discriminate].
    cbn [mbind option_bind] in E. injection E as <- <-. rows_ternary. }
  destruct (tileType =? 3).
  { destruct (KwzReader.readBits 13 r1) as [[v r2]|]; [|discriminate].
    cbn [mbind option_bind] in E. injection E as <- <-. rows_ternary. }
  destruct (tileType =? 4).
  { destruct (KwzReader.readBits 8 r1) as [[flags r2]|]; [|discriminate].
    cbn [mbind option_bind] in E.
    destruct (readFlaggedLines [1; 2; 4; 8; 16; 32; 64; 128] flags r2)
      as [[rows r3]|] eqn:E1; [|discriminate].
    cbn [mbind option_bind] in E. injection E as <- <-.
    apply setRows_ternary. eapply readFlaggedLines_ternary. exact E1. }
  destruct (tileType =? 5).
  { destruct (KwzReader.readBits 5 r1) as [[v r2]|]; discriminate. }
  destruct (tileType =? 7).
  { destruct (KwzReader.readBits 2 r1) as [[pattern r2]|]; [|discriminate].
    cbn [mbind option_bind] in E.
    destruct (KwzReader.readBits 1 r2) as [[useCommonLines r3]|]; [|discriminate].
    cbn [mbind option_bind] in E.
    destruct (truthy useCommonLines).
    - destruct (KwzReader.readBits 5 r3) as [[va r4]|]; [|discriminate].
      cbn [mbind option_bind] in E.
      destruct (KwzReader.readBits 5 r4) as [[vb r5]|]; [|discriminate].
      cbn [mbind option_bind] in E. injection E as <- <-.
      apply setRows_ternary, patternRows_ternary; line_ternary.
    - destruct (KwzReader.readBits 13 r3) as [[va r4]|]; [|discriminate].
      cbn [mbind option_bind] in E.
      destruct (KwzReader.readBits 13 r4) as [[vb r5]|]; [|discriminate].
      cbn [mbind option_bind] in E. injection E as <- <-.
      apply setRows_ternary, patternRows_ternary; line_ternary. }
  injection E as <- <-. constructor.
Qed.

Lemma applySets_ternary sets : forall b b',
  Forall (fun c : setcall => Forall ternary (fst c)) sets ->
  Forall ternary b -> applySets sets b = Some b' -> Forall ternary b'.
Proof.
  induction sets as [|[pixels offset] sets IH]; intros b b' Hs Hb E.
  - injection E as <-. assumption.
  - cbn [applySets] in E.
    destruct (typed_set b pixels offset) as [b1|] eqn:E1; [|discriminate].
    cbn [mbind option_bind] in E.
    apply Forall_cons_1 in Hs as [Hp Hs].
    eapply IH; [exact Hs | | exact E].
    eapply typed_set_Forall; [exact Hb | exact Hp | exact E1].
Qed.

Lemma tileLoop_ternary tiles : forall skipTileCounter r b b',
  Forall ternary b -> tileLoop tiles skipTileCounter r b = Some b' ->
  Forall ternary b'.
Proof.
  induction tiles as [|[y x] tiles IH]; intros skipTileCounter r b b' Hb E.
  - injection E as <-. assumption.
  - cbn [tileLoop] in E. destruct (skipTileCounter >? 0); [eapply IH; eassumption|].
    destruct (decodeTile (y * 320 + x) r) as [[[sets | count] r1]|] eqn:Et;
      [| |discriminate]; cbn [mbind option_bind] in E.
    + destruct (applySets sets b) as [b1|] eqn:E1; [|discriminate].
      cbn [mbind option_bind] in E.
      eapply IH; [|exact E].
      eapply applySets_ternary; [|exact Hb|exact E1].
      eapply decodeTile_ternary. exact Et.
    + eapply IH; eassumption.
Qed.

Lemma layerOp_ternary p j L b b' :
  Forall ternary b -> layerOp p j L b = Some b' -> Forall ternary b'.
Proof.
  unfold layerOp. intros Hb E.
  destruct (frameLayerSizes p !! Z.to_nat j) as [sizes|]; [|discriminate].
  cbn [mbind option_bind] in E.
  destruct (at_ sizes L) as [size|]; [|discriminate].
  cbn [mbind option_bind] in E.
  destruct (layerPtr p j L) as [ptr|]; [|discriminate].
  cbn [mbind option_bind] in E.
  destruct (size =? 38); [injection E as <-; assumption|].
  eapply tileLoop_ternary; [exact Hb | exact E].
Qed.

Lemma decodeLayers_ternary p j m s s' :
  tables_ok p -> 0 <= j < frameCount p -> kwz_pixels_ok s ->
  decodeLayers p j m s = Some s' -> kwz_pixels_ok s'.
Proof.
  intros Ht Hj [Hok Hpx] E.
  destruct (decodeLayers_spec p j m s s' Ht Hj Hok E) as (Hok' & _ & Hl).
  split; [assumption|].
  destruct Hok as (b0 & b1 & b2 & El & _), Hok' as (c0 & c1 & c2 & El' & _).
  rewrite El in Hpx. rewrite El' in *.
  assert (Hstep : forall (L : nat) b c, (L < 3)%nat ->
            [b0; b1; b2] !! L = Some b -> [c0; c1; c2] !! L = Some c ->
            Forall ternary c).
  { intros L b c HL Eb Ec. rewrite El in Hl. specialize (Hl L b HL Eb).
    rewrite Ec in Hl. unfold maskedOp in Hl.
    pose proof (Forall_lookup_1 _ _ _ _ Hpx Eb) as Hb.
    destruct (layerBit m (Z.of_nat L)).
    - eapply layerOp_ternary; eassumption.
    - congruence. }
  constructor; [apply (Hstep 0%nat b0 c0); [lia | reflexivity | reflexivity]|].
  constructor; [apply (Hstep 1%nat b1 c1); [lia | reflexivity | reflexivity]|].
  constructor; [apply (Hstep 2%nat b2 c2); [lia | reflexivity | reflexivity]|].
  constructor.
Qed.

Lemma decodeFrameFrom_ternary p :
  tables_ok p ->
  forall n m isPrev s s',
    kwz_pixels_ok s -> decodeFrameFrom p n m isPrev s = Some s' ->
    kwz_pixels_ok s'.
Proof.
  intros Ht. induction n as [|n IH]; intros m isPrev s s' Hs E.
  - rewrite decodeFrameFrom_O in E.
    destruct (Z.ltb_spec 0 (frameCount p)); [|discriminate]. cbn [negb] in E.
    apply (decodeLayers_ternary p 0 m s s' Ht ltac:(lia) Hs E).
  - rewrite decodeFrameFrom_S in E.
    destruct (Z.ltb_spec (Z.of_nat (S n)) (frameCount p)); [|discriminate].
    cbn [negb] in E.
    match type of E with
    | (mbind _ ?x) = _ => destruct x as [[m1 s1]|] eqn:Ems; [|discriminate]
    end.
    cbn [mbind option_bind fst snd] in E.
    assert (Hs1 : kwz_pixels_ok s1).
    { destruct (prevIsNot (prevFrameIndex s) (Z.of_nat (S n) - 1));
        [|injection Ems as _ <-; assumption].
      match type of Ems with
      | (mbind _ ?x) = _ => destruct x as [m2|]; [|discriminate]
      end.
      cbn [mbind option_bind] in Ems.
      destruct (negb (m2 =? 0)); [|injection Ems as _ <-; assumption].
      destruct (decodeFrameFrom p n m2 true s) as [s2|] eqn:E2; [|discriminate].
      cbn [mbind option_bind] in Ems. injection Ems as _ <-.
      eapply IH; [exact Hs | exact E2]. }
    apply (decodeLayers_ternary p (Z.of_nat (S n)) m1 s1 s' Ht ltac:(lia) Hs1 E).
Qed.

Lemma kwz_fresh_pixels_ok : kwz_pixels_ok fresh.
Proof.
  split; [apply state_ok_fresh|].
  unfold fresh. cbn [layers].
  assert (H : Forall ternary (replicate layerLength 0)).
  { apply Forall_replicate. unfold ternary. lia. }
  constructor; [exact H|]. constructor; [exact H|]. constructor; [exact H|].
  constructor.
Qed.

Lemma kwz_reachable_pixels_ok p s :
  tables_ok p -> reachable p s -> kwz_pixels_ok s.
Proof.
  intros Ht Hr.
  induction Hr as [|s i s' Hr IH E]; [apply kwz_fresh_pixels_ok|].
  apply decodeFrame_Some in E as (_ & _ & E).
  eapply decodeFrameFrom_ternary; [exact Ht | exact IH | exact E].
Qed.



End KwzPixelFacts.

(** ** Format A: what the layers hold *)

Section PpmPixelFacts.
Import Ppm PpmView.

Local Opaque layerLength.





















End PpmPixelFacts.

(** ** Format A: palette and pixels of a frame *)

Section PpmImageFacts.
Import Ppm PpmView PpmImage.

Local Opaque layerLength.

Lemma and_three_range x : 0 <= JS.and x 3 <= 3.
Proof.
  pose proof (and_ones_range x 2 ltac:(lia)) as H.
  change (Z.ones 2) with 3 in H. change (2 ^ 2) with 4 in H. lia.
Qed.

Lemma penMap_at (inv : bool) k :
  0 <= k <= 3 ->
  exists c,
    at_ [if inv then 0 else 1; if inv then 0 else 1; 2; 3] k = Some c /\
    0 <= c <= 3 /\ c <> (if inv then 1 else 0).
Proof.
  intros Hk.
  assert (k = 0 \/ k = 1 \/ k = 2 \/ k = 3) as [-> | [-> | [-> | ->]]] by lia;
    destruct inv; eexists; (split; [reflexivity|]); lia.
Qed.

Lemma getFramePaletteIndices_shape p frameIndex :
  is_Some (isNewFrame p frameIndex) ->
  exists paper c1 c2,
    getFramePaletteIndices p frameIndex = Some [paper; c1; c2] /\
    (paper = 0 \/ paper = 1) /\
    0 <= c1 <= 3 /\ 0 <= c2 <= 3 /\ c1 <> paper /\ c2 <> paper.
Proof.
  intros [v Ev]. unfold getFramePaletteIndices.
  unfold isNewFrame in Ev.
  destruct (at_ (frameOffsets p) frameIndex) as [offset|]; [|discriminate].
  cbn [mbind option_bind] in *.
  destruct (DataStream.readUint8 (DataStream.mk (buffer p) offset))
    as [[header ds]|]; [|discriminate].
  cbn [mbind option_bind] in *. clear Ev.
  set (inv := negb (JS.and header 1 =? 1)).
  destruct (penMap_at inv _ (and_three_range (JS.sar header 1)))
    as (c1 & E1 & R1 & N1).
  destruct (penMap_at inv _ (and_three_range (JS.sar header 3)))
    as (c2 & E2 & R2 & N2).
  rewrite E1, E2. cbn [mbind option_bind].
  exists (if inv then 1 else 0), c1, c2.
  split; [reflexivity|].
  split; [destruct inv; auto|].
  split; [exact R1|]. split; [exact R2|]. split; assumption.
Qed.

(** X4.  Whenever the header byte of a frame can be read,
    [getFramePaletteIndices] returns three indices into the global
    palette: the paper colour is white (0) or black (1), the colours of
    the two layers are among the four palette entries, and neither layer
    has the colour of the paper; [getFramePalette] then returns three
    colours, none of them [undefined]. *)
Theorem ppm_palette_in_range (p : parser) (frameIndex : Z) :
  is_Some (isNewFrame p frameIndex) ->
  exists paper c1 c2,
    getFramePaletteIndices p frameIndex = Some [paper; c1; c2] /\
    (paper = 0 \/ paper = 1) /\
    0 <= c1 <= 3 /\ 0 <= c2 <= 3 /\ c1 <> paper /\ c2 <> paper /\
    exists rgba0 rgba1 rgba2,
      getFramePalette p frameIndex = Some [Some rgba0; Some rgba1; Some rgba2].
Proof.
  intros Hh.
  destruct (getFramePaletteIndices_shape p frameIndex Hh)
    as (paper & c1 & c2 & E & Hp & R1 & R2 & N1 & N2).
  exists paper, c1, c2. repeat (split; [assumption|]).
  unfold getFramePalette. rewrite E. cbn [mbind option_bind map].
  assert (Hcol : forall c, 0 <= c <= 3 ->
            exists rgba, (if c <? 0 then None else globalPalette !! Z.to_nat c)
                         = Some rgba).
  { intros c Hc.
    assert (c = 0 \/ c = 1 \/ c = 2 \/ c = 3) as [-> | [-> | [-> | ->]]] by lia;
      eexists; reflexivity. }
  destruct (Hcol paper ltac:(lia)) as [r0 ->].
  destruct (Hcol c1 R1) as [r1 ->]. destruct (Hcol c2 R2) as [r2 ->].
  eauto.
Qed.

Lemma ppm_palette_in_range_witness :
  exists paper c1 c2,
    getFramePaletteIndices ppm_key_parser 1 = Some [paper; c1; c2] /\
    (paper = 0 \/ paper = 1) /\
    0 <= c1 <= 3 /\ 0 <= c2 <= 3 /\ c1 <> paper /\ c2 <> paper /\
    exists rgba0 rgba1 rgba2,
      getFramePalette ppm_key_parser 1 = Some [Some rgba0; Some rgba1; Some rgba2].
Proof.
  apply (ppm_palette_in_range ppm_key_parser 1).
  apply returns_is_Some. vm_compute. reflexivity.
Defined.



Lemma at_map_seqZ (f : Z -> Z) (n q : Z) :
  0 <= q < n -> at_ (map f (seqZ 0 n)) q = Some (f q).
Proof.
  intros Hq. unfold at_. destruct (Z.ltb_spec q 0); [lia|].
  change (map f (seqZ 0 n)) with (f <$> seqZ 0 n).
  rewrite list_lookup_fmap, lookup_seqZ_lt by lia.
  cbn [fmap option_fmap option_map]. rewrite Z.add_0_l, Z2Nat.id by lia. reflexivity.
Qed.

Lemma length_map_seqZ (f : Z -> Z) (n : Z) :
  0 <= n -> Z.of_nat (length (map f (seqZ 0 n))) = n.
Proof. intros Hn. rewrite length_map, length_seqZ. lia. Qed.






End PpmImageFacts.

(** ** Format B: palette, flags and layer order of a frame *)

Section KwzMetaFacts.
Import Kwz KwzView KwzImage.

(** The frame table of a parsed file has, for every frame, a record of 28
    bytes inside the file. *)
Lemma getFrameOffsets_meta buf numFrames kmiPtr kmiLength kmcPtr dsi p i :
  0 <= kmiPtr ->
  getFrameOffsets buf numFrames kmiPtr kmiLength kmcPtr dsi = Some p ->
  0 <= i < numFrames ->
  frameCount p = numFrames /\
  exists m, at_ (frameMetaOffsets p) i = Some m /\
            0 <= m /\ m + 28 < Z.of_nat (length (buffer p)).
Proof.
  intros Hk E Hi. unfold getFrameOffsets in E.
  destruct (Z.leb_spec (28 * numFrames) kmiLength) as [Hlen|]; [|discriminate].
  cbn [negb] in E.
  destruct (frameOffsetsLoop buf (Z.to_nat numFrames) (kmiPtr + 8) (kmcPtr + 12) [] [] [])
    as [[[M D] S]|] eqn:El; [|discriminate].
  cbn [mbind option_bind] in E. injection E as <-.
  destruct (frameOffsetsLoop_spec _ _ (kmiPtr + 8) _ _ _ _ _ _ _ ltac:(lia) El)
    as (M' & D' & S' & -> & -> & -> & HM & HD & HS & HMr & HSr).
  cbn [app buffer frameCount frameMetaOffsets]. split; [reflexivity|].
  unfold at_. destruct (Z.ltb_spec i 0); [lia|].
  destruct (lookup_lt_is_Some_2 M' (Z.to_nat i)) as [m Em]; [lia|].
  pose proof (Forall_lookup_1 _ _ _ _ HMr Em) as [Hm0 Hm1].
  exists m. auto.
Qed.

Lemma readUint8_in_bounds buf q :
  0 <= q -> q + 1 <= Z.of_nat (length buf) ->
  exists v, DataStream.readUint8 (DataStream.mk buf q)
            = Some (v, DataStream.mk buf (q + 1)).
Proof.
  intros H0 H1.
  exact (read_in_bounds DataStream.Uint8 true (DataStream.mk buf q) H0 H1).
Qed.

Lemma readUint32_in_bounds buf q :
  0 <= q -> q + 4 <= Z.of_nat (length buf) ->
  exists v, DataStream.readUint32 true (DataStream.mk buf q)
            = Some (v, DataStream.mk buf (q + 4)).
Proof.
  intros H0 H1.
  exact (read_in_bounds DataStream.Uint32 true (DataStream.mk buf q) H0 H1).
Qed.

Lemma and_fifteen_range x : 0 <= JS.and x 15 <= 15.
Proof.
  pose proof (and_ones_range x 4 ltac:(lia)) as H.
  change (Z.ones 4) with 15 in H. change (2 ^ 4) with 16 in H. lia.
Qed.

Lemma getFramePaletteIndices_inside p i :
  record_inside p i ->
  exists pal, getFramePaletteIndices p i = Some pal /\
              length pal = 7%nat /\ Forall (fun c => 0 <= c <= 15) pal.
Proof.
  intros (m & Em & H0 & H1). unfold getFramePaletteIndices. rewrite Em.
  cbn [mbind option_bind].
  destruct (readUint32_in_bounds (buffer p) m H0 ltac:(lia)) as [flags ->].
  cbn [mbind option_bind]. eexists. split; [reflexivity|]. split; [reflexivity|].
  repeat (constructor; [apply and_fifteen_range|]). constructor.
Qed.

Lemma getFrameLayerDepths_inside p i :
  record_inside p i -> exists a b c, getFrameLayerDepths p i = Some [a; b; c].
Proof.
  intros (m & Em & H0 & H1). unfold getFrameLayerDepths. rewrite Em.
  cbn [mbind option_bind].
  destruct (readUint8_in_bounds (buffer p) (m + 20) ltac:(lia) ltac:(lia)) as [a ->].
  cbn [mbind option_bind].
  destruct (readUint8_in_bounds (buffer p) (m + 20 + 1) ltac:(lia) ltac:(lia)) as [b ->].
  cbn [mbind option_bind].
  destruct (readUint8_in_bounds (buffer p) (m + 20 + 1 + 1) ltac:(lia) ltac:(lia))
    as [c ->].
  cbn [mbind option_bind]. eauto.
Qed.

Lemma getFrameSoundFlags_inside p i :
  record_inside p i ->
  exists f, getFrameSoundFlags p i = Some f /\ length f = 4%nat.
Proof.
  intros (m & Em & H0 & H1). unfold getFrameSoundFlags. rewrite Em.
  cbn [mbind option_bind].
  destruct (readUint8_in_bounds (buffer p) (m + 23) ltac:(lia) ltac:(lia)) as [a ->].
  cbn [mbind option_bind]. eexists. split; reflexivity.
Qed.

Lemma getFrameCameraFlags_inside p i :
  record_inside p i ->
  exists f, getFrameCameraFlags p i = Some f /\ length f = 3%nat.
Proof.
  intros (m & Em & H0 & H1). unfold getFrameCameraFlags. rewrite Em.
  cbn [mbind option_bind].
  destruct (readUint8_in_bounds (buffer p) (m + 26) ltac:(lia) ltac:(lia)) as [a ->].
  cbn [mbind option_bind]. eexists. split; reflexivity.
Qed.

Lemma soundFlagsLoop_inside p count : forall i,
  (forall j, i <= j < i + Z.of_nat count -> record_inside p j) ->
  exists all, soundFlagsLoop p count i = Some all /\ length all = count /\
              Forall (fun f => length f = 4%nat) all.
Proof.
  induction count as [|count IH]; intros i H.
  - exists []. repeat split. constructor.
  - cbn [soundFlagsLoop].
    destruct (getFrameSoundFlags_inside p i (H i ltac:(lia))) as (f & -> & Hf).
    cbn [mbind option_bind].
    destruct (IH (i + 1) ltac:(intros j Hj; apply H; lia)) as (rest & -> & Hl & Hr).
    cbn [mbind option_bind]. exists (f :: rest).
    split; [reflexivity|]. split; [cbn [length]; congruence|].
    constructor; assumption.
Qed.

(** X6.  In a file whose frame tables [getFrameOffsets] has built, the
    accessors of the frame meta data succeed for every frame:
    [getFramePaletteIndices] returns seven indices from 0 to 15,
    [getFrameLayerDepths] three depths, [getFrameSoundFlags] four flags
    and [getFrameCameraFlags] three, and [decodeSoundFlags] returns one
    list of four flags for each frame of the file. *)
Theorem kwz_frame_meta_readable
  (buf : list Z) (numFrames kmiPtr kmiLength kmcPtr : Z) (dsiLibraryNote : bool)
  (p : parser) (frameIndex : Z) :
  0 <= kmiPtr ->
  getFrameOffsets buf numFrames kmiPtr kmiLength kmcPtr dsiLibraryNote = Some p ->
  0 <= frameIndex < numFrames ->
  (exists palette, getFramePaletteIndices p frameIndex = Some palette /\
                   length palette = 7%nat /\ Forall (fun c => 0 <= c <= 15) palette) /\
  (exists a b c, getFrameLayerDepths p frameIndex = Some [a; b; c]) /\
  (exists flags, getFrameSoundFlags p frameIndex = Some flags /\ length flags = 4%nat) /\
  (exists flags, getFrameCameraFlags p frameIndex = Some flags /\ length flags = 3%nat) /\
  exists all, decodeSoundFlags p = Some all /\ length all = Z.to_nat numFrames /\
              Forall (fun flags => length flags = 4%nat) all.
Proof.
  intros Hk E Hi.
  assert (Hin : forall j, 0 <= j < numFrames -> record_inside p j).
  { intros j Hj.
    destruct (getFrameOffsets_meta _ _ _ _ _ _ _ j Hk E Hj) as (_ & H). exact H. }
  destruct (getFrameOffsets_meta _ _ _ _ _ _ _ frameIndex Hk E Hi) as (Hc & _).
  split; [apply getFramePaletteIndices_inside, Hin, Hi|].
  split; [apply getFrameLayerDepths_inside, Hin, Hi|].
  split; [apply getFrameSoundFlags_inside, Hin, Hi|].
  split; [apply getFrameCameraFlags_inside, Hin, Hi|].
  unfold decodeSoundFlags. rewrite Hc.
  apply soundFlagsLoop_inside. intros j Hj. apply Hin. lia.
Qed.

Lemma kwz_frame_meta_readable_witness :
  (exists palette, getFramePaletteIndices kwz_three_parser 2 = Some palette /\
                   length palette = 7%nat /\ Forall (fun c => 0 <= c <= 15) palette) /\
  (exists a b c, getFrameLayerDepths kwz_three_parser 2 = Some [a; b; c]) /\
  (exists flags, getFrameSoundFlags kwz_three_parser 2 = Some flags /\
                 length flags = 4%nat) /\
  (exists flags, getFrameCameraFlags kwz_three_parser 2 = Some flags /\
                 length flags = 3%nat) /\
  exists all, decodeSoundFlags kwz_three_parser = Some all /\
              length all = Z.to_nat 3 /\
              Forall (fun flags => length flags = 4%nat) all.
Proof.
  apply (kwz_frame_meta_readable kwz_three_frames 3 0 84 92 false kwz_three_parser 2).
  - lia.
  - vm_compute. reflexivity.
  - lia.
Defined.

(** The sort of [getFrameLayerOrder], for any depths. *)
Lemma sort_three (d : Z -> Z) :
  exists x y z,
    sort (fun a b => d b - d a) [2; 1; 0] = [x; y; z] /\
    Permutation [x; y; z] [0; 1; 2] /\
    (x = 0 \/ x = 1 \/ x = 2) /\ (y = 0 \/ y = 1 \/ y = 2) /\
    (z = 0 \/ z = 1 \/ z = 2) /\
    d x >= d y /\ d y >= d z /\
    (d x = d y -> y < x) /\ (d y = d z -> z < y) /\ (d x = d z -> z < x).
Proof.
  unfold sort. cbn [fold_right sortInsert].
  destruct (Z.gtb_spec (d 0 - d 1) 0) as [H1|H1]; cbn [sortInsert];
    [destruct (Z.gtb_spec (d 0 - d 2) 0) as [H2|H2]; cbn [sortInsert];
       [destruct (Z.gtb_spec (d 1 - d 2) 0) as [H3|H3]|]
    |destruct (Z.gtb_spec (d 1 - d 2) 0) as [H2|H2]; cbn [sortInsert];
       [destruct (Z.gtb_spec (d 0 - d 2) 0) as [H3|H3]|]];
    do 3 eexists; (split; [reflexivity|]);
    (split; [|repeat (split; [auto; lia|]); lia]);
    first
      [ reflexivity
      | apply perm_swap
      | apply perm_skip, perm_swap
      | eapply perm_trans; [apply perm_swap | apply perm_skip, perm_swap]
      | eapply perm_trans; [apply perm_skip, perm_swap | apply perm_swap]
      | eapply perm_trans;
        [apply perm_swap
        | eapply perm_trans; [apply perm_skip, perm_swap | apply perm_swap]] ].
Qed.

Lemma getFrameLayerDepths_three p frameIndex depths :
  getFrameLayerDepths p frameIndex = Some depths -> exists a b c, depths = [a; b; c].
Proof.
  unfold getFrameLayerDepths. intros Ed.
  destruct (at_ (frameMetaOffsets p) frameIndex) as [m|]; [|discriminate].
  cbn [mbind option_bind] in Ed.
  destruct (DataStream.readUint8 _) as [[a ds1]|]; [|discriminate].
  cbn [mbind option_bind] in Ed.
  destruct (DataStream.readUint8 ds1) as [[b ds2]|]; [|discriminate].
  cbn [mbind option_bind] in Ed.
  destruct (DataStream.readUint8 ds2) as [[c ds3]|]; [|discriminate].
  cbn [mbind option_bind] in Ed. injection Ed as <-. eauto.
Qed.

Lemma getFrameLayerOrder_three p frameIndex order :
  getFrameLayerOrder p frameIndex = Some order ->
  exists x y z,
    order = [x; y; z] /\ Permutation [x; y; z] [0; 1; 2] /\
    (x = 0 \/ x = 1 \/ x = 2) /\ (y = 0 \/ y = 1 \/ y = 2) /\
    (z = 0 \/ z = 1 \/ z = 2).
Proof.
  unfold getFrameLayerOrder. intros E.
  destruct (getFrameLayerDepths p frameIndex) as [depths|] eqn:Ed; [|discriminate].
  cbn [mbind option_bind] in E. injection E as <-.
  destruct (sort_three (fun i => JS.int_of (at_ depths i)))
    as (x & y & z & Es & Hp & Hx & Hy & Hz & _).
  exists x, y, z. auto.
Qed.

(** X7.  [getFrameLayerOrder] returns the three layers, each once, the
    deepest first: the depth never grows along the list, and layers of
    the same depth stay in the order 2, 1, 0. *)
Theorem kwz_layer_order_sorted (p : parser) (frameIndex : Z) (order : list Z) :
  getFrameLayerOrder p frameIndex = Some order ->
  exists depths x y z,
    getFrameLayerDepths p frameIndex = Some depths /\
    order = [x; y; z] /\
    Permutation [x; y; z] [0; 1; 2] /\
    exists dx dy dz,
      at_ depths x = Some dx /\ at_ depths y = Some dy /\ at_ depths z = Some dz /\
      dx >= dy /\ dy >= dz /\
      (dx = dy -> y < x) /\ (dy = dz -> z < y) /\ (dx = dz -> z < x).
Proof.
  unfold getFrameLayerOrder. intros E.
  destruct (getFrameLayerDepths p frameIndex) as [depths|] eqn:Ed; [|discriminate].
  cbn [mbind option_bind] in E. injection E as <-.
  destruct (getFrameLayerDepths_three _ _ _ Ed) as (a & b & c & ->).
  destruct (sort_three (fun i => JS.int_of (at_ [a; b; c] i)))
    as (x & y & z & Es & Hp & Hx & Hy & Hz & H).
  cbv beta in Es, H.
  exists [a; b; c], x, y, z. split; [reflexivity|]. split; [exact Es|].
  split; [exact Hp|].
  exists (JS.int_of (at_ [a; b; c] x)), (JS.int_of (at_ [a; b; c] y)),
    (JS.int_of (at_ [a; b; c] z)).
  split; [destruct Hx as [-> | [-> | ->]]; reflexivity|].
  split; [destruct Hy as [-> | [-> | ->]]; reflexivity|].
  split; [destruct Hz as [-> | [-> | ->]]; reflexivity|].
  exact H.
Qed.

Lemma kwz_layer_order_sorted_witness :
  exists depths x y z,
    getFrameLayerDepths kwz_three_parser 1 = Some depths /\
    [2; 1; 0] = [x; y; z] /\
    Permutation [x; y; z] [0; 1; 2] /\
    exists dx dy dz,
      at_ depths x = Some dx /\ at_ depths y = Some dy /\ at_ depths z = Some dz /\
      dx >= dy /\ dy >= dz /\
      (dx = dy -> y < x) /\ (dy = dz -> z < y) /\ (dx = dz -> z < x).
Proof.
  apply (kwz_layer_order_sorted kwz_three_parser 1 [2; 1; 0]).
  vm_compute. reflexivity.
Defined.

End KwzMetaFacts.

(** ** Format B: the image of a frame *)

Section KwzImageFacts.
Import Kwz KwzView KwzImage.

Lemma kwz_layerLength : Z.of_nat layerLength = 76800.
Proof. reflexivity. Qed.

Lemma kwz_image_size : Z.to_nat (320 * 240) = layerLength.
Proof. reflexivity. Qed.

Local Opaque layerLength.

Lemma getFramePaletteIndices_seven p i pal :
  getFramePaletteIndices p i = Some pal ->
  exists c0 c1 c2 c3 c4 c5 c6,
    pal = [c0; c1; c2; c3; c4; c5; c6] /\ Forall (fun c => 0 <= c <= 15) pal.
Proof.
  unfold getFramePaletteIndices. intros E.
  destruct (at_ (frameMetaOffsets p) i) as [m|]; [|discriminate].
  cbn [mbind option_bind] in E.
  destruct (DataStream.readUint32 true _) as [[flags ds]|]; [|discriminate].
  cbn [mbind option_bind] in E. injection E as <-.
  do 7 eexists. split; [reflexivity|].
  repeat (constructor; [apply and_fifteen_range|]). constructor.
Qed.

(** The layers of a state, by index. *)
Lemma layer_ok s i :
  kwz_pixels_ok s -> i = 0 \/ i = 1 \/ i = 2 ->
  exists b, layer s i = Some b /\ Z.of_nat (length b) = 76800 /\ Forall ternary b.
Proof.
  intros [(b0 & b1 & b2 & El & H0 & H1 & H2) Hpx] Hi.
  rewrite El in Hpx.
  apply Forall_cons_1 in Hpx as [P0 Hpx].
  apply Forall_cons_1 in Hpx as [P1 Hpx].
  apply Forall_cons_1 in Hpx as [P2 _].
  unfold layer. rewrite El. pose proof kwz_layerLength as HL.
  destruct Hi as [-> | [-> | ->]]; eexists; (split; [reflexivity|]);
    split; first [assumption | lia].
Qed.

Lemma at_ternary b q :
  Forall ternary b -> Z.of_nat (length b) = 76800 -> 0 <= q < 76800 ->
  at_ b q = Some 0 \/ at_ b q = Some 1 \/ at_ b q = Some 2.
Proof.
  intros Hb Hlen Hq. destruct (at_Some b q ltac:(lia)) as [v Ev].
  pose proof (at_Forall _ _ _ _ Hb Ev) as Hv. unfold ternary in Hv.
  rewrite Ev. assert (v = 0 \/ v = 1 \/ v = 2) as [-> | [-> | ->]] by lia; auto.
Qed.

(** The colour of a drawn pixel is an entry of the palette. *)
Lemma colour_entry pal (k v : Z) :
  length pal = 7%nat -> Forall (fun c => 0 <= c <= 15) pal ->
  k = 0 \/ k = 1 \/ k = 2 -> v = 1 \/ v = 2 ->
  exists c, at_ pal (k * 2 + v) = Some c /\ colour pal (k * 2) (Some v) = c /\
            0 <= c <= 15.
Proof.
  intros Hl Hp Hk Hv.
  destruct (at_Some pal (k * 2 + v) ltac:(lia)) as [c Ec].
  pose proof (at_Forall _ _ _ _ Hp Ec) as Hc. cbv beta in Hc.
  exists c. split; [exact Ec|]. split; [|exact Hc].
  unfold colour. rewrite Ec. cbn [JS.int_of]. apply Z.mod_small. lia.
Qed.

Lemma paper_entry pal :
  length pal = 7%nat -> Forall (fun c => 0 <= c <= 15) pal ->
  exists c, at_ pal 0 = Some c /\ JS.int_of (at_ pal 0) mod 256 = c /\ 0 <= c <= 15.
Proof.
  intros Hl Hp.
  destruct (at_Some pal 0 ltac:(lia)) as [c Ec].
  pose proof (at_Forall _ _ _ _ Hp Ec) as Hc. cbv beta in Hc.
  exists c. split; [exact Ec|]. split; [|exact Hc].
  rewrite Ec. cbn [JS.int_of]. apply Z.mod_small. lia.
Qed.

Lemma at_elem_of (a : list Z) i v : at_ a i = Some v -> v ∈ a.
Proof.
  unfold at_. destruct (i <? 0); [discriminate|]. apply list_elem_of_lookup_2.
Qed.

(** What [getFramePixels] is made of. *)
Lemma getFramePixels_parts p i s :
  tables_ok p -> reachable p s -> record_inside p i ->
  prevFrameIndex s = Some i \/ is_Some (decodeFrame p i s) ->
  exists s' pal x y z A B C,
    reachable p s' /\ prevFrameIndex s' = Some i /\
    getFramePaletteIndices p i = Some pal /\
    length pal = 7%nat /\ Forall (fun c => 0 <= c <= 15) pal /\
    getFrameLayerOrder p i = Some [x; y; z] /\
    (x = 0 \/ x = 1 \/ x = 2) /\ (y = 0 \/ y = 1 \/ y = 2) /\
    (z = 0 \/ z = 1 \/ z = 2) /\
    layer s' z = Some A /\ Z.of_nat (length A) = 76800 /\ Forall ternary A /\
    layer s' y = Some B /\ Z.of_nat (length B) = 76800 /\ Forall ternary B /\
    layer s' x = Some C /\ Z.of_nat (length C) = 76800 /\ Forall ternary C /\
    (dsiLibraryNote p = false ->
     getFramePixels p i s
     = Some (frameImage A B C pal (z * 2) (y * 2) (x * 2), s')) /\
    (dsiLibraryNote p = true ->
     getFramePixels p i s = Some (croppedImage A B pal (z * 2) (y * 2), s')).
Proof.
  intros Ht Hr Hin Hdec.
  assert (Hs' : exists s',
            (if prevIsNot (prevFrameIndex s) i then decodeFrame p i s else Some s)
            = Some s' /\ reachable p s' /\ prevFrameIndex s' = Some i).
  { destruct (prevIsNot (prevFrameIndex s) i) eqn:Ep.
    - destruct Hdec as [Hprev | [s' Es]].
      { rewrite Hprev in Ep. cbn [prevIsNot] in Ep. rewrite Z.eqb_refl in Ep.
        discriminate. }
      exists s'. split; [exact Es|].
      split; [eapply reach_decode; eassumption|].
      destruct (reachable_chained p s Ht Hr) as [Hok Hch].
      apply decodeFrame_Some in Es as (Hi & Hc & Es).
      destruct (decodeFrameFrom_chained p Ht (Z.to_nat i) 7 false s s' Hok Hch
                  ltac:(lia) ltac:(discriminate) Es) as (_ & Hprev & _).
      rewrite Hprev. f_equal. lia.
    - exists s. split; [reflexivity|]. split; [exact Hr|].
      unfold prevIsNot in Ep. destruct (prevFrameIndex s) as [q|]; [|discriminate].
      apply negb_false_iff, Z.eqb_eq in Ep. congruence. }
  destruct Hs' as (s' & Es & Hr' & Hprev).
  pose proof (kwz_reachable_pixels_ok p s' Ht Hr') as Hok.
  destruct (getFramePaletteIndices_inside p i Hin) as (pal & Epal & Hlen & Hpal).
  destruct (getFrameLayerDepths_inside p i Hin) as (da & db & dc & Ed).
  assert (Eo : exists order, getFrameLayerOrder p i = Some order).
  { unfold getFrameLayerOrder. rewrite Ed. cbn [mbind option_bind]. eauto. }
  destruct Eo as [order Eo].
  destruct (getFrameLayerOrder_three _ _ _ Eo)
    as (x & y & z & -> & _ & Hx & Hy & Hz).
  destruct (layer_ok s' z Hok Hz) as (A & EA & LA & TA).
  destruct (layer_ok s' y Hok Hy) as (B & EB & LB & TB).
  destruct (layer_ok s' x Hok Hx) as (C & EC & LC & TC).
  exists s', pal, x, y, z, A, B, C.
  do 18 (split; [first [assumption | reflexivity]|]).
  assert (E2 : at_ [x; y; z] 2 = Some z) by reflexivity.
  assert (E1 : at_ [x; y; z] 1 = Some y) by reflexivity.
  assert (E0 : at_ [x; y; z] 0 = Some x) by reflexivity.
  split; intros Hd; unfold getFramePixels;
    rewrite Es; cbn [mbind option_bind];
    rewrite Epal; cbn [mbind option_bind];
    rewrite Eo; cbn [mbind option_bind];
    rewrite E2; cbn [mbind option_bind];
    rewrite E1; cbn [mbind option_bind];
    rewrite E0; cbn [mbind option_bind];
    rewrite EA; cbn [mbind option_bind];
    rewrite EB; cbn [mbind option_bind];
    rewrite Hd; cbn [negb].
  - rewrite EC. reflexivity.
  - reflexivity.
Qed.

Lemma drawn_zero : drawn (Some 0) = false.
Proof. reflexivity. Qed.

Lemma drawn_one : drawn (Some 1) = true.
Proof. reflexivity. Qed.

Lemma drawn_two : drawn (Some 2) = true.
Proof. reflexivity. Qed.

Lemma at_kwz_frameImage A B C pal oa ob oc q :
  0 <= q < 76800 ->
  at_ (frameImage A B C pal oa ob oc) q
  = Some (if drawn (at_ A q) then colour pal oa (at_ A q)
          else if drawn (at_ B q) then colour pal ob (at_ B q)
          else if drawn (at_ C q) then colour pal oc (at_ C q)
          else JS.int_of (at_ pal 0) mod 256).
Proof.
  intros Hq. unfold frameImage. change (320 * 240) with 76800.
  generalize 76800 Hq. intros n Hn.
  exact (at_map_seqZ _ n q Hn).
Qed.

Lemma length_kwz_frameImage A B C pal oa ob oc :
  Z.of_nat (length (frameImage A B C pal oa ob oc)) = 76800.
Proof.
  unfold frameImage. change (320 * 240) with 76800. apply length_map_seqZ. lia.
Qed.

(** A property of every pixel of an image, from its pixels by index. *)
Lemma Forall_at (P : Z -> Prop) (image : list Z) :
  (forall q v, 0 <= q < Z.of_nat (length image) -> at_ image q = Some v -> P v) ->
  Forall P image.
Proof.
  intros H. apply Forall_lookup_2. intros k v Ek.
  apply (H (Z.of_nat k) v).
  - apply lookup_lt_Some in Ek. lia.
  - unfold at_. destruct (Z.ltb_spec (Z.of_nat k) 0); [lia|].
    rewrite Nat2Z.id. exact Ek.
Qed.

(** The three cases of a pixel of a layer, with the colour it is drawn in. *)
Lemma layer_pixel pal k b q :
  length pal = 7%nat -> Forall (fun c => 0 <= c <= 15) pal ->
  k = 0 \/ k = 1 \/ k = 2 ->
  Forall ternary b -> Z.of_nat (length b) = 76800 -> 0 <= q < 76800 ->
  (at_ b q = Some 0 /\ drawn (at_ b q) = false) \/
  (exists a c, at_ b q = Some a /\ a <> 0 /\ drawn (at_ b q) = true /\
               at_ pal (k * 2 + a) = Some c /\ colour pal (k * 2) (at_ b q) = c /\
               0 <= c <= 15).
Proof.
  intros Hl Hp Hk Hb Hlen Hq.
  destruct (at_ternary b q Hb Hlen Hq) as [E | [E | E]]; rewrite E.
  - left. split; reflexivity.
  - right. destruct (colour_entry pal k 1 Hl Hp Hk ltac:(lia)) as (c & E1 & E2 & Hc).
    exists 1, c. repeat split; try assumption; try reflexivity; lia.
  - right. destruct (colour_entry pal k 2 Hl Hp Hk ltac:(lia)) as (c & E1 & E2 & Hc).
    exists 2, c. repeat split; try assumption; try reflexivity; lia.
Qed.

(** X8.  Without the [dsiLibraryNote] setting, for a frame whose record
    lies inside the file and which is the frame decoded last or can be
    decoded, [getFramePixels] returns an image of 320 x 240 pixels, each
    of them one of the seven palette indices of the frame (from 0 to 15),
    and leaves a state whose last decoded frame is this one.  A pixel has
    the paper colour where the three layers are empty, and where the
    layer that comes last in [getFrameLayerOrder] is drawn the pixel has
    the colour of that layer. *)
Theorem kwz_frame_pixels (p : parser) (frameIndex : Z) (s : state) :
  tables_ok p -> reachable p s -> dsiLibraryNote p = false ->
  record_inside p frameIndex ->
  prevFrameIndex s = Some frameIndex \/ is_Some (decodeFrame p frameIndex s) ->
  exists image s' palette paper bottom middle top,
    getFramePixels p frameIndex s = Some (image, s') /\
    prevFrameIndex s' = Some frameIndex /\
    getFramePaletteIndices p frameIndex = Some palette /\
    at_ palette 0 = Some paper /\
    getFrameLayerOrder p frameIndex = Some [bottom; middle; top] /\
    Z.of_nat (length image) = 76800 /\
    Forall (fun v => v ∈ palette /\ 0 <= v <= 15) image /\
    forall q, 0 <= q < 76800 ->
      (Forall (fun b => at_ b q = Some 0) (layers s') -> at_ image q = Some paper) /\
      (forall A a, layer s' top = Some A -> at_ A q = Some a -> a <> 0 ->
                   at_ image q = at_ palette (top * 2 + a)).
Proof.
  intros Ht Hr Hd Hin Hs.
  destruct (getFramePixels_parts p frameIndex s Ht Hr Hin Hs)
    as (s' & pal & x & y & z & A & B & C & Hr' & Hprev & Epal & Hl & Hp & Eo
        & Hx & Hy & Hz & EA & LA & TA & EB & LB & TB & EC & LC & TC & E).
  destruct E as [E _]. specialize (E Hd).
  destruct (paper_entry pal Hl Hp) as (paper & Epaper & Epm & Hpaper).
  exists (frameImage A B C pal (z * 2) (y * 2) (x * 2)), s', pal, paper, x, y, z.
  do 5 (split; [assumption|]).
  split; [apply length_kwz_frameImage|].
  assert (Hpix : forall q, 0 <= q < 76800 ->
            exists v, at_ (frameImage A B C pal (z * 2) (y * 2) (x * 2)) q = Some v /\
              (v ∈ pal /\ 0 <= v <= 15) /\
              (at_ A q = Some 0 -> at_ B q = Some 0 -> at_ C q = Some 0 -> v = paper) /\
              (forall a, at_ A q = Some a -> a <> 0 ->
                         Some v = at_ pal (z * 2 + a))).
  { intros q Hq. rewrite (at_kwz_frameImage _ _ _ _ _ _ _ q Hq).
    eexists. split; [reflexivity|]. rewrite Epm.
    destruct (layer_pixel pal z A q Hl Hp Hz TA LA Hq)
      as [[A0 ->] | (a & c & Ea & Na & -> & Ec & -> & Hc)].
    - destruct (layer_pixel pal y B q Hl Hp Hy TB LB Hq)
        as [[B0 ->] | (b & c & Eb & Nb & -> & Ec & -> & Hc)].
      + destruct (layer_pixel pal x C q Hl Hp Hx TC LC Hq)
          as [[C0 ->] | (c' & c & Ec' & Nc & -> & Ec & -> & Hc)].
        * split; [split; [eapply at_elem_of; eassumption | assumption]|].
          split; [reflexivity|]. intros a Ea Na. congruence.
        * split; [split; [eapply at_elem_of; eassumption | assumption]|].
          split; [intros; congruence|]. intros a Ea Na. congruence.
      + split; [split; [eapply at_elem_of; eassumption | assumption]|].
        split; [intros; congruence|]. intros a Ea Na. congruence.
    - split; [split; [eapply at_elem_of; eassumption | assumption]|].
      split; [intros; congruence|]. intros a' Ea' Na'.
      rewrite Ea in Ea'. injection Ea' as <-. symmetry. exact Ec. }
  split.
  - apply Forall_at. intros q v Hq Ev. rewrite length_kwz_frameImage in Hq.
    destruct (Hpix q Hq) as (v' & Ev' & Hin' & _). congruence.
  - intros q Hq. destruct (Hpix q Hq) as (v & Ev & _ & Hempty & Htop).
    rewrite Ev. split.
    + intros Hall. f_equal. unfold layer in EA, EB, EC.
      destruct (z <? 0); [discriminate|]. destruct (y <? 0); [discriminate|].
      destruct (x <? 0); [discriminate|].
      apply Hempty.
      * exact (Forall_lookup_1 _ _ _ _ Hall EA).
      * exact (Forall_lookup_1 _ _ _ _ Hall EB).
      * exact (Forall_lookup_1 _ _ _ _ Hall EC).
    + intros A' a EA' Ea Na. rewrite EA in EA'. injection EA' as <-.
      apply Htop; assumption.
Qed.

Lemma kwz_three_record_inside : record_inside kwz_three_parser 1.
Proof. exists 36. vm_compute. repeat split; discriminate. Qed.

Lemma kwz_frame_pixels_witness :
  exists image s' palette paper bottom middle top,
    getFramePixels kwz_three_parser 1 fresh = Some (image, s') /\
    prevFrameIndex s' = Some 1 /\
    getFramePaletteIndices kwz_three_parser 1 = Some palette /\
    at_ palette 0 = Some paper /\
    getFrameLayerOrder kwz_three_parser 1 = Some [bottom; middle; top] /\
    Z.of_nat (length image) = 76800 /\
    Forall (fun v => v ∈ palette /\ 0 <= v <= 15) image /\
    forall q, 0 <= q < 76800 ->
      (Forall (fun b => at_ b q = Some 0) (layers s') -> at_ image q = Some paper) /\
      (forall A a, layer s' top = Some A -> at_ A q = Some a -> a <> 0 ->
                   at_ image q = at_ palette (top * 2 + a)).
Proof.
  apply (kwz_frame_pixels kwz_three_parser 1 fresh).
  - exact kwz_three_tables_ok.
  - apply reach_fresh.
  - reflexivity.
  - exact kwz_three_record_inside.
  - right. apply returns_is_Some. vm_compute. reflexivity.
Defined.

End KwzImageFacts.

(** ** Format B: the image of a frame with [dsiLibraryNote] *)

Section KwzCropFacts.
Import Kwz KwzView KwzImage.

Lemma at_put a i v q :
  0 <= q < Z.of_nat (length a) ->
  at_ (put a i v) q = if q =? i then Some v else at_ a q.
Proof.
  intros Hq. unfold put, at_. destruct (Z.ltb_spec q 0); [lia|].
  destruct (Z.eqb_spec q i) as [->|Hne].
  - destruct (Z.ltb_spec i 0); [lia|].
    apply list_lookup_insert_eq. lia.
  - destruct (Z.ltb_spec i 0); [reflexivity|].
    apply list_lookup_insert_ne. lia.
Qed.

Section Loops.
Variables (A B pal : list Z) (oa ob : Z).

Lemma cropPixels_length n : forall sp img,
  length (cropPixels n sp A B pal oa ob img) = length img.
Proof.
  induction n as [|n IH]; intros sp img; [reflexivity|].
  cbn [cropPixels]. rewrite IH.
  destruct (drawn (at_ A sp)); [apply length_put|].
  destruct (drawn (at_ B sp)); [apply length_put | reflexivity].
Qed.

Lemma cropPixels_at q n : forall sp img,
  0 <= q < Z.of_nat (length img) ->
  at_ (cropPixels n sp A B pal oa ob img) q
  = if (sp <=? q) && (q <? sp + Z.of_nat n)
    then Some (cropPixel A B pal oa ob q (JS.int_of (at_ img q)))
    else at_ img q.
Proof.
  induction n as [|n IH]; intros sp img Hq.
  - cbn [cropPixels].
    destruct (Z.leb_spec sp q), (Z.ltb_spec q (sp + Z.of_nat 0)); try reflexivity; lia.
  - cbn [cropPixels].
    set (img' := if drawn (at_ A sp) then put img sp (colour pal oa (at_ A sp))
                 else if drawn (at_ B sp) then put img sp (colour pal ob (at_ B sp))
                 else img).
    assert (Hl : length img' = length img).
    { subst img'. destruct (drawn (at_ A sp)); [apply length_put|].
      destruct (drawn (at_ B sp)); [apply length_put | reflexivity]. }
    destruct (at_Some img q Hq) as [o Eo].
    assert (Hat : at_ img' q
                  = if q =? sp then Some (cropPixel A B pal oa ob q o) else at_ img q).
    { subst img'. unfold cropPixel.
      destruct (Z.eqb_spec q sp) as [->|Hne].
      - destruct (drawn (at_ A sp));
          [rewrite at_put, Z.eqb_refl by exact Hq; reflexivity|].
        destruct (drawn (at_ B sp));
          [rewrite at_put, Z.eqb_refl by exact Hq; reflexivity|].
        exact Eo.
      - destruct (drawn (at_ A sp)).
        { rewrite at_put by exact Hq. destruct (Z.eqb_spec q sp); [lia | reflexivity]. }
        destruct (drawn (at_ B sp)); [|reflexivity].
        rewrite at_put by exact Hq. destruct (Z.eqb_spec q sp); [lia | reflexivity]. }
    rewrite (IH (sp + 1) img') by (rewrite Hl; exact Hq).
    rewrite Hat, Eo. cbn [JS.int_of default].
    destruct (Z.eqb_spec q sp) as [Heq|Hne];
      destruct (Z.leb_spec (sp + 1) q), (Z.leb_spec sp q),
        (Z.ltb_spec q (sp + 1 + Z.of_nat n)), (Z.ltb_spec q (sp + Z.of_nat (S n)));
      cbn [andb]; try reflexivity; lia.
Qed.

Lemma cropRows_length n cols : forall y img,
  length (cropRows n cols y 320 A B pal oa ob img) = length img.
Proof.
  induction n as [|n IH]; intros y img; [reflexivity|].
  cbn [cropRows]. rewrite IH. apply cropPixels_length.
Qed.

Lemma cropRows_at q n cols : forall y img,
  Z.of_nat cols <= 320 -> 0 <= y -> 0 <= q < Z.of_nat (length img) ->
  at_ (cropRows n cols y 320 A B pal oa ob img) q
  = if (y <=? q / 320) && (q / 320 <? y + Z.of_nat n) && (q mod 320 <? Z.of_nat cols)
    then Some (cropPixel A B pal oa ob q (JS.int_of (at_ img q)))
    else at_ img q.
Proof.
  induction n as [|n IH]; intros y img Hc Hy Hq.
  - cbn [cropRows].
    destruct (Z.leb_spec y (q / 320)), (Z.ltb_spec (q / 320) (y + Z.of_nat 0));
      cbn [andb]; try reflexivity; lia.
  - cbn [cropRows].
    rewrite (IH (y + 1)) by (rewrite ?cropPixels_length; lia).
    rewrite (cropPixels_at q cols (y * 320) img Hq).
    pose proof (Z.div_mod q 320 ltac:(lia)) as Hdm.
    pose proof (Z.mod_pos_bound q 320 ltac:(lia)) as Hm.
    set (r := q / 320) in *. set (c := q mod 320) in *.
    destruct (at_Some img q Hq) as [o Eo]. rewrite Eo. cbn [JS.int_of default].
    destruct (Z.leb_spec (y + 1) r), (Z.leb_spec y r),
      (Z.ltb_spec r (y + 1 + Z.of_nat n)), (Z.ltb_spec r (y + Z.of_nat (S n))),
      (Z.ltb_spec c (Z.of_nat cols)), (Z.leb_spec (y * 320) q),
      (Z.ltb_spec q (y * 320 + Z.of_nat cols));
      cbn [andb JS.int_of default]; try reflexivity; lia.
Qed.

Lemma length_croppedImage :
  Z.of_nat (length (croppedImage A B pal oa ob)) = 76800.
Proof.
  unfold croppedImage. cbv zeta. rewrite cropRows_length, length_replicate.
  rewrite kwz_image_size. exact kwz_layerLength.
Qed.

Lemma at_croppedImage q :
  0 <= q < 76800 ->
  at_ (croppedImage A B pal oa ob) q
  = Some (if (32 <=? q / 320) && (q / 320 <? 192) && (q mod 320 <? 232)
          then cropPixel A B pal oa ob q (JS.int_of (at_ pal 0) mod 256)
          else JS.int_of (at_ pal 0) mod 256).
Proof.
  intros Hq. unfold croppedImage. cbv zeta.
  rewrite kwz_image_size.
  assert (Hr : at_ (replicate layerLength (JS.int_of (at_ pal 0) mod 256)) q
               = Some (JS.int_of (at_ pal 0) mod 256)).
  { unfold at_. destruct (Z.ltb_spec q 0); [lia|].
    apply lookup_replicate_2. pose proof kwz_layerLength. lia. }
  rewrite cropRows_at;
    [|lia | lia | rewrite length_replicate; pose proof kwz_layerLength; lia].
  rewrite Hr. cbn [JS.int_of default].
  change (32 + Z.of_nat (Z.to_nat (240 - 48 - 32))) with 192.
  change (Z.of_nat (Z.to_nat (320 - 64 - 24))) with 232.
  destruct ((32 <=? q / 320) && (q / 320 <? 192) && (q mod 320 <? 232)); reflexivity.
Qed.

End Loops.

Lemma cropped_pixel pal y z A B q paper :
  length pal = 7%nat -> Forall (fun c => 0 <= c <= 15) pal ->
  at_ pal 0 = Some paper ->
  y = 0 \/ y = 1 \/ y = 2 -> z = 0 \/ z = 1 \/ z = 2 ->
  Z.of_nat (length A) = 76800 -> Forall ternary A ->
  Z.of_nat (length B) = 76800 -> Forall ternary B ->
  0 <= q < 76800 ->
  exists v, at_ (croppedImage A B pal (z * 2) (y * 2)) q = Some v /\
    (v ∈ pal /\ 0 <= v <= 15) /\
    (~ inCrop q -> v = paper) /\
    (at_ A q = Some 0 -> at_ B q = Some 0 -> v = paper) /\
    (forall a, inCrop q -> at_ A q = Some a -> a <> 0 ->
               Some v = at_ pal (z * 2 + a)).
Proof.
  intros Hl Hp Epaper Hy Hz LA TA LB TB Hq.
  destruct (paper_entry pal Hl Hp) as (paper' & Epaper' & Epm & Hpaper).
  assert (paper' = paper) as -> by congruence.
  rewrite (at_croppedImage _ _ _ _ _ q Hq). rewrite Epm.
  assert (Hpaper' : paper ∈ pal) by (eapply at_elem_of; eassumption).
  unfold inCrop.
  destruct (Z.leb_spec 32 (q / 320)), (Z.ltb_spec (q / 320) 192),
    (Z.ltb_spec (q mod 320) 232); cbn [andb];
    try (exists paper; split; [reflexivity|]; split; [split; assumption|];
         split; [reflexivity|]; split; [reflexivity|];
         intros a Hc; exfalso; lia).
  unfold cropPixel.
  destruct (layer_pixel pal z A q Hl Hp Hz TA LA Hq)
    as [[A0 ->] | (a & c & Ea & Na & -> & Ec & -> & Hc)].
  - destruct (layer_pixel pal y B q Hl Hp Hy TB LB Hq)
      as [[B0 ->] | (b & c & Eb & Nb & -> & Ec & -> & Hc)].
    + exists paper. split; [reflexivity|].
      split; [split; assumption|]. split; [reflexivity|].
      split; [reflexivity|]. intros a _ Ea Na. congruence.
    + exists c. split; [reflexivity|].
      split; [split; [eapply at_elem_of; eassumption | assumption]|].
      split; [intros Hn; exfalso; apply Hn; lia|].
      split; [intros; congruence|]. intros a _ Ea Na. congruence.
  - exists c. split; [reflexivity|].
    split; [split; [eapply at_elem_of; eassumption | assumption]|].
    split; [intros Hn; exfalso; apply Hn; lia|].
    split; [intros; congruence|]. intros a' _ Ea' Na'.
    rewrite Ea in Ea'. injection Ea' as <-. symmetry. exact Ec.
Qed.

(** X9.  With the [dsiLibraryNote] setting, under the same conditions,
    [getFramePixels] returns an image of 320 x 240 pixels, each one of
    the palette indices of the frame.  Only the rows 32 to 191 are drawn,
    and of these the columns 0 to 231: every other pixel has the paper
    colour.  The layer that comes first in [getFrameLayerOrder] is never
    drawn: a pixel where the other two layers are empty has the paper
    colour. *)
Theorem kwz_cropped_pixels (p : parser) (frameIndex : Z) (s : state) :
  tables_ok p -> reachable p s -> dsiLibraryNote p = true ->
  record_inside p frameIndex ->
  prevFrameIndex s = Some frameIndex \/ is_Some (decodeFrame p frameIndex s) ->
  exists image s' palette paper bottom middle top,
    getFramePixels p frameIndex s = Some (image, s') /\
    prevFrameIndex s' = Some frameIndex /\
    getFramePaletteIndices p frameIndex = Some palette /\
    at_ palette 0 = Some paper /\
    getFrameLayerOrder p frameIndex = Some [bottom; middle; top] /\
    Z.of_nat (length image) = 76800 /\
    Forall (fun v => v ∈ palette /\ 0 <= v <= 15) image /\
    forall q, 0 <= q < 76800 ->
      (~ inCrop q -> at_ image q = Some paper) /\
      (forall A B, layer s' top = Some A -> layer s' middle = Some B ->
                   at_ A q = Some 0 -> at_ B q = Some 0 ->
                   at_ image q = Some paper) /\
      (forall A a, inCrop q -> layer s' top = Some A -> at_ A q = Some a -> a <> 0 ->
                   at_ image q = at_ palette (top * 2 + a)).
Proof.
  intros Ht Hr Hd Hin Hs.
  destruct (getFramePixels_parts p frameIndex s Ht Hr Hin Hs)
    as (s' & pal & x & y & z & A & B & C & Hr' & Hprev & Epal & Hl & Hp & Eo
        & Hx & Hy & Hz & EA & LA & TA & EB & LB & TB & EC & LC & TC & E).
  destruct E as [_ E]. specialize (E Hd).
  destruct (paper_entry pal Hl Hp) as (paper & Epaper & Epm & Hpaper).
  exists (croppedImage A B pal (z * 2) (y * 2)), s', pal, paper, x, y, z.
  do 5 (split; [assumption|]).
  split; [apply length_croppedImage|].
  pose proof (fun q => cropped_pixel pal y z A B q paper Hl Hp Epaper Hy Hz
                         LA TA LB TB) as Hpix.
  split.
  - apply Forall_at. intros q v Hq Ev. rewrite length_croppedImage in Hq.
    destruct (Hpix q Hq) as (v' & Ev' & Hin' & _). congruence.
  - intros q Hq. destruct (Hpix q Hq) as (v & Ev & _ & Hout & Hempty & Htop).
    rewrite Ev. split; [intros Hn; f_equal; apply Hout, Hn|]. split.
    + intros A' B' EA' EB' A0 B0. rewrite EA in EA'. injection EA' as <-.
      rewrite EB in EB'. injection EB' as <-. f_equal. apply Hempty; assumption.
    + intros A' a Hc EA' Ea Na. rewrite EA in EA'. injection EA' as <-.
      apply Htop; assumption.
Qed.

Lemma kwz_dsi_tables_ok : tables_ok kwz_dsi_parser.
Proof.
  intros j Hj. change (frameCount kwz_dsi_parser) with 3 in Hj.
  assert (j = 0 \/ j = 1 \/ j = 2) as [-> | [-> | ->]] by lia;
    do 5 eexists;
    (split; [reflexivity|]); (split; [lia|]);
    (split; [apply Z.leb_le; vm_compute; reflexivity|]);
    split; reflexivity.
Qed.

Lemma kwz_dsi_record_inside : record_inside kwz_dsi_parser 1.
Proof. exists 36. vm_compute. repeat split; discriminate. Qed.

Lemma kwz_cropped_pixels_witness :
  exists image s' palette paper bottom middle top,
    getFramePixels kwz_dsi_parser 1 fresh = Some (image, s') /\
    prevFrameIndex s' = Some 1 /\
    getFramePaletteIndices kwz_dsi_parser 1 = Some palette /\
    at_ palette 0 = Some paper /\
    getFrameLayerOrder kwz_dsi_parser 1 = Some [bottom; middle; top] /\
    Z.of_nat (length image) = 76800 /\
    Forall (fun v => v ∈ palette /\ 0 <= v <= 15) image /\
    forall q, 0 <= q < 76800 ->
      (~ inCrop q -> at_ image q = Some paper) /\
      (forall A B, layer s' top = Some A -> layer s' middle = Some B ->
                   at_ A q = Some 0 -> at_ B q = Some 0 ->
                   at_ image q = Some paper) /\
      (forall A a, inCrop q -> layer s' top = Some A -> at_ A q = Some a -> a <> 0 ->
                   at_ image q = at_ palette (top * 2 + a)).
Proof.
  apply (kwz_cropped_pixels kwz_dsi_parser 1 fresh).
  - exact kwz_dsi_tables_ok.
  - apply reach_fresh.
  - reflexivity.
  - exact kwz_dsi_record_inside.
  - right. apply returns_is_Some. vm_compute. reflexivity.
Defined.

End KwzCropFacts.

(** ** Audio: the length of a format B track, and the mixers *)

Section KwzAudioCount.
Import KwzAudio.

(** One sample takes two bits, or four when at most four bits of the
    byte are used up. *)
Lemma kwz_decodeSample_step currByte currBit stepIndex predictor :
  0 <= stepIndex <= 79 ->
  exists byte' bit' si p,
    decodeSample currByte currBit stepIndex predictor = Some (byte', bit', si, p) /\
    (bit' = currBit + 2 \/ (bit' = currBit + 4 /\ currBit <= 4)) /\
    0 <= si <= 79 /\ -2048 <= p <= 2047 /\ JS.toInt16 (p * 16) = p * 16.
Proof.
  intros Hi.
  destruct (kwz_decodeSample_range currByte currBit stepIndex predictor Hi)
    as (byte' & bit' & si & p & E & _ & Hsi & Hp & _ & Ht).
  exists byte', bit', si, p. split; [exact E|].
  split; [|auto]. unfold decodeSample in E.
  destruct (at_ ADPCM_STEP_TABLE stepIndex) as [step|]; [|discriminate].
  cbn [mbind option_bind] in E.
  destruct (Z.ltb_spec stepIndex 18), (Z.gtb_spec currBit 4); cbn [orb] in E.
  1-3: destruct (at_ ADPCM_INDEX_TABLE_2BIT _) as [delta|]; [|discriminate];
       cbn [mbind option_bind] in E; injection E as <- <- <- <-; left; reflexivity.
  destruct (at_ ADPCM_INDEX_TABLE_4BIT _) as [delta|]; [|discriminate].
  cbn [mbind option_bind] in E. injection E as <- <- <- <-. right. lia.
Qed.

Lemma put_sample12 (a : list Z) i p :
  -2048 <= p <= 2047 -> Forall sample12 a -> Forall sample12 (put a i (p * 16)).
Proof.
  intros Hp H. unfold put. destruct (i <? 0); [assumption|].
  apply Forall_insert; [assumption|]. exists p. lia.
Qed.

Lemma kwz_byteLoop_count fuel : forall currByte currBit v h,
  0 <= stepIndex v <= 79 -> Forall sample12 (output v) ->
  currBit = 2 * h -> 0 <= h <= 4 -> 4 - h <= Z.of_nat fuel ->
  exists v', byteLoop fuel currByte currBit v = Some v' /\
    0 <= stepIndex v' <= 79 /\ Forall sample12 (output v') /\
    length (output v') = length (output v) /\
    4 - h <= 2 * (outputPtr v' - outputPtr v) /\
    outputPtr v' - outputPtr v <= 4 - h.
Proof.
  induction fuel as [|fuel IH]; intros currByte currBit v h Hi Ho -> Hh Hfuel.
  - cbn [byteLoop]. destruct (Z.ltb_spec (2 * h) 8); [lia|].
    exists v. repeat split; try assumption; lia.
  - cbn [byteLoop]. destruct (Z.ltb_spec (2 * h) 8).
    2:{ exists v. repeat split; try assumption; lia. }
    destruct (kwz_decodeSample_step currByte (2 * h) (stepIndex v) (predictor v) Hi)
      as (byte' & bit' & si & p & -> & Hbit & Hsi & Hp & Ht).
    cbn [mbind option_bind]. rewrite Ht.
    set (v1 := mk p si (outputPtr v + 1) (put (output v) (outputPtr v) (p * 16))).
    assert (Ho1 : Forall sample12 (output v1)) by (apply put_sample12; assumption).
    assert (Hl1 : length (output v1) = length (output v)) by apply length_put.
    destruct Hbit as [-> | [-> Hb]].
    + destruct (IH byte' (2 * h + 2) v1 (h + 1) Hsi Ho1 ltac:(lia) ltac:(lia)
                  ltac:(lia)) as (v' & E & Hi' & Ho' & Hl' & Hlo & Hhi).
      exists v'. split; [exact E|]. cbn [outputPtr v1] in Hlo, Hhi.
      repeat split; try assumption; try congruence; lia.
    + destruct (IH byte' (2 * h + 4) v1 (h + 2) Hsi Ho1 ltac:(lia) ltac:(lia)
                  ltac:(lia)) as (v' & E & Hi' & Ho' & Hl' & Hlo & Hhi).
      exists v'. split; [exact E|]. cbn [outputPtr v1] in Hlo, Hhi.
      repeat split; try assumption; try congruence; lia.
Qed.

Lemma kwz_trackLoop_count adpcm : forall v,
  0 <= stepIndex v <= 79 -> Forall sample12 (output v) ->
  exists v', trackLoop adpcm v = Some v' /\
    0 <= stepIndex v' <= 79 /\ Forall sample12 (output v') /\
    length (output v') = length (output v) /\
    2 * Z.of_nat (length adpcm) <= outputPtr v' - outputPtr v
      <= 4 * Z.of_nat (length adpcm).
Proof.
  induction adpcm as [|b rest IH]; intros v Hi Ho.
  - exists v. cbn [trackLoop length]. repeat split; try assumption; lia.
  - cbn [trackLoop].
    destruct (kwz_byteLoop_count 4 b 0 v 0 Hi Ho ltac:(lia) ltac:(lia) ltac:(lia))
      as (v1 & -> & Hi1 & Ho1 & Hl1 & Hlo1 & Hhi1).
    cbn [mbind option_bind].
    destruct (IH v1 Hi1 Ho1) as (v' & E & Hi' & Ho' & Hl' & Hc).
    exists v'. split; [exact E|]. cbn [length].
    repeat split; try assumption; try congruence; lia.
Qed.

(** X10.  [KwzParser.decodeAudioTrack] returns for every track, whatever
    its bytes and the settings: each byte gives two to four samples, so a
    track of [n] bytes gives between [2n] and [4n] samples, as far as the
    buffer of 16364 * 60 samples reaches; and every sample is 16 times a
    value from -2048 to 2047. *)
Theorem kwz_track_sample_count (cleanerAudio dsiLibraryNote : bool) (adpcm : list Z) :
  exists out,
    decodeAudioTrack cleanerAudio dsiLibraryNote adpcm = Some out /\
    Forall sample12 out /\
    Z.of_nat (length out) <= 981840 /\
    Z.min (2 * Z.of_nat (length adpcm)) 981840 <= Z.of_nat (length out)
      <= 4 * Z.of_nat (length adpcm).
Proof.
  unfold decodeAudioTrack.
  set (out0 := replicate (Z.to_nat (16364 * 60)) 0).
  assert (H0 : Forall sample12 out0).
  { apply Forall_replicate. exists 0. lia. }
  assert (L0 : Z.of_nat (length out0) = 981840).
  { subst out0. rewrite length_replicate. lia. }
  clearbody out0.
  destruct (kwz_trackLoop_count adpcm
              (mk 0 (if cleanerAudio && negb dsiLibraryNote then 0 else 40) 0 out0))
    as (v' & -> & _ & Ho & Hl & Hc).
  - cbn [stepIndex]. destruct (cleanerAudio && negb dsiLibraryNote); lia.
  - exact H0.
  - cbn [mbind option_bind outputPtr output] in *.
    eexists. split; [reflexivity|].
    split; [apply Forall_take; exact Ho|].
    rewrite length_take. lia.
Qed.

End KwzAudioCount.

Section MixFacts.

Lemma at_cons (s : Z) (rest : list Z) (k : Z) :
  at_ (s :: rest) k = if k =? 0 then Some s else at_ rest (k - 1).
Proof.
  unfold at_. destruct (Z.eqb_spec k 0) as [->|Hk]; [reflexivity|].
  destruct (Z.ltb_spec k 0), (Z.ltb_spec (k - 1) 0); try lia; try reflexivity.
  replace (Z.to_nat k) with (S (Z.to_nat (k - 1))) by lia. reflexivity.
Qed.

Lemma at_nil (k : Z) : at_ [] k = None.
Proof. unfold at_. destruct (k <? 0); reflexivity. Qed.

Lemma at_in_length (a : list Z) q d : at_ a q = Some d -> 0 <= q < Z.of_nat (length a).
Proof.
  unfold at_. destruct (Z.ltb_spec q 0); [discriminate|].
  intros E. apply lookup_lt_Some in E. lia.
Qed.

(** The two loops are the same loop over different sums. *)
Section Loop.
Variable mix : Z -> Z -> Z.
Variable loop : list Z -> Z -> Z -> Z -> list Z -> list Z -> list Z * list Z.
Hypothesis loop_nil : forall n off size dst stores,
  loop [] n off size dst stores = (dst, stores).
Hypothesis loop_cons : forall s rest n off size dst stores,
  loop (s :: rest) n off size dst stores
  = if off + n >? size then (dst, stores)
    else loop rest (n + 1) off size
           (match at_ dst (off + n) with
            | Some d => put dst (off + n) (JS.toInt16 (mix d s))
            | None => dst
            end) (stores ++ [off + n]).
Hypothesis mix_int16 : forall d s, int16 (mix d s).

Lemma mix_loop_window src : forall n off dst stores,
  0 <= n ->
  let out := fst (loop src n off (Z.of_nat (length dst)) dst stores) in
  length out = length dst /\
  (Forall int16 dst -> Forall int16 out) /\
  forall q d, at_ dst q = Some d ->
    at_ out q = Some (mixedAt mix src (off + n) q d).
Proof.
  induction src as [|s rest IH]; intros n off dst stores Hn; cbv zeta.
  - rewrite loop_nil. cbn [fst]. split; [reflexivity|]. split; [auto|].
    intros q d E. rewrite E. unfold mixedAt. rewrite at_nil. reflexivity.
  - rewrite loop_cons.
    destruct (Z.gtb_spec (off + n) (Z.of_nat (length dst))) as [Hbreak|Hgo].
    + cbn [fst]. split; [reflexivity|]. split; [auto|].
      intros q d E. pose proof (at_in_length _ _ _ E) as Hq.
      unfold mixedAt, at_ at 2. destruct (Z.ltb_spec (q - (off + n)) 0); [|lia].
      exact E.
    + set (dst' := match at_ dst (off + n) with
                   | Some d => put dst (off + n) (JS.toInt16 (mix d s))
                   | None => dst
                   end).
      assert (Hl : length dst' = length dst).
      { subst dst'. destruct (at_ dst (off + n)); [apply length_put | reflexivity]. }
      assert (Hi : Forall int16 dst -> Forall int16 dst').
      { intros H. subst dst'. destruct (at_ dst (off + n)); [|exact H].
        apply put_int16, H. }
      assert (Hat : forall q d, at_ dst q = Some d ->
                at_ dst' q = Some (if q =? off + n then mix d s else d)).
      { intros q d E. pose proof (at_in_length _ _ _ E) as Hq. subst dst'.
        destruct (Z.eqb_spec q (off + n)) as [->|Hne].
        - rewrite E. rewrite at_put, Z.eqb_refl by exact Hq.
          f_equal. apply toInt16_small.
          pose proof (mix_int16 d s) as Hm. unfold int16 in Hm. lia.
        - destruct (at_ dst (off + n)); [|exact E].
          rewrite at_put by exact Hq.
          destruct (Z.eqb_spec q (off + n)); [lia | exact E]. }
      pose proof (IH (n + 1) off dst' stores) as IH'.
      specialize (IH (n + 1) off dst' (stores ++ [off + n]) ltac:(lia)).
      cbv zeta in IH. rewrite Hl in IH. destruct IH as (IHl & IHi & IHat).
      split; [exact IHl|]. split; [auto|].
      intros q d E. rewrite (IHat q _ (Hat q d E)). f_equal.
      unfold mixedAt. rewrite (at_cons s rest (q - (off + n))).
      replace (q - (off + (n + 1))) with (q - (off + n) - 1) by lia.
      destruct (Z.eqb_spec q (off + n)) as [->|Hne].
      * replace (off + n - (off + n)) with 0 by lia. cbn [Z.eqb].
        unfold at_. cbn [Z.sub Z.opp Z.add Z.ltb Z.compare]. reflexivity.
      * destruct (Z.eqb_spec (q - (off + n)) 0); [lia | reflexivity].
Qed.

End Loop.

Lemma clamp_int16 n : int16 (clamp n (-32768) 32767).
Proof. pose proof (clamp_range n (-32768) 32767 ltac:(lia)). exact H. Qed.

Lemma half_mix_int16 d s : int16 (half_mix d s).
Proof.
  unfold half_mix, int16.
  destruct (Z.ltb_spec (2 * d + s) (2 * -32768)); [lia|].
  destruct (Z.gtb_spec (2 * d + s) (2 * 32767)); [lia|].
  pose proof (Z.quot_le_mono (2 * -32768) (2 * d + s) 2 ltac:(lia) ltac:(lia)) as H1.
  pose proof (Z.quot_le_mono (2 * d + s) (2 * 32767) 2 ltac:(lia) ltac:(lia)) as H2.
  change (Z.quot (2 * -32768) 2) with (-32768) in H1.
  change (Z.quot (2 * 32767) 2) with 32767 in H2. lia.
Qed.

(** X11.  [pcmAudioMix] changes the master track only where the source
    lies over it, from [dstOffset] on: there the sample becomes the sum
    with the source sample, clamped to 16 bits (in format A the source at
    half volume, the half rounded towards zero), and every other sample
    stays as it was.  The track keeps its length, and its samples stay
    signed 16-bit values. *)
Theorem pcmAudioMix_window (src dst : list Z) (dstOffset : Z) :
  Forall int16 dst ->
  let kwz := fst (kwz_pcmAudioMix src dst dstOffset) in
  let ppm := fst (ppm_pcmAudioMix src dst dstOffset) in
  length kwz = length dst /\ Forall int16 kwz /\
  length ppm = length dst /\ Forall int16 ppm /\
  forall q d, at_ dst q = Some d ->
    at_ kwz q
    = Some (mixedAt (fun d s => clamp (d + s) (-32768) 32767) src dstOffset q d) /\
    at_ ppm q = Some (mixedAt half_mix src dstOffset q d).
Proof.
  intros Hd. cbv zeta. unfold kwz_pcmAudioMix, ppm_pcmAudioMix.
  destruct (mix_loop_window (fun d s => clamp (d + s) (-32768) 32767) kwz_mix_loop
              ltac:(reflexivity) ltac:(reflexivity)
              ltac:(intros; apply clamp_int16) src 0 dstOffset dst [] ltac:(lia))
    as (Kl & Ki & Kat).
  destruct (mix_loop_window half_mix ppm_mix_loop
              ltac:(reflexivity) ltac:(reflexivity)
              ltac:(intros; apply half_mix_int16) src 0 dstOffset dst [] ltac:(lia))
    as (Pl & Pi & Pat).
  rewrite Z.add_0_r in Kat, Pat.
  repeat split; auto.
Qed.

Lemma pcmAudioMix_window_witness :
  let kwz := fst (kwz_pcmAudioMix [30000; -7] [0; 10000; 5; 9] 1) in
  let ppm := fst (ppm_pcmAudioMix [30000; -7] [0; 10000; 5; 9] 1) in
  length kwz = 4%nat /\ Forall int16 kwz /\
  length ppm = 4%nat /\ Forall int16 ppm /\
  forall q d, at_ [0; 10000; 5; 9] q = Some d ->
    at_ kwz q
    = Some (mixedAt (fun d s => clamp (d + s) (-32768) 32767) [30000; -7] 1 q d) /\
    at_ ppm q = Some (mixedAt half_mix [30000; -7] 1 q d).
Proof.
  apply (pcmAudioMix_window [30000; -7] [0; 10000; 5; 9] 1).
  repeat (constructor; [unfold int16; lia|]). constructor.
Defined.

End MixFacts.

(** ** The byte cursor: what is written is read back *)

Section DataStreamWriteFacts.
Import DataStream DataStreamWrite.

Lemma length_le_bytes size : forall v, length (le_bytes size v) = size.
Proof. induction size as [|size IH]; intros v; cbn [le_bytes length]; auto. Qed.

Lemma le_bytes_uint8 size : forall v, Forall uint8 (le_bytes size v).
Proof.
  induction size as [|size IH]; intros v; cbn [le_bytes]; constructor; [|apply IH].
  unfold uint8. apply Z.mod_pos_bound. lia.
Qed.

Lemma le_value_le_bytes size : forall v,
  le_value (le_bytes size v) = v mod 2 ^ (8 * Z.of_nat size).
Proof.
  induction size as [|size IH]; intros v; cbn [le_bytes le_value].
  - cbn. rewrite Z.mod_1_r. reflexivity.
  - rewrite IH. rewrite Nat2Z.inj_succ.
    replace (8 * Z.succ (Z.of_nat size)) with (8 + 8 * Z.of_nat size) by lia.
    rewrite Z.pow_add_r by lia. change (2 ^ 8) with 256.
    assert (0 < 2 ^ (8 * Z.of_nat size)) by (apply Z.pow_pos_nonneg; lia).
    rewrite (Z.rem_mul_r v 256 (2 ^ (8 * Z.of_nat size))) by lia. reflexivity.
Qed.

(** A store, and what a load at the same place finds. *)
Lemma setBytes_spec ds off bs :
  0 <= off -> off + Z.of_nat (length bs) <= byteLength ds ->
  exists ds',
    setBytes ds off bs = Some ds' /\ pointer ds' = pointer ds /\
    length (buffer ds') = length (buffer ds) /\
    (forall q, q < off \/ off + Z.of_nat (length bs) <= q ->
               at_ (buffer ds') q = at_ (buffer ds) q) /\
    (Forall uint8 (buffer ds) -> Forall uint8 bs -> Forall uint8 (buffer ds')) /\
    forall p, getBytes (mk (buffer ds') p) off (Z.of_nat (length bs)) = Some bs.
Proof.
  intros H0 H1. unfold setBytes, byteLength in *.
  destruct (Z.leb_spec 0 off); [|lia].
  destruct (Z.leb_spec (off + Z.of_nat (length bs)) (Z.of_nat (length (buffer ds))));
    [|lia].
  cbn [andb]. eexists. split; [reflexivity|]. cbn [pointer buffer].
  set (buf := buffer ds) in *.
  assert (Hlt : length (take (Z.to_nat off) buf) = Z.to_nat off)
    by (rewrite length_take; lia).
  split; [reflexivity|]. split; [|split; [|split]].
  - rewrite !length_app, Hlt, length_drop. lia.
  - intros q Hq. unfold at_. destruct (Z.ltb_spec q 0); [reflexivity|].
    destruct Hq as [Hq|Hq].
    + rewrite lookup_app_l by (rewrite Hlt; lia).
      apply lookup_take_lt. lia.
    + rewrite lookup_app_r by (rewrite Hlt; lia).
      rewrite lookup_app_r by (rewrite Hlt; lia).
      rewrite lookup_drop. f_equal. rewrite Hlt. lia.
  - intros Hb Hbs. apply Forall_app. split; [apply Forall_take, Hb|].
    apply Forall_app. split; [exact Hbs | apply Forall_drop, Hb].
  - intros p. unfold getBytes, byteLength. cbn [buffer].
    rewrite !length_app, Hlt, length_drop.
    destruct (Z.leb_spec 0 off); [|lia].
    match goal with |- context [?a <=? ?b] => destruct (Z.leb_spec a b); [|lia] end.
    cbn [andb]. f_equal.
    rewrite drop_app_length' by (symmetry; exact Hlt).
    rewrite Nat2Z.id. apply take_app_length.
Qed.

Lemma setBytes_None ds off bs :
  byteLength ds < off + Z.of_nat (length bs) -> setBytes ds off bs = None.
Proof.
  intros H. unfold setBytes.
  destruct (Z.leb_spec (off + Z.of_nat (length bs)) (byteLength ds)); [lia|].
  rewrite andb_false_r. reflexivity.
Qed.

Lemma length_endian (le : bool) (bs : list Z) :
  length (if le then bs else rev bs) = length bs.
Proof. destruct le; [reflexivity | apply length_rev]. Qed.

Lemma setUint_spec ds off (size : nat) le v :
  0 <= off -> off + Z.of_nat size <= byteLength ds ->
  exists ds',
    setUint ds off (Z.of_nat size) le v = Some ds' /\ pointer ds' = pointer ds /\
    length (buffer ds') = length (buffer ds) /\
    (forall q, q < off \/ off + Z.of_nat size <= q ->
               at_ (buffer ds') q = at_ (buffer ds) q) /\
    (Forall uint8 (buffer ds) -> Forall uint8 (buffer ds')) /\
    forall p, getUint (mk (buffer ds') p) off (Z.of_nat size) le
              = Some (v mod 2 ^ (8 * Z.of_nat size)).
Proof.
  intros H0 H1. unfold setUint. rewrite Nat2Z.id.
  set (bs := if le then le_bytes size v else rev (le_bytes size v)).
  assert (Hl : length bs = size).
  { subst bs. rewrite length_endian. apply length_le_bytes. }
  destruct (setBytes_spec ds off bs H0 ltac:(lia))
    as (ds' & E & Hp & Hlen & Hout & Hu & Hget).
  exists ds'. rewrite Hl in *. repeat (split; [assumption|]). split.
  - intros Hb. apply Hu; [exact Hb|]. subst bs.
    destruct le; [|apply Forall_rev]; apply le_bytes_uint8.
  - intros p. unfold getUint. rewrite Hget. cbn [mbind option_bind]. f_equal.
    subst bs. destruct le; [|rewrite rev_involutive]; apply le_value_le_bytes.
Qed.

Lemma signed_wrap bits v :
  0 < bits ->
  let r := signed bits (v mod 2 ^ bits) in
  - 2 ^ (bits - 1) <= r < 2 ^ (bits - 1) /\ (r - v) mod 2 ^ bits = 0.
Proof.
  intros Hb. cbv zeta. unfold signed.
  assert (Hp : 2 ^ bits = 2 * 2 ^ (bits - 1)).
  { replace bits with (1 + (bits - 1)) at 1 by lia. rewrite Z.pow_add_r by lia.
    reflexivity. }
  assert (0 < 2 ^ (bits - 1)) by (apply Z.pow_pos_nonneg; lia).
  pose proof (Z.mod_pos_bound v (2 ^ bits) ltac:(lia)) as Hm.
  pose proof (Z.div_mod v (2 ^ bits) ltac:(lia)) as Hd.
  destruct (Z.ltb_spec (v mod 2 ^ bits) (2 ^ (bits - 1))).
  - split; [lia|].
    replace (v mod 2 ^ bits - v) with (- (v / 2 ^ bits) * 2 ^ bits) by lia.
    apply Z.mod_mul. lia.
  - split; [lia|].
    replace (v mod 2 ^ bits - 2 ^ bits - v) with ((- (v / 2 ^ bits) - 1) * 2 ^ bits)
      by lia.
    apply Z.mod_mul. lia.
Qed.

Lemma unsigned_wrap bits v :
  0 < bits ->
  let r := v mod 2 ^ bits in
  0 <= r < 2 ^ bits /\ (r - v) mod 2 ^ bits = 0.
Proof.
  intros Hb. cbv zeta.
  assert (0 < 2 ^ bits) by (apply Z.pow_pos_nonneg; lia).
  split; [apply Z.mod_pos_bound; lia|].
  pose proof (Z.div_mod v (2 ^ bits) ltac:(lia)) as Hd.
  replace (v mod 2 ^ bits - v) with (- (v / 2 ^ bits) * 2 ^ bits) by lia.
  apply Z.mod_mul. lia.
Qed.

(** Two values of a type that agree modulo its width are the same. *)
Lemma in_range_unique ty r v :
  in_range ty r -> in_range ty v -> (r - v) mod 2 ^ (8 * width ty) = 0 -> r = v.
Proof.
  intros Hr Hv Hm.
  assert (Hw : 0 < 8 * width ty) by (destruct ty; cbn; lia).
  assert (Hp : 2 ^ (8 * width ty) = 2 * 2 ^ (8 * width ty - 1)).
  { replace (8 * width ty) with (1 + (8 * width ty - 1)) at 1 by lia.
    rewrite Z.pow_add_r by lia. reflexivity. }
  assert (0 < 2 ^ (8 * width ty - 1)) by (apply Z.pow_pos_nonneg; lia).
  apply Z.mod_divide in Hm; [|lia]. destruct Hm as [k Hk].
  assert (- 2 ^ (8 * width ty) < r - v < 2 ^ (8 * width ty))
    by (destruct ty; unfold in_range in Hr, Hv; lia).
  assert (k = 0) by nia. lia.
Qed.

(** X12.  A typed write at a pointer inside the buffer stores the value
    in the bytes the type takes and moves the pointer past them, leaving
    every other byte as it was; the read of the same type at the same
    place then returns a value of the type that equals the one written
    modulo the width of the type, so a value of the type is read back
    unchanged.  A write that does not fit fails and stores nothing. *)
Theorem write_then_read (ds : t) (ty : typed) (littleEndian : bool) (value : Z) :
  0 <= pointer ds ->
  (byteLength ds < pointer ds + width ty -> write ty littleEndian value ds = None) /\
  (pointer ds + width ty <= byteLength ds ->
   exists ds' r,
     write ty littleEndian value ds = Some ds' /\
     pointer ds' = pointer ds + width ty /\
     byteLength ds' = byteLength ds /\
     (forall q, q < pointer ds \/ pointer ds + width ty <= q ->
                at_ (buffer ds') q = at_ (buffer ds) q) /\
     (Forall uint8 (buffer ds) -> Forall uint8 (buffer ds')) /\
     read ty littleEndian (seek (pointer ds) 0 ds') = Some (r, ds') /\
     in_range ty r /\ (r - value) mod 2 ^ (8 * width ty) = 0 /\
     (in_range ty value -> r = value)).
Proof.
  intros H0. split.
  - intros Hout.
    assert (E : forall (size : nat) le, width ty = Z.of_nat size ->
              setUint ds (pointer ds) (Z.of_nat size) le value = None).
    { intros size le Hs. unfold setUint. apply setBytes_None.
      rewrite length_endian, Nat2Z.id, length_le_bytes. lia. }
    destruct ty; cbn [write];
      unfold writeUint8, writeInt8, writeUint16, writeInt16, writeUint32, writeInt32.
    1,2: change 1 with (Z.of_nat 1); rewrite (E 1%nat true) by reflexivity;
         reflexivity.
    1,2: change 2 with (Z.of_nat 2); rewrite (E 2%nat littleEndian) by reflexivity;
         reflexivity.
    1,2: change 4 with (Z.of_nat 4); rewrite (E 4%nat littleEndian) by reflexivity;
         reflexivity.
  - intros Hin.
    assert (Hset : forall (size : nat) le, width ty = Z.of_nat size ->
              exists ds1,
                setUint ds (pointer ds) (Z.of_nat size) le value = Some ds1 /\
                pointer ds1 = pointer ds /\
                length (buffer ds1) = length (buffer ds) /\
                (forall q, q < pointer ds \/ pointer ds + Z.of_nat size <= q ->
                           at_ (buffer ds1) q = at_ (buffer ds) q) /\
                (Forall uint8 (buffer ds) -> Forall uint8 (buffer ds1)) /\
                forall p, getUint (mk (buffer ds1) p) (pointer ds) (Z.of_nat size) le
                          = Some (value mod 2 ^ (8 * Z.of_nat size))).
    { intros size le Hs. apply setUint_spec; lia. }
    assert (Hfin : forall r, in_range ty r ->
              (r - value) mod 2 ^ (8 * width ty) = 0 ->
              in_range ty r /\ (r - value) mod 2 ^ (8 * width ty) = 0 /\
              (in_range ty value -> r = value)).
    { intros r Hr Hm. split; [exact Hr|]. split; [exact Hm|].
      intros Hv. apply (in_range_unique ty); assumption. }
    unfold seek. cbn [Z.eqb].
    destruct ty; cbn [write read width] in *;
      unfold writeUint8, writeInt8, writeUint16, writeInt16, writeUint32, writeInt32,
        readUint8, readInt8, readUint16, readInt16, readUint32, readInt32, getInt.
    + destruct (Hset 1%nat true eq_refl) as (ds1 & E & Hp & Hl & Hq & Hu & Hg).
      change (Z.of_nat 1) with 1 in *. rewrite E. cbn [mbind option_bind].
      eexists _, _. split; [reflexivity|]. unfold advance, byteLength.
      cbn [pointer buffer]. rewrite Hp, Hl. do 4 (split; [auto|]).
      rewrite Hg. cbn [mbind option_bind]. split; [reflexivity|].
      apply Hfin; apply (unsigned_wrap 8 value); lia.
    + destruct (Hset 1%nat true eq_refl) as (ds1 & E & Hp & Hl & Hq & Hu & Hg).
      change (Z.of_nat 1) with 1 in *. rewrite E. cbn [mbind option_bind].
      eexists _, _. split; [reflexivity|]. unfold advance, byteLength.
      cbn [pointer buffer]. rewrite Hp, Hl. do 4 (split; [auto|]).
      rewrite Hg. cbn [mbind option_bind]. split; [reflexivity|].
      apply Hfin; apply (signed_wrap 8 value); lia.
    + destruct (Hset 2%nat littleEndian eq_refl)
        as (ds1 & E & Hp & Hl & Hq & Hu & Hg).
      change (Z.of_nat 2) with 2 in *. rewrite E. cbn [mbind option_bind].
      eexists _, _. split; [reflexivity|]. unfold advance, byteLength.
      cbn [pointer buffer]. rewrite Hp, Hl. do 4 (split; [auto|]).
      rewrite Hg. cbn [mbind option_bind]. split; [reflexivity|].
      apply Hfin; apply (unsigned_wrap 16 value); lia.
    + destruct (Hset 2%nat littleEndian eq_refl)
        as (ds1 & E & Hp & Hl & Hq & Hu & Hg).
      change (Z.of_nat 2) with 2 in *. rewrite E. cbn [mbind option_bind].
      eexists _, _. split; [reflexivity|]. unfold advance, byteLength.
      cbn [pointer buffer]. rewrite Hp, Hl. do 4 (split; [auto|]).
      rewrite Hg. cbn [mbind option_bind]. split; [reflexivity|].
      apply Hfin; apply (signed_wrap 16 value); lia.
    + destruct (Hset 4%nat littleEndian eq_refl)
        as (ds1 & E & Hp & Hl & Hq & Hu & Hg).
      change (Z.of_nat 4) with 4 in *. rewrite E. cbn [mbind option_bind].
      eexists _, _. split; [reflexivity|]. unfold advance, byteLength.
      cbn [pointer buffer]. rewrite Hp, Hl. do 4 (split; [auto|]).
      rewrite Hg. cbn [mbind option_bind]. split; [reflexivity|].
      apply Hfin; apply (unsigned_wrap 32 value); lia.
    + destruct (Hset 4%nat littleEndian eq_refl)
        as (ds1 & E & Hp & Hl & Hq & Hu & Hg).
      change (Z.of_nat 4) with 4 in *. rewrite E. cbn [mbind option_bind].
      eexists _, _. split; [reflexivity|]. unfold advance, byteLength.
      cbn [pointer buffer]. rewrite Hp, Hl. do 4 (split; [auto|]).
      rewrite Hg. cbn [mbind option_bind]. split; [reflexivity|].
      apply Hfin; apply (signed_wrap 32 value); lia.
Qed.

Lemma write_then_read_witness :
  (byteLength (mk [1; 2; 3; 4; 5] 1) < 1 + 2 ->
   write Int16 false (-2) (mk [1; 2; 3; 4; 5] 1) = None) /\
  (1 + 2 <= byteLength (mk [1; 2; 3; 4; 5] 1) ->
   exists ds' r,
     write Int16 false (-2) (mk [1; 2; 3; 4; 5] 1) = Some ds' /\
     pointer ds' = 1 + 2 /\
     byteLength ds' = byteLength (mk [1; 2; 3; 4; 5] 1) /\
     (forall q, q < 1 \/ 1 + 2 <= q ->
                at_ (buffer ds') q = at_ [1; 2; 3; 4; 5] q) /\
     (Forall uint8 [1; 2; 3; 4; 5] -> Forall uint8 (buffer ds')) /\
     read Int16 false (seek 1 0 ds') = Some (r, ds') /\
     in_range Int16 r /\ (r - -2) mod 2 ^ (8 * 2) = 0 /\
     (in_range Int16 (-2) -> r = -2)).
Proof.
  apply (write_then_read (mk [1; 2; 3; 4; 5] 1) Int16 false (-2)).
  cbn. lia.
Defined.


(** One byte written is one byte of the buffer replaced. *)
Lemma writeUint8_app (A Y : list Z) (x c : Z) :
  writeUint8 c (mk (A ++ x :: Y) (Z.of_nat (length A)))
  = Some (mk ((A ++ [c mod 256]) ++ Y) (Z.of_nat (length (A ++ [c mod 256])))).
Proof.
  unfold writeUint8, setUint, setBytes, byteLength.
  change (le_bytes (Z.to_nat 1) c) with [c mod 256]. cbn [length buffer pointer].
  rewrite length_app. cbn [length].
  destruct (Z.leb_spec 0 (Z.of_nat (length A))); [|lia].
  match goal with |- context [?a <=? ?b] => destruct (Z.leb_spec a b); [|lia] end.
  cbn [andb mbind option_bind]. unfold advance. cbn [buffer pointer].
  rewrite Nat2Z.id, take_app_length.
  replace (length A + 1)%nat with (length (A ++ [x]))
    by (rewrite length_app; reflexivity).
  change (A ++ x :: Y) with (A ++ [x] ++ Y). rewrite (app_assoc A [x] Y).
  rewrite drop_app_length. rewrite <- app_assoc. f_equal. f_equal.
  rewrite !length_app. cbn [length]. lia.
Qed.

Lemma writeChars_app string : forall (A X B : list Z),
  length X = length string ->
  writeChars string (mk (A ++ X ++ B) (Z.of_nat (length A)))
  = Some (mk (A ++ map (fun c => c mod 256) string ++ B)
             (Z.of_nat (length A) + Z.of_nat (length string))).
Proof.
  induction string as [|c rest IH]; intros A X B Hl.
  - destruct X; [|discriminate]. cbn [writeChars map length app].
    rewrite Z.add_0_r. reflexivity.
  - destruct X as [|x X]; [discriminate|]. cbn [length] in Hl.
    cbn [writeChars]. change ((x :: X) ++ B) with (x :: (X ++ B)).
    rewrite writeUint8_app. cbn [mbind option_bind].
    rewrite (IH (A ++ [c mod 256]) X B) by lia.
    rewrite <- app_assoc. cbn [map app length]. f_equal. f_equal.
    rewrite length_app. cbn [length]. lia.
Qed.

(** A buffer, cut at a field. *)
Lemma buffer_cut (buf : list Z) (p n : nat) :
  (p + n <= length buf)%nat ->
  buf = take p buf ++ take n (drop p buf) ++ drop (p + n) buf /\
  length (take p buf) = p /\ length (take n (drop p buf)) = n.
Proof.
  intros H. split; [|split].
  - rewrite <- drop_drop, (take_drop n (drop p buf)), take_drop. reflexivity.
  - rewrite length_take. lia.
  - rewrite length_take, length_drop. lia.
Qed.

Lemma writeChars_spec string ds :
  0 <= pointer ds -> pointer ds + Z.of_nat (length string) <= byteLength ds ->
  writeChars string ds
  = Some (mk (take (Z.to_nat (pointer ds)) (buffer ds)
              ++ map (fun c => c mod 256) string
              ++ drop (Z.to_nat (pointer ds) + length string) (buffer ds))
             (pointer ds + Z.of_nat (length string))).
Proof.
  intros H0 H1. unfold byteLength in H1.
  destruct (buffer_cut (buffer ds) (Z.to_nat (pointer ds)) (length string)
              ltac:(lia)) as (Hcut & Hp & Hx).
  set (A := take (Z.to_nat (pointer ds)) (buffer ds)) in *.
  set (X := take (length string) (drop (Z.to_nat (pointer ds)) (buffer ds))) in *.
  set (B := drop (Z.to_nat (pointer ds) + length string) (buffer ds)) in *.
  replace ds with (mk (A ++ X ++ B) (Z.of_nat (length A))) at 1.
  2:{ destruct ds as [buf p]. cbn [buffer pointer] in *. rewrite <- Hcut. f_equal.
      lia. }
  rewrite (writeChars_app string A X B Hx). f_equal. f_equal. lia.
Qed.

Lemma untilZero_id (s : list Z) : Forall (fun c => c <> 0) s -> untilZero s = s.
Proof.
  induction 1 as [|c s Hc _ IH]; [reflexivity|].
  cbn [untilZero]. destruct (Z.eqb_spec c 0); [contradiction|]. rewrite IH.
  reflexivity.
Qed.

(** X13.  [writeChars] stores the character codes of a string, modulo
    256, one per byte from the pointer on and moves the pointer past
    them; [readChars] over the same bytes returns the characters up to
    the first NUL.  A string of characters from 1 to 255 is read back as
    it was written. *)
Theorem chars_written_read (ds : t) (string : list Z) :
  0 <= pointer ds -> pointer ds + Z.of_nat (length string) <= byteLength ds ->
  exists ds',
    writeChars string ds = Some ds' /\
    pointer ds' = pointer ds + Z.of_nat (length string) /\
    byteLength ds' = byteLength ds /\
    (forall q, q < pointer ds \/ pointer ds + Z.of_nat (length string) <= q ->
               at_ (buffer ds') q = at_ (buffer ds) q) /\
    readChars (Z.of_nat (length string)) (seek (pointer ds) 0 ds')
    = Some (untilZero (map (fun c => c mod 256) string), ds') /\
    (Forall (fun c => 1 <= c <= 255) string ->
     readChars (Z.of_nat (length string)) (seek (pointer ds) 0 ds')
     = Some (string, ds')).
Proof.
  intros H0 H1. rewrite (writeChars_spec string ds H0 H1).
  eexists. split; [reflexivity|]. cbn [pointer buffer].
  unfold byteLength in H1 |- *.
  set (p := Z.to_nat (pointer ds)) in *. set (buf := buffer ds) in *.
  set (bs := map (fun c => c mod 256) string).
  assert (Hp : length (take p buf) = p) by (rewrite length_take; lia).
  assert (Hb : length bs = length string) by apply length_map.
  assert (Hlen : length (take p buf ++ bs ++ drop (p + length string) buf)
                 = length buf).
  { rewrite !length_app, Hp, Hb, length_drop. lia. }
  split; [reflexivity|]. split; [cbn [buffer]; lia|].
  assert (Hread : readChars (Z.of_nat (length string))
                    (seek (pointer ds) 0
                       (mk (take p buf ++ bs ++ drop (p + length string) buf)
                           (pointer ds + Z.of_nat (length string))))
                  = Some (untilZero bs,
                          mk (take p buf ++ bs ++ drop (p + length string) buf)
                             (pointer ds + Z.of_nat (length string)))).
  { unfold seek. cbn [Z.eqb]. unfold readChars, readBytes, getBytes, byteLength.
    cbn [buffer pointer]. rewrite Hlen.
    destruct (Z.leb_spec 0 (Z.of_nat (length string))); [|lia].
    destruct (Z.leb_spec 0 (pointer ds)); [|lia].
    destruct (Z.leb_spec (pointer ds + Z.of_nat (length string))
                (Z.of_nat (length buf))); [|lia].
    cbn [andb mbind option_bind]. unfold advance. cbn [buffer pointer].
    f_equal. f_equal. f_equal.
    fold p. rewrite drop_app_length' by (symmetry; exact Hp).
    rewrite Nat2Z.id, <- Hb. apply take_app_length. }
  split; [|split; [exact Hread|]].
  - intros q Hq. unfold at_. destruct (Z.ltb_spec q 0); [reflexivity|].
    destruct Hq as [Hq|Hq].
    + rewrite lookup_app_l by (rewrite Hp; lia). apply lookup_take_lt. lia.
    + rewrite lookup_app_r by (rewrite Hp; lia).
      rewrite lookup_app_r by (rewrite Hp, Hb; lia).
      rewrite lookup_drop. f_equal. rewrite Hp, Hb. lia.
  - intros Hs. rewrite Hread. f_equal. f_equal.
    assert (Ebs : bs = string).
    { subst bs. clear -Hs. induction Hs as [|c s Hc _ IH]; [reflexivity|].
      cbn [map]. rewrite IH, Z.mod_small by lia. reflexivity. }
    rewrite Ebs. apply untilZero_id.
    eapply Forall_impl; [exact Hs|]. cbv beta. intros c Hc. lia.
Qed.

Lemma chars_written_read_witness :
  exists ds',
    writeChars [82; 73; 70; 70] (mk [0; 0; 0; 0; 0; 0] 1) = Some ds' /\
    pointer ds' = 1 + Z.of_nat 4 /\
    byteLength ds' = byteLength (mk [0; 0; 0; 0; 0; 0] 1) /\
    (forall q, q < 1 \/ 1 + Z.of_nat 4 <= q ->
               at_ (buffer ds') q = at_ [0; 0; 0; 0; 0; 0] q) /\
    readChars (Z.of_nat 4) (seek 1 0 ds')
    = Some (untilZero (map (fun c => c mod 256) [82; 73; 70; 70]), ds') /\
    (Forall (fun c => 1 <= c <= 255) [82; 73; 70; 70] ->
     readChars (Z.of_nat 4) (seek 1 0 ds') = Some ([82; 73; 70; 70], ds')).
Proof.
  apply (chars_written_read (mk [0; 0; 0; 0; 0; 0] 1) [82; 73; 70; 70]).
  - simpl. lia.
  - unfold byteLength. simpl. lia.
Defined.





End DataStreamWriteFacts.

(** ** The growing byte buffer *)

Section ByteArrayFacts.
Import ByteArray.

Lemma typed_set_app (done zs source : list Z) :
  (length source <= length zs)%nat ->
  typed_set (done ++ zs) source (Z.of_nat (length done))
  = Some (done ++ source ++ drop (length source) zs).
Proof.
  intros Hl. unfold typed_set. rewrite length_app.
  destruct (Z.leb_spec 0 (Z.of_nat (length done))); [|lia].
  match goal with |- context [?a <=? ?b] => destruct (Z.leb_spec a b); [|lia] end.
  cbn [andb]. rewrite Nat2Z.id, take_app_length. f_equal. f_equal. f_equal.
  rewrite <- drop_drop, drop_app_length. reflexivity.
Qed.

Lemma length_concat_pages (ps : list (list Z)) :
  Forall (fun page => Z.of_nat (length page) = pageSize) ps ->
  Z.of_nat (length (concat ps)) = Z.of_nat (length ps) * pageSize.
Proof.
  induction 1 as [|page ps Hp _ IH]; [reflexivity|].
  cbn [concat length]. rewrite length_app. lia.
Qed.

Lemma getDataLoop_spec b last : forall todo done zs index,
  Forall (fun page => Z.of_nat (length page) = pageSize) todo ->
  Z.of_nat (length last) = pageSize -> 0 <= pointer b <= pageSize ->
  index = currPageIndex b - Z.of_nat (length todo) ->
  Z.of_nat (length done) = index * pageSize ->
  Z.of_nat (length zs) = Z.of_nat (length todo) * pageSize + pointer b ->
  getDataLoop (todo ++ [last]) index b (done ++ zs)
  = Some (done ++ concat todo ++ take (Z.to_nat (pointer b)) last).
Proof.
  unfold pageSize.
  induction todo as [|page todo IH]; intros done zs index Ht Hlast Hp Hi Hd Hz.
  - cbn [app getDataLoop concat length] in *. unfold pageSize.
    destruct (Z.eqb_spec index (currPageIndex b)); [|lia].
    rewrite <- Hd. unfold subarray. rewrite Z.sub_0_r.
    change (drop (Z.to_nat 0) last) with last.
    rewrite typed_set_app by (rewrite length_take; lia).
    cbn [mbind option_bind]. f_equal. f_equal.
    rewrite drop_ge by (rewrite length_take; lia). apply app_nil_r.
  - apply Forall_cons_1 in Ht as [Hpage Ht]. cbn [length] in Hi, Hz.
    cbn [app getDataLoop concat]. unfold pageSize.
    destruct (Z.eqb_spec index (currPageIndex b)); [lia|].
    rewrite <- Hd. rewrite typed_set_app by lia. cbn [mbind option_bind].
    rewrite (app_assoc done page).
    rewrite (IH (done ++ page) (drop (length page) zs) (index + 1) Ht Hlast Hp);
      [rewrite <- !app_assoc; reflexivity | lia | rewrite length_app; lia
      | rewrite length_drop; lia].
Qed.

(** The pages hold what [getData] returns. *)
Lemma getData_holds b data : holds b data -> getData b = Some data.
Proof.
  intros (full & last & Ep & Hf & Hc & Hp & ->). unfold getData.
  rewrite Ep in Hf. apply Forall_app in Hf as [Hfull Hlast].
  apply Forall_cons_1 in Hlast as [Hlast _].
  unfold pageSize in *.
  destruct (Z.ltb_spec (currPageIndex b * 2048 + pointer b) 0); [lia|].
  rewrite Ep.
  change (replicate (Z.to_nat (currPageIndex b * 2048 + pointer b)) 0)
    with ([] ++ replicate (Z.to_nat (currPageIndex b * 2048 + pointer b)) 0).
  rewrite (getDataLoop_spec b last full [] _ 0 Hfull Hlast Hp);
    unfold pageSize; [reflexivity | lia | reflexivity | rewrite length_replicate; lia].
Qed.

Lemma create_holds : exists b, create = Some b /\ holds b [].
Proof.
  eexists. split; [reflexivity|].
  exists [], (replicate (Z.to_nat pageSize) 0). cbn [pages currPageIndex pointer].
  split; [reflexivity|]. split; [repeat constructor|].
  split; [reflexivity|]. split; [unfold pageSize; lia | reflexivity].
Qed.

Lemma take_put_next (page : list Z) (n : nat) (v : Z) :
  (n < length page)%nat ->
  take (S n) (put page (Z.of_nat n) v) = take n page ++ [v].
Proof.
  intros Hn. unfold put. destruct (Z.ltb_spec (Z.of_nat n) 0); [lia|].
  rewrite Nat2Z.id. rewrite (take_S_r _ _ v).
  - rewrite take_insert_ge by lia. reflexivity.
  - apply list_lookup_insert_eq. exact Hn.
Qed.

Lemma insert_last {A} (l : list A) (y x : A) :
  <[length l := x]> (l ++ [y]) = l ++ [x].
Proof.
  rewrite insert_app_r_alt by lia. rewrite Nat.sub_diag. reflexivity.
Qed.

Lemma writeByte_holds b data val :
  holds b data ->
  exists b', writeByte val b = Some b' /\ holds b' (data ++ [val mod 256]).
Proof.
  intros (full & last & Ep & Hf & Hc & Hp & ->). unfold writeByte.
  pose proof Hf as Hf'. rewrite Ep in Hf'. apply Forall_app in Hf' as [Hfull Hlast].
  apply Forall_cons_1 in Hlast as [Hlast _].
  unfold pageSize in *.
  destruct (Z.geb_spec (pointer b) 2048) as [Hge|Hlt].
  - assert (Hptr : pointer b = 2048) by lia.
    unfold newPage. rewrite Hc, Ep, length_app. cbn [length].
    destruct (Z.ltb_spec (Z.of_nat (length full) + 1) 0); [lia|].
    match goal with |- context [?a <? ?b] => destruct (Z.ltb_spec a b); [lia|] end.
    match goal with |- context [?a =? ?b] => destruct (Z.eqb_spec a b); [|lia] end.
    cbn [mbind option_bind pages currPageIndex pointer].
    destruct (Z.ltb_spec (Z.of_nat (length full) + 1) 0); [lia|].
    replace (Z.to_nat (Z.of_nat (length full) + 1)) with (length (full ++ [last]))
      by (rewrite length_app; cbn [length]; lia).
    rewrite list_lookup_middle by reflexivity. cbn [mbind option_bind].
    eexists. split; [reflexivity|].
    exists (full ++ [last]),
      (put (replicate (Z.to_nat pageSize) 0) 0 (val mod 256)).
    cbn [pages currPageIndex pointer].
    split; [apply insert_last|].
    rewrite insert_last.
    split; [|split; [|split]].
    + apply Forall_app. split; [rewrite <- Ep; exact Hf|].
      constructor; [|constructor]. rewrite length_put, length_replicate.
      unfold pageSize. lia.
    + rewrite length_app. cbn [length]. lia.
    + unfold pageSize. lia.
    + rewrite concat_app. cbn [concat]. rewrite app_nil_r, <- !app_assoc.
      f_equal. rewrite Hptr, take_ge by lia. f_equal.
  - cbn [mbind option_bind]. rewrite Hc.
    destruct (Z.ltb_spec (Z.of_nat (length full)) 0); [lia|].
    rewrite Nat2Z.id, Ep, list_lookup_middle by reflexivity.
    cbn [mbind option_bind]. eexists. split; [reflexivity|].
    exists full, (put last (pointer b) (val mod 256)).
    cbn [pages currPageIndex pointer].
    split; [apply insert_last|]. rewrite insert_last.
    split; [|split; [|split]].
    + apply Forall_app. split; [exact Hfull|].
      constructor; [|constructor]. rewrite length_put. exact Hlast.
    + reflexivity.
    + unfold pageSize. lia.
    + rewrite <- app_assoc. f_equal.
      assert (Hn : exists n, pointer b = Z.of_nat n /\ (n < length last)%nat).
      { exists (Z.to_nat (pointer b)). lia. }
      destruct Hn as (n & -> & Hn).
      replace (Z.to_nat (Z.of_nat n + 1)) with (S n) by lia.
      rewrite Nat2Z.id. symmetry. apply take_put_next. exact Hn.
Qed.

Lemma writeBytesLoop_holds bytes count : forall i b data,
  holds b data ->
  exists b', writeBytesLoop count bytes i b = Some b' /\
    holds b' (data ++ map (fun i => JS.int_of (at_ bytes i) mod 256)
                        (seqZ i (Z.of_nat count))).
Proof.
  induction count as [|count IH]; intros i b data Hb.
  - exists b. split; [reflexivity|]. cbn. rewrite app_nil_r. exact Hb.
  - cbn [writeBytesLoop].
    destruct (writeByte_holds b data (JS.int_of (at_ bytes i)) Hb) as (b1 & -> & Hb1).
    cbn [mbind option_bind].
    destruct (IH (i + 1) b1 _ Hb1) as (b' & E & Hb').
    exists b'. split; [exact E|].
    rewrite <- app_assoc in Hb'.
    replace (Z.of_nat (S count)) with (Z.succ (Z.of_nat count)) by lia.
    rewrite seqZ_cons by lia. cbn [map app] in *.
    replace (Z.pred (Z.succ (Z.of_nat count))) with (Z.of_nat count) by lia.
    replace (Z.succ i) with (i + 1) by lia. exact Hb'.
Qed.

Lemma writeBytes_holds bytes offset length b data :
  holds b data ->
  exists b', writeBytes bytes offset length b = Some b' /\
             holds b' (data ++ written bytes offset length).
Proof.
  intros Hb. unfold writeBytes, written.
  set (l := match length with
            | Some n => if n =? 0 then Z.of_nat (List.length bytes) else n
            | None => Z.of_nat (List.length bytes)
            end).
  set (i := match offset with Some n => n | None => 0 end).
  destruct (writeBytesLoop_holds bytes (Z.to_nat (l - i)) i b data Hb)
    as (b' & E & Hb').
  exists b'. split; [exact E|].
  destruct (Z.le_gt_cases 0 (l - i)).
  - rewrite Z2Nat.id in Hb' by lia. exact Hb'.
  - replace (Z.to_nat (l - i)) with 0%nat in Hb' by lia.
    unfold seqZ in *. replace (Z.to_nat (l - i)) with 0%nat by lia. exact Hb'.
Qed.

Lemma built_holds b data : built b data -> holds b data.
Proof.
  induction 1 as [b E | b data val b' _ IH E | b data bytes offset length b' _ IH E].
  - destruct create_holds as (b0 & E0 & H0). congruence.
  - destruct (writeByte_holds b data val IH) as (b1 & E1 & H1). congruence.
  - destruct (writeBytes_holds bytes offset length b data IH) as (b1 & E1 & H1).
    congruence.
Qed.

Lemma written_all (bytes : list Z) :
  written bytes None None = map (fun v => v mod 256) bytes.
Proof.
  unfold written. rewrite Z.sub_0_r.
  apply list_eq. intros k. rewrite !list_lookup_fmap.
  destruct (decide (k < length bytes)%nat) as [Hk|Hk].
  - rewrite lookup_seqZ_lt by lia. cbn [fmap option_fmap option_map].
    destruct (lookup_lt_is_Some_2 bytes k Hk) as [v Ev]. rewrite Ev.
    cbn [option_map]. unfold at_. destruct (Z.ltb_spec (0 + Z.of_nat k) 0); [lia|].
    replace (Z.to_nat (0 + Z.of_nat k)) with k by lia. rewrite Ev. reflexivity.
  - rewrite lookup_seqZ_ge by lia. rewrite lookup_ge_None_2 by lia. reflexivity.
Qed.

(** X15.  A [ByteArray] gives back what was written to it: after any
    sequence of [writeByte] and [writeBytes] calls on a new array, none
    of which fails, [getData] returns the bytes written, modulo 256, in
    the order of the calls and across any number of pages.  A call
    [writeBytes(bytes)] appends all of [bytes]; with the other arguments
    given, [length] is the index the loop stops at, not a count, and a
    [length] of 0 stands for the length of [bytes]. *)
Theorem bytearray_returns_written (b : t) (data : list Z) :
  built b data ->
  getData b = Some data /\
  (forall val, exists b', writeByte val b = Some b' /\
                          getData b' = Some (data ++ [val mod 256])) /\
  (forall bytes offset length,
     exists b', writeBytes bytes offset length b = Some b' /\
                getData b' = Some (data ++ written bytes offset length)) /\
  (forall bytes, written bytes None None = map (fun v => v mod 256) bytes) /\
  (forall bytes offset n,
     List.length (written bytes (Some offset) (Some n))
     = Z.to_nat ((if n =? 0 then Z.of_nat (List.length bytes) else n) - offset)).
Proof.
  intros Hb. pose proof (built_holds b data Hb) as Hh.
  split; [apply getData_holds, Hh|]. split; [|split; [|split]].
  - intros val. destruct (writeByte_holds b data val Hh) as (b' & E & H').
    exists b'. split; [exact E | apply getData_holds, H'].
  - intros bytes offset length.
    destruct (writeBytes_holds bytes offset length b data Hh) as (b' & E & H').
    exists b'. split; [exact E | apply getData_holds, H'].
  - apply written_all.
  - intros bytes offset n. unfold written. rewrite length_map, length_seqZ.
    reflexivity.
Qed.

Lemma bytearray_returns_written_witness :
  getData (mk [put (replicate (Z.to_nat pageSize) 0) 0 44] 0 1) = Some ([] ++ [300 mod 256]) /\
  (forall val, exists b',
      writeByte val (mk [put (replicate (Z.to_nat pageSize) 0) 0 44] 0 1) = Some b' /\
      getData b' = Some (([] ++ [300 mod 256]) ++ [val mod 256])) /\
  (forall bytes offset length,
     exists b',
       writeBytes bytes offset length
         (mk [put (replicate (Z.to_nat pageSize) 0) 0 44] 0 1) = Some b' /\
       getData b' = Some (([] ++ [300 mod 256]) ++ written bytes offset length)) /\
  (forall bytes, written bytes None None = map (fun v => v mod 256) bytes) /\
  (forall bytes offset n,
     List.length (written bytes (Some offset) (Some n))
     = Z.to_nat ((if n =? 0 then Z.of_nat (List.length bytes) else n) - offset)).
Proof.
  apply (bytearray_returns_written
           (mk [put (replicate (Z.to_nat pageSize) 0) 0 44] 0 1) ([] ++ [300 mod 256])).
  apply (built_writeByte (mk [replicate (Z.to_nat pageSize) 0] 0 0) [] 300).
  - apply built_create. reflexivity.
  - vm_compute. reflexivity.
Defined.

End ByteArrayFacts.

(** ** Format A: the tables of the constructor *)

Section ReadFacts.
Import DataStream.

Lemma length_getBytes ds off size bs :
  0 <= size -> getBytes ds off size = Some bs ->
  0 <= off /\ off + size <= byteLength ds /\ Z.of_nat (length bs) = size /\
  bs = subarray (buffer ds) off (off + size).
Proof.
  intros Hs. unfold getBytes.
  destruct (Z.leb_spec 0 off); [|discriminate].
  destruct (Z.leb_spec (off + size) (byteLength ds)); [|discriminate].
  cbn [andb]. intros [= <-]. unfold byteLength in *.
  split; [assumption|]. split; [assumption|]. split.
  - rewrite length_take, length_drop. lia.
  - unfold subarray. replace (off + size - off) with size by lia. reflexivity.
Qed.

Lemma getUint_Some ds off size le v :
  0 <= size -> getUint ds off size le = Some v ->
  0 <= off /\ off + size <= byteLength ds /\
  (Forall uint8 (buffer ds) -> 0 <= v < 2 ^ (8 * size)).
Proof.
  intros Hs. unfold getUint.
  destruct (getBytes ds off size) as [bs|] eqn:E; [|discriminate].
  cbn [mbind option_bind]. intros [= <-].
  destruct (length_getBytes ds off size bs Hs E) as (H0 & H1 & Hl & Hb).
  split; [assumption|]. split; [assumption|]. intros Hu.
  assert (Hbs : Forall uint8 bs).
  { rewrite Hb. unfold subarray. apply Forall_take, Forall_drop, Hu. }
  rewrite <- Hl. destruct le.
  - apply le_value_range, Hbs.
  - rewrite <- (length_rev bs). apply le_value_range, Forall_rev, Hbs.
Qed.

Lemma readUint8_Some ds v ds' :
  readUint8 ds = Some (v, ds') ->
  0 <= pointer ds /\ pointer ds + 1 <= byteLength ds /\
  ds' = mk (buffer ds) (pointer ds + 1) /\
  (Forall uint8 (buffer ds) -> 0 <= v < 256).
Proof.
  unfold readUint8. destruct (getUint ds (pointer ds) 1 true) as [x|] eqn:E;
    [|discriminate].
  cbn [mbind option_bind]. intros [= <- <-].
  destruct (getUint_Some ds (pointer ds) 1 true x ltac:(lia) E) as (H0 & H1 & Hr).
  repeat split; try assumption; apply Hr; assumption.
Qed.

Lemma readUint16_Some le ds v ds' :
  readUint16 le ds = Some (v, ds') ->
  0 <= pointer ds /\ pointer ds + 2 <= byteLength ds /\
  ds' = mk (buffer ds) (pointer ds + 2) /\
  (Forall uint8 (buffer ds) -> 0 <= v < 65536).
Proof.
  unfold readUint16. destruct (getUint ds (pointer ds) 2 le) as [x|] eqn:E;
    [|discriminate].
  cbn [mbind option_bind]. intros [= <- <-].
  destruct (getUint_Some ds (pointer ds) 2 le x ltac:(lia) E) as (H0 & H1 & Hr).
  repeat split; try assumption; apply Hr; assumption.
Qed.

Lemma readUint32_Some le ds v ds' :
  readUint32 le ds = Some (v, ds') ->
  0 <= pointer ds /\ pointer ds + 4 <= byteLength ds /\
  ds' = mk (buffer ds) (pointer ds + 4) /\
  (Forall uint8 (buffer ds) -> 0 <= v < 2 ^ 32).
Proof.
  unfold readUint32. destruct (getUint ds (pointer ds) 4 le) as [x|] eqn:E;
    [|discriminate].
  cbn [mbind option_bind]. intros [= <- <-].
  destruct (getUint_Some ds (pointer ds) 4 le x ltac:(lia) E) as (H0 & H1 & Hr).
  repeat split; try assumption; apply Hr; assumption.
Qed.

Lemma readChars_Some count ds chars ds' :
  DataStreamWrite.readChars count ds = Some (chars, ds') ->
  0 <= pointer ds /\ pointer ds + count <= byteLength ds /\
  ds' = mk (buffer ds) (pointer ds + count).
Proof.
  unfold DataStreamWrite.readChars, DataStreamWrite.readBytes, getBytes.
  destruct (Z.leb_spec 0 count); [|discriminate].
  destruct (Z.leb_spec 0 (pointer ds)); [|discriminate].
  destruct (Z.leb_spec (pointer ds + count) (byteLength ds)); [|discriminate].
  cbn [andb mbind option_bind]. intros [= <- <-]. auto.
Qed.

Lemma assert_Some c u : assert c = Some u -> c = true.
Proof. unfold assert. destruct c; [reflexivity | discriminate]. Qed.

End ReadFacts.

Section PpmHeaderFacts.
Import PpmHeader.

Lemma decodeHeader_frameCount buf h :
  Forall uint8 buf -> decodeHeader buf = Some h ->
  1 <= frameCount h <= 65536 /\ 0 <= frameDataLength h < 2 ^ 32 /\
  16 < Z.of_nat (length buf).
Proof.
  intros Hu E. unfold decodeHeader in E.
  destruct (assert (16 <? Z.of_nat (length buf))) as [[]|] eqn:Ea; [|discriminate].
  apply assert_Some, Z.ltb_lt in Ea.
  cbn [mbind option_bind] in E.
  destruct (DataStream.readUint32 true _) as [[fdl ds1]|] eqn:E1; [|discriminate].
  cbn [mbind option_bind] in E.
  destruct (readUint32_Some _ _ _ _ E1) as (_ & _ & -> & R1).
  destruct (DataStream.readUint32 true _) as [[sdl ds2]|] eqn:E2; [|discriminate].
  cbn [mbind option_bind] in E.
  destruct (readUint32_Some _ _ _ _ E2) as (_ & _ & -> & R2).
  destruct (DataStream.readUint16 true _) as [[fc ds3]|] eqn:E3; [|discriminate].
  cbn [mbind option_bind] in E.
  destruct (readUint16_Some _ _ _ _ E3) as (_ & _ & -> & R3).
  destruct (DataStream.readUint16 true _) as [[ver ds4]|] eqn:E4; [|discriminate].
  cbn [mbind option_bind] in E. injection E as <-.
  cbn [frameCount frameDataLength DataStream.buffer] in *.
  specialize (R1 Hu). specialize (R3 Hu). lia.
Qed.

(** What the loop over the offset table keeps: the entries in front of
    [n] point into the file. *)
Lemma offsetsLoop_inside count : forall n len ds table T,
  Forall uint8 (DataStream.buffer ds) -> 0 <= len -> 0 <= n ->
  (forall k v, k < n -> at_ table k = Some v ->
               0 <= v < DataStream.byteLength ds) ->
  offsetsLoop count n len ds table = Some T ->
  length T = length table /\
  forall k v, k < n + Z.of_nat count -> at_ T k = Some v ->
              0 <= v < DataStream.byteLength ds.
Proof.
  induction count as [|count IH]; intros n len ds table T Hu Hlen Hn Hinv E.
  - cbn [offsetsLoop] in E. injection E as <-. split; [reflexivity|].
    intros k v Hk. apply Hinv. lia.
  - cbn [offsetsLoop] in E.
    destruct (DataStream.readUint32 true ds) as [[offset ds1]|] eqn:E1; [|discriminate].
    cbn [mbind option_bind] in E.
    destruct (readUint32_Some _ _ _ _ E1) as (_ & _ & -> & R1). specialize (R1 Hu).
    destruct (assert _) as [[]|] eqn:Ea; [|discriminate].
    apply assert_Some, Z.ltb_lt in Ea. cbn [mbind option_bind] in E.
    change (DataStream.byteLength (DataStream.mk (DataStream.buffer ds)
                                     (DataStream.pointer ds + 4)))
      with (DataStream.byteLength ds) in Ea.
    set (ptr := 1704 + len + offset) in *.
    assert (Hp : 0 <= ptr mod 2 ^ 32 < DataStream.byteLength ds).
    { pose proof (Z.mod_pos_bound ptr (2 ^ 32) ltac:(lia)).
      pose proof (Z.mod_le ptr (2 ^ 32) ltac:(lia) ltac:(lia)). lia. }
    destruct (IH (n + 1) len
                (DataStream.mk (DataStream.buffer ds) (DataStream.pointer ds + 4))
                (put table n (ptr mod 2 ^ 32)) T Hu Hlen ltac:(lia))
      as (Hl & Hall); [|exact E|].
    + intros k v Hk Ev. pose proof (at_in_length _ _ _ Ev) as Hkl.
      rewrite length_put in Hkl. rewrite at_put in Ev by exact Hkl.
      destruct (Z.eqb_spec k n).
      * injection Ev as <-. exact Hp.
      * apply (Hinv k v); [lia | exact Ev].
    + rewrite length_put in Hl. split; [exact Hl|].
      intros k v Hk. apply Hall. lia.
Qed.

Lemma decodeAnimationHeader_inside buf frameCount offsets :
  Forall uint8 buf -> decodeAnimationHeader buf frameCount = Some offsets ->
  Z.of_nat (length offsets) <= frameCount /\
  Forall (fun o => 0 <= o < Z.of_nat (length buf)) offsets.
Proof.
  intros Hu E. unfold decodeAnimationHeader in E.
  destruct (DataStream.readUint16 true _) as [[len ds1]|] eqn:E1; [|discriminate].
  cbn [mbind option_bind] in E.
  destruct (readUint16_Some _ _ _ _ E1) as (_ & _ & _ & R1). specialize (R1 Hu).
  destruct (assert _) as [[]|] eqn:Ea; [|discriminate].
  apply assert_Some, Z.leb_le in Ea. cbn [mbind option_bind] in E.
  pose proof (Z.div_mod len 4 ltac:(lia)) as Hdm.
  pose proof (Z.mod_pos_bound len 4 ltac:(lia)) as Hm.
  pose proof (Z.div_mod (len + 3) 4 ltac:(lia)) as Hdm3.
  pose proof (Z.mod_pos_bound (len + 3) 4 ltac:(lia)) as Hm3.
  destruct (offsetsLoop_inside _ 0 len (DataStream.mk buf 1704) _ offsets Hu
              ltac:(lia) ltac:(lia)
              ltac:(intros k v Hk Ev; apply at_in_length in Ev; lia) E)
    as (Hl & Hall).
  rewrite length_replicate in Hl.
  split; [lia|].
  apply Forall_at. intros q v Hq Ev. apply (Hall q v); [lia | exact Ev].
Qed.

(** X16.  When the constructor of the format A parser has decoded the
    header and the animation header of a file, the file has from 1 to
    65536 frames, the table of frame offsets has at most one entry for
    each frame, and every entry points inside the file; so for every
    frame that has an entry the header byte can be read: [isNewFrame] and
    [getFramePaletteIndices] return. *)
Theorem ppm_constructor_tables (buf : list Z) (p : Ppm.parser) :
  Forall uint8 buf -> parser_of buf = Some p ->
  Ppm.buffer p = buf /\
  1 <= Ppm.frameCount p <= 65536 /\
  Z.of_nat (length (Ppm.frameOffsets p)) <= Ppm.frameCount p /\
  Forall (fun o => 0 <= o < Z.of_nat (length buf)) (Ppm.frameOffsets p) /\
  forall frameIndex, 0 <= frameIndex < Z.of_nat (length (Ppm.frameOffsets p)) ->
    is_Some (Ppm.isNewFrame p frameIndex) /\
    is_Some (PpmImage.getFramePaletteIndices p frameIndex).
Proof.
  intros Hu E. unfold parser_of in E.
  destruct (decodeHeader buf) as [h|] eqn:Eh; [|discriminate].
  cbn [mbind option_bind] in E.
  destruct (decodeAnimationHeader buf (frameCount h)) as [offsets|] eqn:Eo;
    [|discriminate].
  cbn [mbind option_bind] in E. injection E as <-.
  cbn [Ppm.buffer Ppm.frameCount Ppm.frameOffsets].
  destruct (decodeHeader_frameCount buf h Hu Eh) as (Hfc & _).
  destruct (decodeAnimationHeader_inside buf _ offsets Hu Eo) as (Hl & Hall).
  do 4 (split; [first [reflexivity | assumption]|]).
  intros i Hi.
  assert (Hn : is_Some (Ppm.isNewFrame (Ppm.mkParser buf (frameCount h) offsets) i)).
  { unfold Ppm.isNewFrame. cbn [Ppm.frameOffsets Ppm.buffer].
    destruct (at_Some offsets i Hi) as [o Eo']. rewrite Eo'.
    cbn [mbind option_bind].
    pose proof (at_Forall _ _ _ _ Hall Eo') as Ho. cbv beta in Ho.
    destruct (readUint8_in_bounds buf o ltac:(lia) ltac:(lia)) as [b ->].
    cbn [mbind option_bind]. eauto. }
  split; [exact Hn|].
  destruct (getFramePaletteIndices_shape _ i Hn) as (paper & c1 & c2 & -> & _).
  eauto.
Qed.

Lemma ppm_file_bytes : Forall uint8 ppm_file.
Proof.
  apply Forall_of_forallb with (f := fun b => (0 <=? b) && (b <? 256)).
  - intros b Hb. apply andb_true_iff in Hb as [H0 H1].
    apply Z.leb_le in H0. apply Z.ltb_lt in H1. unfold uint8. lia.
  - vm_compute. reflexivity.
Qed.

Lemma ppm_constructor_tables_witness :
  Ppm.buffer (Ppm.mkParser ppm_file 1 [1708]) = ppm_file /\
  1 <= Ppm.frameCount (Ppm.mkParser ppm_file 1 [1708]) <= 65536 /\
  Z.of_nat (length (Ppm.frameOffsets (Ppm.mkParser ppm_file 1 [1708])))
  <= Ppm.frameCount (Ppm.mkParser ppm_file 1 [1708]) /\
  Forall (fun o => 0 <= o < Z.of_nat (length ppm_file))
    (Ppm.frameOffsets (Ppm.mkParser ppm_file 1 [1708])) /\
  forall frameIndex,
    0 <= frameIndex
    < Z.of_nat (length (Ppm.frameOffsets (Ppm.mkParser ppm_file 1 [1708]))) ->
    is_Some (Ppm.isNewFrame (Ppm.mkParser ppm_file 1 [1708]) frameIndex) /\
    is_Some (PpmImage.getFramePaletteIndices (Ppm.mkParser ppm_file 1 [1708])
               frameIndex).
Proof.
  apply (ppm_constructor_tables ppm_file (Ppm.mkParser ppm_file 1 [1708])).
  - exact ppm_file_bytes.
  - vm_compute. reflexivity.
Defined.


Lemma rate_of_defined (rates : list Q) (speed : Z) :
  is_Some (rate_of rates speed) <-> 0 <= speed < Z.of_nat (length rates).
Proof.
  unfold rate_of. destruct (Z.ltb_spec speed 0).
  - split; [intros [x Hx]; discriminate | lia].
  - rewrite lookup_lt_is_Some. lia.
Qed.

(** [getAudioTrackRaw] of either format, on a track that starts inside
    the file. *)
Lemma track_raw buf ptr length :
  0 <= ptr -> 0 <= length ->
  (_ ← assert (ptr + length <? Z.of_nat (List.length buf));
   '(bytes, _) ← DataStreamWrite.readBytes length (DataStream.mk buf ptr);
   Some bytes)
  = if ptr + length <? Z.of_nat (List.length buf)
    then Some (subarray buf ptr (ptr + length)) else None.
Proof.
  intros Hp Hl. destruct (Z.ltb_spec (ptr + length) (Z.of_nat (List.length buf)));
    cbn [assert mbind option_bind]; [|reflexivity].
  unfold DataStreamWrite.readBytes, DataStream.getBytes, DataStream.byteLength.
  cbn [DataStream.buffer DataStream.pointer].
  destruct (Z.leb_spec 0 length); [|lia].
  destruct (Z.leb_spec 0 ptr); [|lia].
  destruct (Z.leb_spec (ptr + length) (Z.of_nat (List.length buf))); [|lia].
  cbn [andb mbind option_bind]. unfold subarray.
  replace (ptr + length - ptr) with length by lia. reflexivity.
Qed.

Lemma length_subarray (a : list Z) (start stop : Z) :
  0 <= start <= stop -> stop <= Z.of_nat (length a) ->
  Z.of_nat (length (subarray a start stop)) = stop - start.
Proof.
  intros H0 H1. unfold subarray. rewrite length_take, length_drop. lia.
Qed.

(** X17.  When [decodeSoundHeader] of format A returns, the two speeds
    are at most 8, whatever the file holds, so its assertion on them
    never fails; a rate is [undefined] exactly for a negative speed.
    The four tracks lie one after the other from the end of the sound
    header on, which starts at a multiple of 4.  [getAudioTrackRaw]
    returns the bytes of a track that ends before the end of the file,
    and fails for a track that ends at the end of the file or past it. *)
Theorem ppm_sound_tracks (buf : list Z) (h : header) (sh : soundHeader) :
  Forall uint8 buf -> decodeHeader buf = Some h ->
  decodeSoundHeader buf h = Some sh ->
  frameSpeed sh <= 8 /\ bgmSpeed sh <= 8 /\
  (is_Some (framerate sh) <-> 0 <= frameSpeed sh) /\
  (is_Some (bgmrate sh) <-> 0 <= bgmSpeed sh) /\
  exists start bgmLen se1Len se2Len se3Len,
    soundMeta sh = [(start, bgmLen); (start + bgmLen, se1Len);
                    (start + bgmLen + se1Len, se2Len);
                    (start + bgmLen + se1Len + se2Len, se3Len)] /\
    start mod 4 = 0 /\
    1696 + frameDataLength h + frameCount h + 32 <= start
      < 1696 + frameDataLength h + frameCount h + 36 /\
    Forall (fun l => 0 <= l < 2 ^ 32) [bgmLen; se1Len; se2Len; se3Len] /\
    forall trackId ptr length,
      track (soundMeta sh) trackId = Some (ptr, length) ->
      0 <= trackId < 4 /\
      (ptr + length < Z.of_nat (List.length buf) ->
       getAudioTrackRaw buf (soundMeta sh) trackId
       = Some (subarray buf ptr (ptr + length)) /\
       Z.of_nat (List.length (subarray buf ptr (ptr + length))) = length) /\
      (Z.of_nat (List.length buf) <= ptr + length ->
       getAudioTrackRaw buf (soundMeta sh) trackId = None).
Proof.
  intros Hu Eh E.
  destruct (decodeHeader_frameCount buf h Hu Eh) as (Hfc & Hfd & _).
  unfold decodeSoundHeader in E.
  set (origin := 1696 + frameDataLength h + frameCount h) in *.
  destruct (assert (origin <? _)) as [[]|] eqn:Ea; [|discriminate].
  apply assert_Some, Z.ltb_lt in Ea. cbn [mbind option_bind] in E.
  set (aligned := if negb (Z.rem origin 4 =? 0) then origin + (4 - Z.rem origin 4)
                  else origin) in *.
  assert (Hal : aligned mod 4 = 0 /\ origin <= aligned < origin + 4).
  { subst aligned. rewrite Z.rem_mod_nonneg by lia.
    pose proof (Z.div_mod origin 4 ltac:(lia)) as Hdm.
    pose proof (Z.mod_pos_bound origin 4 ltac:(lia)) as Hm.
    destruct (Z.eqb_spec (origin mod 4) 0) as [H0|H0]; cbn [negb].
    - split; [exact H0 | lia].
    - split; [|lia].
      replace (origin + (4 - origin mod 4)) with ((origin / 4 + 1) * 4) by lia.
      apply Z.mod_mul. lia. }
  clearbody aligned.
  destruct (DataStream.readUint32 true _) as [[bgmLen ds1]|] eqn:E1; [|discriminate].
  cbn [mbind option_bind] in E.
  destruct (readUint32_Some _ _ _ _ E1) as (_ & _ & -> & R1). specialize (R1 Hu).
  destruct (DataStream.readUint32 true _) as [[se1Len ds2]|] eqn:E2; [|discriminate].
  cbn [mbind option_bind] in E.
  destruct (readUint32_Some _ _ _ _ E2) as (_ & _ & -> & R2). specialize (R2 Hu).
  destruct (DataStream.readUint32 true _) as [[se2Len ds3]|] eqn:E3; [|discriminate].
  cbn [mbind option_bind] in E.
  destruct (readUint32_Some _ _ _ _ E3) as (_ & _ & -> & R3). specialize (R3 Hu).
  destruct (DataStream.readUint32 true _) as [[se3Len ds4]|] eqn:E4; [|discriminate].
  cbn [mbind option_bind] in E.
  destruct (readUint32_Some _ _ _ _ E4) as (_ & _ & -> & R4). specialize (R4 Hu).
  destruct (DataStream.readUint8 _) as [[speed1 ds5]|] eqn:E5; [|discriminate].
  cbn [mbind option_bind] in E.
  destruct (readUint8_Some _ _ _ E5) as (_ & _ & -> & R5). specialize (R5 Hu).
  destruct (DataStream.readUint8 _) as [[speed2 ds6]|] eqn:E6; [|discriminate].
  cbn [mbind option_bind] in E.
  destruct (readUint8_Some _ _ _ E6) as (_ & _ & -> & R6). specialize (R6 Hu).
  destruct (assert _) as [[]|]; [|discriminate].
  cbn [mbind option_bind] in E. injection E as <-.
  cbn [frameSpeed bgmSpeed framerate bgmrate soundMeta].
  split; [lia|]. split; [lia|].
  split; [rewrite rate_of_defined; cbn [PPM_FRAMERATES length]; lia|].
  split; [rewrite rate_of_defined; cbn [PPM_FRAMERATES length]; lia|].
  exists (aligned + 32), bgmLen, se1Len, se2Len, se3Len.
  split; [reflexivity|]. split.
  { destruct Hal as [Hal _]. rewrite <- Z.add_mod_idemp_l, Hal by lia. reflexivity. }
  split; [lia|].
  split; [repeat (constructor; [assumption|]); constructor|].
  intros trackId ptr len Et.
  assert (Hcase : 0 <= trackId < 4 /\ 0 <= ptr /\ 0 <= len).
  { unfold track in Et. destruct (Z.ltb_spec trackId 0); [discriminate|].
    destruct (Z.to_nat trackId) as [|[|[|[|k]]]] eqn:Ek; cbn in Et;
      try discriminate; injection Et as <- <-; lia. }
  destruct Hcase as (Hid & Hp & Hl). split; [exact Hid|].
  unfold getAudioTrackRaw. rewrite Et. cbn [mbind option_bind].
  rewrite (track_raw buf ptr len Hp Hl).
  destruct (Z.ltb_spec (ptr + len) (Z.of_nat (List.length buf))).
  - split; [|lia]. intros _. split; [reflexivity|].
    rewrite length_subarray by lia. lia.
  - split; [lia | reflexivity].
Qed.

Lemma ppm_sound_tracks_witness :
  exists h sh,
    decodeHeader ppm_file = Some h /\ decodeSoundHeader ppm_file h = Some sh /\
    frameSpeed sh <= 8 /\ bgmSpeed sh <= 8 /\
    (is_Some (framerate sh) <-> 0 <= frameSpeed sh) /\
    (is_Some (bgmrate sh) <-> 0 <= bgmSpeed sh) /\
    exists start bgmLen se1Len se2Len se3Len,
      soundMeta sh = [(start, bgmLen); (start + bgmLen, se1Len);
                      (start + bgmLen + se1Len, se2Len);
                      (start + bgmLen + se1Len + se2Len, se3Len)] /\
      start mod 4 = 0 /\
      1696 + frameDataLength h + frameCount h + 32 <= start
        < 1696 + frameDataLength h + frameCount h + 36 /\
      Forall (fun l => 0 <= l < 2 ^ 32) [bgmLen; se1Len; se2Len; se3Len] /\
      forall trackId ptr length,
        track (soundMeta sh) trackId = Some (ptr, length) ->
        0 <= trackId < 4 /\
        (ptr + length < Z.of_nat (List.length ppm_file) ->
         getAudioTrackRaw ppm_file (soundMeta sh) trackId
         = Some (subarray ppm_file ptr (ptr + length)) /\
         Z.of_nat (List.length (subarray ppm_file ptr (ptr + length))) = length) /\
        (Z.of_nat (List.length ppm_file) <= ptr + length ->
         getAudioTrackRaw ppm_file (soundMeta sh) trackId = None).
Proof.
  exists (mkHeader 114 0 1 36),
    (mkSoundHeader 6 8 (Some 12%Q) (Some 30%Q)
       [(1844, 3); (1847, 0); (1847, 0); (1847, 0)]).
  split; [vm_compute; reflexivity|]. split; [vm_compute; reflexivity|].
  apply (ppm_sound_tracks ppm_file).
  - exact ppm_file_bytes.
  - vm_compute. reflexivity.
  - vm_compute. reflexivity.
Defined.

End PpmHeaderFacts.

(** ** Format B: the sections of the file *)

Section KwzHeaderFacts.
Import Kwz KwzView.

Lemma mapGet_mapSet m key value key' :
  KwzHeader.mapGet (KwzHeader.mapSet m key value) key'
  = if decide (key = key') then Some value else KwzHeader.mapGet m key'.
Proof.
  induction m as [|[k v] m IH]; cbn [KwzHeader.mapSet KwzHeader.mapGet].
  - destruct (decide (key = key')); reflexivity.
  - destruct (decide (k = key)) as [->|Hk]; cbn [KwzHeader.mapGet].
    + destruct (decide (key = key')); reflexivity.
    + rewrite IH. destruct (decide (k = key')) as [->|Hk'].
      * destruct (decide (key = key')); [congruence | reflexivity].
      * reflexivity.
Qed.

Lemma length_mapSet m key value :
  (length (KwzHeader.mapSet m key value) <= S (length m))%nat.
Proof.
  induction m as [|[k v] m IH]; cbn [KwzHeader.mapSet length]; [lia|].
  destruct (decide (k = key)); cbn [length]; lia.
Qed.

Lemma length_untilZero (chars : list Z) :
  (length (DataStreamWrite.untilZero chars) <= length chars)%nat.
Proof.
  induction chars as [|c chars IH]; cbn [DataStreamWrite.untilZero length]; [lia|].
  destruct (c =? 0); cbn [length]; lia.
Qed.

(** What a section in the map is like. *)
Lemma sectionLoop_sections buf fileSize count : forall ptr m m',
  Forall uint8 buf -> 0 <= ptr ->
  (forall key s, KwzHeader.mapGet m key = Some s ->
     0 <= KwzHeader.ptr s < fileSize /\ 0 <= KwzHeader.length s < 2 ^ 32 /\
     (length key <= 3)%nat) ->
  KwzHeader.sectionLoop count buf fileSize ptr m = Some m' ->
  (length m' <= length m + count)%nat /\
  forall key s, KwzHeader.mapGet m' key = Some s ->
    0 <= KwzHeader.ptr s < fileSize /\ 0 <= KwzHeader.length s < 2 ^ 32 /\
    (length key <= 3)%nat.
Proof.
  induction count as [|count IH]; intros ptr m m' Hu Hp Hinv E.
  - cbn [KwzHeader.sectionLoop] in E. injection E as <-. split; [lia | exact Hinv].
  - cbn [KwzHeader.sectionLoop] in E.
    destruct (Z.ltb_spec ptr fileSize) as [Hlt|].
    2:{ injection E as <-. split; [lia | exact Hinv]. }
    destruct (DataStreamWrite.readChars 4 _) as [[chars ds1]|] eqn:Ec; [|discriminate].
    cbn [mbind option_bind] in E.
    destruct (readChars_Some _ _ _ _ Ec) as (_ & _ & ->).
    cbn [DataStream.buffer DataStream.pointer] in E.
    destruct (DataStream.readUint32 true _) as [[len ds2]|] eqn:El; [|discriminate].
    cbn [mbind option_bind] in E.
    destruct (readUint32_Some _ _ _ _ El) as (_ & _ & _ & Rl).
    cbn [DataStream.buffer] in Rl. specialize (Rl Hu).
    destruct (IH (ptr + len + 8)
                (KwzHeader.mapSet m (take 3 chars) (KwzHeader.mkSection ptr len))
                m' Hu ltac:(lia)) as (Hlen & Hall); [|exact E|].
    + intros key s. rewrite mapGet_mapSet.
      destruct (decide (take 3 chars = key)) as [<-|Hk]; [|apply Hinv].
      intros [= <-]. cbn [KwzHeader.ptr KwzHeader.length].
      rewrite length_take. split; [lia|]. split; [lia | lia].
    + pose proof (length_mapSet m (take 3 chars) (KwzHeader.mkSection ptr len)).
      split; [lia | exact Hall].
Qed.

Lemma mapHas_true m key :
  KwzHeader.mapHas m key = true -> is_Some (KwzHeader.mapGet m key).
Proof. unfold KwzHeader.mapHas. destruct (KwzHeader.mapGet m key); [eauto | discriminate]. Qed.

Lemma buildSectionMap_sections buf m :
  Forall uint8 buf -> KwzHeader.buildSectionMap buf = Some m ->
  (length m <= 6)%nat /\
  is_Some (KwzHeader.mapGet m KwzHeader.KMC) /\
  is_Some (KwzHeader.mapGet m KwzHeader.KMI) /\
  forall key s, KwzHeader.mapGet m key = Some s ->
    0 <= KwzHeader.ptr s /\ KwzHeader.ptr s + 256 < Z.of_nat (length buf) /\
    0 <= KwzHeader.length s < 2 ^ 32 /\ (length key <= 3)%nat.
Proof.
  intros Hu E. unfold KwzHeader.buildSectionMap in E.
  destruct (KwzHeader.sectionLoop 6 buf _ 0 []) as [m0|] eqn:El; [|discriminate].
  cbn [mbind option_bind] in E.
  destruct (assert _) as [[]|] eqn:Ea; [|discriminate].
  apply assert_Some, andb_true_iff in Ea as [Hc Hi].
  cbn [mbind option_bind] in E. injection E as <-.
  destruct (sectionLoop_sections buf _ 6 0 [] m0 Hu ltac:(lia)
              ltac:(intros key s; discriminate) El) as (Hlen & Hall).
  cbn [length] in Hlen. split; [lia|].
  split; [apply mapHas_true, Hc|]. split; [apply mapHas_true, Hi|].
  intros key s Es. destruct (Hall key s Es) as (Hp & Hl & Hk).
  repeat split; try assumption; lia.
Qed.

(** X18.  [buildSectionMap] reads at most six sections, one after the
    other from the start of the file; when it returns, the sections KMC
    and KMI are among them, and every section it has recorded starts at
    an offset from 0 on, more than 256 bytes in front of the end of the
    file, under a name of at most three characters and with a length
    below 2^32. *)
Theorem kwz_sections_inside (buf : list Z) (sectionMap : list (list Z * KwzHeader.section)) :
  Forall uint8 buf -> KwzHeader.buildSectionMap buf = Some sectionMap ->
  (length sectionMap <= 6)%nat /\
  is_Some (KwzHeader.mapGet sectionMap KwzHeader.KMC) /\
  is_Some (KwzHeader.mapGet sectionMap KwzHeader.KMI) /\
  forall key s, KwzHeader.mapGet sectionMap key = Some s ->
    0 <= KwzHeader.ptr s /\ KwzHeader.ptr s + 256 < Z.of_nat (length buf) /\
    0 <= KwzHeader.length s < 2 ^ 32 /\ (length key <= 3)%nat.
Proof.
  intros Hu E.
  destruct (buildSectionMap_sections buf sectionMap Hu E) as (Hlen & Hc & Hi & Hall).
  split; [exact Hlen|]. split; [exact Hc|]. split; [exact Hi|].
  intros key s Es. apply (Hall key s Es).
Qed.

Lemma kwz_file_bytes : Forall uint8 kwz_file.
Proof.
  apply Forall_of_forallb with (f := fun b => (0 <=? b) && (b <? 256)).
  - intros b Hb. apply andb_true_iff in Hb as [H0 H1].
    apply Z.leb_le in H0. apply Z.ltb_lt in H1. unfold uint8. lia.
  - vm_compute. reflexivity.
Qed.

Lemma kwz_sections_inside_witness :
  exists sectionMap,
    KwzHeader.buildSectionMap kwz_file = Some sectionMap /\
    (length sectionMap <= 6)%nat /\
    is_Some (KwzHeader.mapGet sectionMap KwzHeader.KMC) /\
    is_Some (KwzHeader.mapGet sectionMap KwzHeader.KMI) /\
    forall key s, KwzHeader.mapGet sectionMap key = Some s ->
      0 <= KwzHeader.ptr s /\ KwzHeader.ptr s + 256 < Z.of_nat (length kwz_file) /\
      0 <= KwzHeader.length s < 2 ^ 32 /\ (length key <= 3)%nat.
Proof.
  exists [(KwzHeader.KFH, KwzHeader.mkSection 0 204);
          (KwzHeader.KMI, KwzHeader.mkSection 212 84);
          (KwzHeader.KMC, KwzHeader.mkSection 304 348);
          (KwzHeader.KSN, KwzHeader.mkSection 660 30)].
  split; [vm_compute; reflexivity|].
  apply (kwz_sections_inside kwz_file).
  - exact kwz_file_bytes.
  - vm_compute. reflexivity.
Defined.

(** X19.  When the constructor of the format B parser (with the
    [quickMeta] setting) has read the sections, the frame count and the
    frame tables of a file, the tables are the ones the statements about
    [decodeFrame] ask for, the file has fewer than 65536 frames, and the
    28-byte record of every frame lies inside the file, so that the
    accessors of the frame meta data return for every frame. *)
Theorem kwz_constructor_tables (buf : list Z) (dsiLibraryNote : bool) (p : parser) :
  Forall uint8 buf -> KwzHeader.parser_of buf dsiLibraryNote = Some p ->
  tables_ok p /\ buffer p = buf /\ Kwz.dsiLibraryNote p = dsiLibraryNote /\
  0 <= frameCount p < 65536 /\
  forall frameIndex, 0 <= frameIndex < frameCount p ->
    record_inside p frameIndex /\
    is_Some (KwzImage.getFramePaletteIndices p frameIndex) /\
    is_Some (KwzImage.getFrameLayerOrder p frameIndex).
Proof.
  intros Hu E. unfold KwzHeader.parser_of in E.
  destruct (KwzHeader.buildSectionMap buf) as [m|] eqn:Em; [|discriminate].
  cbn [mbind option_bind] in E.
  destruct (buildSectionMap_sections buf m Hu Em) as (_ & _ & _ & Hall).
  destruct (KwzHeader.decodeMetaQuick buf m) as [fc|] eqn:Ef; [|discriminate].
  cbn [mbind option_bind] in E.
  assert (Hfc : 0 <= fc < 65536).
  { unfold KwzHeader.decodeMetaQuick in Ef.
    destruct (assert _) as [[]|]; [|discriminate]. cbn [mbind option_bind] in Ef.
    destruct (KwzHeader.mapGet m KwzHeader.KFH) as [kfh|]; [|discriminate].
    cbn [mbind option_bind] in Ef.
    destruct (DataStream.readUint16 true _) as [[v ds]|] eqn:Er; [|discriminate].
    cbn [mbind option_bind] in Ef. injection Ef as <-.
    destruct (readUint16_Some _ _ _ _ Er) as (_ & _ & _ & R). apply R, Hu. }
  destruct (assert _) as [[]|]; [|discriminate]. cbn [mbind option_bind] in E.
  destruct (KwzHeader.mapGet m KwzHeader.KMI) as [kmi|] eqn:Ei; [|discriminate].
  cbn [mbind option_bind] in E.
  destruct (KwzHeader.mapGet m KwzHeader.KMC) as [kmc|] eqn:Ec; [|discriminate].
  cbn [mbind option_bind] in E.
  destruct (Hall _ _ Ei) as (Hk & _).
  destruct (getFrameOffsets_parts _ _ _ _ _ _ _ Hk E)
    as (_ & M & D & S & Ep & HM & HD & HS & HMr & HSr).
  split; [rewrite Ep; apply parts_tables_ok; assumption|].
  split; [rewrite Ep; reflexivity|]. split; [rewrite Ep; reflexivity|].
  split; [rewrite Ep; exact Hfc|].
  intros i Hi.
  assert (Hin : record_inside p i).
  { destruct (getFrameOffsets_meta _ _ _ _ _ _ _ i Hk E) as (_ & H);
      [rewrite Ep in Hi; exact Hi | exact H]. }
  split; [exact Hin|].
  destruct (getFramePaletteIndices_inside p i Hin) as (pal & -> & _).
  split; [eauto|].
  destruct (getFrameLayerDepths_inside p i Hin) as (a & b & c & Ed).
  unfold KwzImage.getFrameLayerOrder. rewrite Ed. cbn [mbind option_bind]. eauto.
Qed.

Lemma kwz_constructor_tables_witness :
  tables_ok kwz_file_parser /\ buffer kwz_file_parser = kwz_file /\
  Kwz.dsiLibraryNote kwz_file_parser = false /\
  0 <= frameCount kwz_file_parser < 65536 /\
  forall frameIndex, 0 <= frameIndex < frameCount kwz_file_parser ->
    record_inside kwz_file_parser frameIndex /\
    is_Some (KwzImage.getFramePaletteIndices kwz_file_parser frameIndex) /\
    is_Some (KwzImage.getFrameLayerOrder kwz_file_parser frameIndex).
Proof.
  apply (kwz_constructor_tables kwz_file false kwz_file_parser).
  - exact kwz_file_bytes.
  - vm_compute. reflexivity.
Defined.


Lemma uint32s_spec : forall (n : nat) (bytes : list Z),
  length bytes = (4 * n)%nat -> Forall uint8 bytes ->
  length (KwzHeader.uint32s bytes) = n /\
  Forall (fun v => 0 <= v < 2 ^ 32) (KwzHeader.uint32s bytes).
Proof.
  induction n as [|n IH]; intros bytes Hl Hu.
  - destruct bytes; [|discriminate]. split; [reflexivity | constructor].
  - destruct bytes as [|b0 [|b1 [|b2 [|b3 rest]]]]; try (cbn in Hl; lia).
    apply Forall_cons_1 in Hu as [H0 Hu]. apply Forall_cons_1 in Hu as [H1 Hu].
    apply Forall_cons_1 in Hu as [H2 Hu]. apply Forall_cons_1 in Hu as [H3 Hu].
    cbn [length] in Hl. destruct (IH rest ltac:(lia) Hu) as (Hn & Hr).
    cbn [KwzHeader.uint32s length]. split; [lia|].
    constructor; [|exact Hr]. unfold uint8 in *. lia.
Qed.

(** X20.  When [decodeSoundHeader] of format B returns, the KSN section
    starts at a multiple of 4 and the 92 bytes from its start on lie in
    the file (its header, the speed and the twenty 32-bit values the
    table of track sizes is made over), the speed of the background
    track is at most 10 and its rate is defined, and the five tracks lie
    one after the other from 36 bytes behind the start of the section
    on.  [getAudioTrackRaw] returns the bytes of a track that ends before
    the end of the file, and fails for a track that ends at the end of
    the file or past it. *)
Theorem kwz_sound_tracks
  (buf : list Z) (sectionMap : list (list Z * KwzHeader.section))
  (sh : KwzHeader.soundHeader) :
  Forall uint8 buf -> KwzHeader.decodeSoundHeader buf sectionMap = Some sh ->
  exists ksn,
    KwzHeader.mapGet sectionMap KwzHeader.KSN = Some ksn /\
    KwzHeader.ptr ksn mod 4 = 0 /\
    0 <= KwzHeader.ptr ksn + 12 /\ KwzHeader.ptr ksn + 92 <= Z.of_nat (length buf) /\
    0 <= KwzHeader.bgmSpeed sh <= 10 /\ is_Some (KwzHeader.bgmrate sh) /\
    exists bgm se1 se2 se3 se4,
      let start := KwzHeader.ptr ksn + 36 in
      KwzHeader.soundMeta sh
      = [(start, bgm); (start + bgm, se1); (start + bgm + se1, se2);
         (start + bgm + se1 + se2, se3); (start + bgm + se1 + se2 + se3, se4)] /\
      Forall (fun l => 0 <= l < 2 ^ 32) [bgm; se1; se2; se3; se4] /\
      forall trackId ptr len,
        PpmHeader.track (KwzHeader.soundMeta sh) trackId = Some (ptr, len) ->
        0 <= trackId < 5 /\
        (ptr + len < Z.of_nat (length buf) ->
         KwzHeader.getAudioTrackRaw buf (KwzHeader.soundMeta sh) trackId
         = Some (subarray buf ptr (ptr + len)) /\
         Z.of_nat (length (subarray buf ptr (ptr + len))) = len) /\
        (Z.of_nat (length buf) <= ptr + len ->
         KwzHeader.getAudioTrackRaw buf (KwzHeader.soundMeta sh) trackId = None).
Proof.
  intros Hu E. unfold KwzHeader.decodeSoundHeader in E.
  destruct (assert _) as [[]|]; [|discriminate]. cbn [mbind option_bind] in E.
  destruct (KwzHeader.mapGet sectionMap KwzHeader.KSN) as [ksn|]; [|discriminate].
  cbn [mbind option_bind] in E.
  set (p := KwzHeader.ptr ksn) in *.
  destruct (DataStream.readUint32 true _) as [[speed ds]|] eqn:Es; [|discriminate].
  cbn [mbind option_bind] in E.
  destruct (readUint32_Some _ _ _ _ Es) as (_ & _ & _ & Rs).
  cbn [DataStream.buffer] in Rs. specialize (Rs Hu).
  destruct (assert _) as [[]|] eqn:Ea; [|discriminate].
  apply assert_Some, Z.leb_le in Ea. cbn [mbind option_bind] in E.
  destruct (KwzHeader.Uint32Array buf (p + 8 + 4) 20) as [sizes|] eqn:Et;
    [|discriminate].
  cbn [mbind option_bind] in E. injection E as <-.
  unfold KwzHeader.Uint32Array in Et.
  destruct (Z.eqb_spec ((p + 8 + 4) mod 4) 0) as [Hal|]; [|discriminate].
  cbn [Z.leb andb] in Et.
  destruct (DataStream.getBytes _ _ _) as [bytes|] eqn:Eb; [|discriminate].
  cbn [mbind option_bind] in Et. injection Et as <-.
  destruct (length_getBytes (DataStream.mk buf 0) (p + 8 + 4) (4 * 20) bytes
              ltac:(lia) Eb) as (Hb0 & Hb1 & Hbl & Hbs).
  unfold DataStream.byteLength in Hb1. cbn [DataStream.buffer] in Hb1, Hbs.
  assert (Hbu : Forall uint8 bytes).
  { rewrite Hbs. unfold subarray. apply Forall_take, Forall_drop, Hu. }
  destruct (uint32s_spec 20 bytes ltac:(lia) Hbu) as (Hn & Hr).
  assert (Hsize : forall i, 0 <= i < 5 ->
            0 <= JS.int_of (at_ (KwzHeader.uint32s bytes) i) < 2 ^ 32).
  { intros i Hi. destruct (at_Some (KwzHeader.uint32s bytes) i ltac:(lia)) as [v Ev].
    rewrite Ev. exact (at_Forall _ _ _ _ Hr Ev). }
  exists ksn. fold p. split; [reflexivity|].
  split.
  { replace (p + 8 + 4) with (p + 3 * 4) in Hal by lia.
    rewrite Z.mod_add in Hal by lia. exact Hal. }
  split; [lia|]. split; [lia|].
  cbn [KwzHeader.bgmSpeed KwzHeader.bgmrate KwzHeader.soundMeta].
  split; [lia|].
  split; [rewrite rate_of_defined; cbn [KwzHeader.KWZ_FRAMERATES length]; lia|].
  pose proof (Hsize 0 ltac:(lia)) as S0. pose proof (Hsize 1 ltac:(lia)) as S1.
  pose proof (Hsize 2 ltac:(lia)) as S2. pose proof (Hsize 3 ltac:(lia)) as S3.
  pose proof (Hsize 4 ltac:(lia)) as S4.
  set (l0 := JS.int_of (at_ (KwzHeader.uint32s bytes) 0)) in *.
  set (l1 := JS.int_of (at_ (KwzHeader.uint32s bytes) 1)) in *.
  set (l2 := JS.int_of (at_ (KwzHeader.uint32s bytes) 2)) in *.
  set (l3 := JS.int_of (at_ (KwzHeader.uint32s bytes) 3)) in *.
  set (l4 := JS.int_of (at_ (KwzHeader.uint32s bytes) 4)) in *.
  exists l0, l1, l2, l3, l4. cbv zeta.
  replace (p + 8 + 28) with (p + 36) by lia.
  split; [reflexivity|].
  split; [repeat (constructor; [assumption|]); constructor|].
  clearbody l0 l1 l2 l3 l4 p.
  intros trackId ptr len Ek.
  assert (Hcase : 0 <= trackId < 5 /\ 0 <= ptr /\ 0 <= len).
  { unfold PpmHeader.track in Ek. destruct (Z.ltb_spec trackId 0); [discriminate|].
    destruct (Z.to_nat trackId) as [|[|[|[|[|k]]]]] eqn:Ek'; cbn in Ek;
      try discriminate; injection Ek as <- <-; lia. }
  destruct Hcase as (Hid & Hp & Hl). split; [exact Hid|].
  unfold KwzHeader.getAudioTrackRaw. rewrite Ek. cbn [mbind option_bind].
  rewrite (track_raw buf ptr len Hp Hl).
  destruct (Z.ltb_spec (ptr + len) (Z.of_nat (length buf))).
  - split; [|lia]. intros _. split; [reflexivity|].
    rewrite length_subarray by lia. lia.
  - split; [lia | reflexivity].
Qed.

Lemma kwz_sound_tracks_witness :
  exists sectionMap sh ksn,
    KwzHeader.buildSectionMap kwz_file = Some sectionMap /\
    KwzHeader.decodeSoundHeader kwz_file sectionMap = Some sh /\
    KwzHeader.mapGet sectionMap KwzHeader.KSN = Some ksn /\
    KwzHeader.ptr ksn mod 4 = 0 /\
    0 <= KwzHeader.ptr ksn + 12 /\
    KwzHeader.ptr ksn + 92 <= Z.of_nat (length kwz_file) /\
    0 <= KwzHeader.bgmSpeed sh <= 10 /\ is_Some (KwzHeader.bgmrate sh) /\
    exists bgm se1 se2 se3 se4,
      let start := KwzHeader.ptr ksn + 36 in
      KwzHeader.soundMeta sh
      = [(start, bgm); (start + bgm, se1); (start + bgm + se1, se2);
         (start + bgm + se1 + se2, se3); (start + bgm + se1 + se2 + se3, se4)] /\
      Forall (fun l => 0 <= l < 2 ^ 32) [bgm; se1; se2; se3; se4] /\
      forall trackId ptr len,
        PpmHeader.track (KwzHeader.soundMeta sh) trackId = Some (ptr, len) ->
        0 <= trackId < 5 /\
        (ptr + len < Z.of_nat (length kwz_file) ->
         KwzHeader.getAudioTrackRaw kwz_file (KwzHeader.soundMeta sh) trackId
         = Some (subarray kwz_file ptr (ptr + len)) /\
         Z.of_nat (length (subarray kwz_file ptr (ptr + len))) = len) /\
        (Z.of_nat (length kwz_file) <= ptr + len ->
         KwzHeader.getAudioTrackRaw kwz_file (KwzHeader.soundMeta sh) trackId = None).
Proof.
  set (m := [(KwzHeader.KFH, KwzHeader.mkSection 0 204);
             (KwzHeader.KMI, KwzHeader.mkSection 212 84);
             (KwzHeader.KMC, KwzHeader.mkSection 304 348);
             (KwzHeader.KSN, KwzHeader.mkSection 660 30)]).
  set (sh := KwzHeader.mkSoundHeader 3 (Some 2%Q)
               [(696, 2); (698, 0); (698, 0); (698, 0); (698, 0)]).
  destruct (kwz_sound_tracks kwz_file m sh kwz_file_bytes) as (ksn & H).
  - vm_compute. reflexivity.
  - exists m, sh, ksn.
    split; [vm_compute; reflexivity|]. split; [vm_compute; reflexivity|]. exact H.
Defined.

End KwzHeaderFacts.

(** ** Format B: the line tables *)

Section LineTableFacts.

Lemma holdsLines_spec (line : Z -> list Z) :
  (forall i, length (line i) = 8%nat) ->
  forall count i table,
    holdsLines line count i table = true ->
    length table = (8 * count)%nat /\
    forall j, 0 <= j < Z.of_nat count ->
      subarray table (8 * j) (8 * j + 8) = line (i + j).
Proof.
  intros Hline. induction count as [|count IH]; intros i table H.
  - destruct table; [|discriminate]. split; [reflexivity|]. intros j Hj. lia.
  - cbn [holdsLines] in H. apply andb_true_iff in H as [Hhead Hrest].
    apply bool_decide_eq_true in Hhead.
    destruct (IH (i + 1) (drop 8 table) Hrest) as (Hl & Hall).
    assert (Ht : length (take 8 table) = 8%nat) by (rewrite Hhead; apply Hline).
    rewrite length_take in Ht. rewrite length_drop in Hl.
    split; [lia|].
    intros j Hj. unfold subarray.
    replace (8 * j + 8 - 8 * j) with 8 by lia. change (Z.to_nat 8) with 8%nat.
    destruct (Z.eq_dec j 0) as [->|Hne].
    + change (Z.to_nat (8 * 0)) with 0%nat. rewrite drop_0, Z.add_0_r. exact Hhead.
    + specialize (Hall (j - 1) ltac:(lia)). unfold subarray in Hall.
      replace (8 * (j - 1) + 8 - 8 * (j - 1)) with 8 in Hall by lia.
      change (Z.to_nat 8) with 8%nat in Hall. rewrite drop_drop in Hall.
      replace (8 + Z.to_nat (8 * (j - 1)))%nat with (Z.to_nat (8 * j)) in Hall by lia.
      rewrite Hall. f_equal. lia.
Qed.

Lemma KWZ_LINE_TABLE_lines :
  holdsLines lineOf (Z.to_nat 6561) 0 KWZ_LINE_TABLE = true.
Proof. vm_compute. reflexivity. Qed.

Lemma KWZ_LINE_TABLE_SHIFT_lines :
  holdsLines (fun i => rotated (lineOf i)) (Z.to_nat 6561) 0 KWZ_LINE_TABLE_SHIFT = true.
Proof. vm_compute. reflexivity. Qed.

Lemma KWZ_LINE_TABLE_COMMON_lines :
  holdsLines (fun i => lineOf (JS.int_of (at_ KWZ_COMMON_LINE_INDICES i)))
    32 0 KWZ_LINE_TABLE_COMMON = true.
Proof. vm_compute. reflexivity. Qed.

Lemma KWZ_LINE_TABLE_COMMON_SHIFT_lines :
  holdsLines
    (fun i => rotated (lineOf (JS.int_of (at_ KWZ_COMMON_LINE_INDICES i))))
    32 0 KWZ_LINE_TABLE_COMMON_SHIFT = true.
Proof. vm_compute. reflexivity. Qed.

Lemma digit3_ternary i k : ternary (digit3 i k).
Proof.
  unfold ternary, digit3. pose proof (Z.mod_pos_bound (i / 3 ^ k) 3 ltac:(lia)). lia.
Qed.

(** The index of a line, from its pixels. *)
Lemma lineOf_index i :
  0 <= i < 6561 ->
  i = digit3 i 0 + 3 * (digit3 i 1 + 3 * (digit3 i 2 + 3 * (digit3 i 3
      + 3 * (digit3 i 4 + 3 * (digit3 i 5 + 3 * (digit3 i 6 + 3 * digit3 i 7)))))).
Proof.
  intros Hi.
  assert (Hall : forallb (fun i =>
              i =? digit3 i 0 + 3 * (digit3 i 1 + 3 * (digit3 i 2 + 3 * (digit3 i 3
                   + 3 * (digit3 i 4 + 3 * (digit3 i 5 + 3 * (digit3 i 6
                   + 3 * digit3 i 7)))))))
            (seqZ 0 6561) = true) by (vm_compute; reflexivity).
  rewrite forallb_forall in Hall. apply Z.eqb_eq, Hall.
  apply list_elem_of_In, elem_of_seqZ. lia.
Qed.

(** X21.  The line tables of format B hold a line of eight pixels for
    every index from 0 to 6560: the pixels of line [i] are the eight
    base-3 digits of [i], the most significant first and swapped in
    pairs, so that they are 0, 1 or 2 and two indices with the same line
    are the same; [KWZ_LINE_TABLE_SHIFT] holds the same line rotated to
    the left by one pixel; and the two tables of common lines hold, for
    each of their 32 indices, the lines the full tables hold for the
    index listed in [KWZ_COMMON_LINE_INDICES]. *)
Theorem kwz_line_tables (i : Z) :
  0 <= i < 6561 ->
  subarray KWZ_LINE_TABLE (8 * i) (8 * i + 8) = lineOf i /\
  subarray KWZ_LINE_TABLE_SHIFT (8 * i) (8 * i + 8) = rotated (lineOf i) /\
  Forall ternary (lineOf i) /\
  (forall j, 0 <= j < 6561 -> lineOf j = lineOf i -> j = i) /\
  (0 <= i < 32 ->
   exists value,
     at_ KWZ_COMMON_LINE_INDICES i = Some value /\ 0 <= value < 6561 /\
     subarray KWZ_LINE_TABLE_COMMON (8 * i) (8 * i + 8)
     = subarray KWZ_LINE_TABLE (8 * value) (8 * value + 8) /\
     subarray KWZ_LINE_TABLE_COMMON_SHIFT (8 * i) (8 * i + 8)
     = subarray KWZ_LINE_TABLE_SHIFT (8 * value) (8 * value + 8)).
Proof.
  intros Hi.
  destruct (holdsLines_spec lineOf ltac:(reflexivity) (Z.to_nat 6561) 0 _ KWZ_LINE_TABLE_lines)
    as (_ & HL).
  destruct (holdsLines_spec (fun i => rotated (lineOf i)) ltac:(reflexivity)
              (Z.to_nat 6561) 0 _ KWZ_LINE_TABLE_SHIFT_lines) as (_ & HS).
  split; [exact (HL i ltac:(lia))|]. split; [exact (HS i ltac:(lia))|].
  split; [repeat (constructor; [apply digit3_ternary|]); constructor|].
  split.
  - intros j Hj E. unfold lineOf in E.
    injection E as E6 E7 E4 E5 E2 E3 E0 E1.
    rewrite (lineOf_index i Hi), (lineOf_index j Hj). congruence.
  - intros Hc.
    destruct (holdsLines_spec
                (fun i => lineOf (JS.int_of (at_ KWZ_COMMON_LINE_INDICES i)))
                ltac:(reflexivity) 32 0 _ KWZ_LINE_TABLE_COMMON_lines) as (_ & HC).
    destruct (holdsLines_spec
                (fun i => rotated (lineOf (JS.int_of (at_ KWZ_COMMON_LINE_INDICES i))))
                ltac:(reflexivity) 32 0 _ KWZ_LINE_TABLE_COMMON_SHIFT_lines)
      as (_ & HCS).
    destruct (at_Some KWZ_COMMON_LINE_INDICES i ltac:(cbn; lia)) as [value Ev].
    assert (Hv : 0 <= value < 6561).
    { assert (Hall : Forall (fun v => 0 <= v < 6561) KWZ_COMMON_LINE_INDICES).
      { unfold KWZ_COMMON_LINE_INDICES.
        repeat (constructor; [lia|]). constructor. }
      exact (at_Forall _ _ _ _ Hall Ev). }
    exists value. split; [exact Ev|]. split; [exact Hv|].
    specialize (HC i ltac:(lia)). specialize (HCS i ltac:(lia)).
    cbv beta in HC, HCS. rewrite Z.add_0_l, Ev in HC, HCS. cbn [JS.int_of default] in HC, HCS.
    rewrite HC, HCS.
    split; symmetry; [exact (HL value ltac:(lia)) | exact (HS value ltac:(lia))].
Qed.

Lemma kwz_line_tables_witness :
  subarray KWZ_LINE_TABLE (8 * 5) (8 * 5 + 8) = lineOf 5 /\
  subarray KWZ_LINE_TABLE_SHIFT (8 * 5) (8 * 5 + 8) = rotated (lineOf 5) /\
  Forall ternary (lineOf 5) /\
  (forall j, 0 <= j < 6561 -> lineOf j = lineOf 5 -> j = 5) /\
  (0 <= 5 < 32 ->
   exists value,
     at_ KWZ_COMMON_LINE_INDICES 5 = Some value /\ 0 <= value < 6561 /\
     subarray KWZ_LINE_TABLE_COMMON (8 * 5) (8 * 5 + 8)
     = subarray KWZ_LINE_TABLE (8 * value) (8 * value + 8) /\
     subarray KWZ_LINE_TABLE_COMMON_SHIFT (8 * 5) (8 * 5 + 8)
     = subarray KWZ_LINE_TABLE_SHIFT (8 * value) (8 * value + 8)).
Proof. apply (kwz_line_tables 5). lia. Defined.

End LineTableFacts.

(** ** The image of one layer *)

Section PpmLayerFacts.
Import Ppm PpmView PpmImage.

Local Opaque layerLength.






End PpmLayerFacts.

Section KwzLayerFacts.
Import Kwz KwzView KwzImage.

Local Opaque layerLength.

Lemma kwz_decode_if_needed p i s :
  tables_ok p -> reachable p s ->
  prevFrameIndex s = Some i \/ is_Some (decodeFrame p i s) ->
  exists s',
    (if prevIsNot (prevFrameIndex s) i then decodeFrame p i s else Some s) = Some s' /\
    reachable p s' /\ prevFrameIndex s' = Some i /\
    (prevFrameIndex s = Some i -> s' = s).
Proof.
  intros Ht Hr Hdec. destruct (prevIsNot (prevFrameIndex s) i) eqn:Ep.
  - destruct Hdec as [Hprev | [s' Es]].
    { rewrite Hprev in Ep. cbn [prevIsNot] in Ep. rewrite Z.eqb_refl in Ep.
      discriminate. }
    exists s'. split; [exact Es|].
    split; [eapply reach_decode; eassumption|].
    destruct (reachable_chained p s Ht Hr) as [Hok Hch].
    pose proof Es as Es'.
    apply decodeFrame_Some in Es' as (Hi & Hc & Es').
    destruct (decodeFrameFrom_chained p Ht (Z.to_nat i) 7 false s s' Hok Hch
                ltac:(lia) ltac:(discriminate) Es') as (_ & Hprev & _).
    split; [rewrite Hprev; f_equal; lia|].
    intros Hp. rewrite Hp in Ep. cbn [prevIsNot] in Ep.
    rewrite Z.eqb_refl in Ep. discriminate.
  - exists s. split; [reflexivity|]. split; [exact Hr|].
    unfold prevIsNot in Ep. destruct (prevFrameIndex s) as [q|]; [|discriminate].
    apply negb_false_iff, Z.eqb_eq in Ep. split; [congruence | reflexivity].
Qed.

Lemma at_kwz_layerImage layers palette off q a :
  Z.of_nat (length layers) = 76800 -> at_ layers q = Some a ->
  at_ (layerImage layers palette off) q
  = Some (if a =? 1 then JS.int_of (at_ palette off) mod 256
          else if a =? 2 then JS.int_of (at_ palette (off + 1)) mod 256
          else 0).
Proof.
  intros Hl Ea. pose proof (at_in_length _ _ _ Ea) as Hq.
  unfold layerImage. change (320 * 240) with 76800.
  unfold at_ in *. destruct (Z.ltb_spec q 0); [lia|].
  rewrite lookup_app_l by (rewrite length_take, length_map; lia).
  rewrite lookup_take_lt by lia.
  change (map ?f layers) with (f <$> layers).
  rewrite list_lookup_fmap, Ea. reflexivity.
Qed.

Lemma length_kwz_layerImage layers palette off :
  Z.of_nat (length layers) = 76800 ->
  Z.of_nat (length (layerImage layers palette off)) = 76800.
Proof.
  intros Hl. unfold layerImage. change (320 * 240) with 76800.
  rewrite length_app, length_take, length_map, length_replicate. lia.
Qed.

(** X23.  Format B [getLayerPixels], for a layer of a frame whose record
    lies inside the file and which is the frame decoded last or can be
    decoded: it decodes the frame only when it is not the one decoded
    last, and returns an image of 320 x 240 pixels that has 0 where the
    layer is empty and the palette index of the layer's first or second
    colour where the layer holds 1 or 2. *)
Theorem kwz_layer_pixels (p : parser) (frameIndex layerIndex : Z) (s : state) :
  tables_ok p -> reachable p s -> record_inside p frameIndex ->
  prevFrameIndex s = Some frameIndex \/ is_Some (decodeFrame p frameIndex s) ->
  layerIndex = 0 \/ layerIndex = 1 \/ layerIndex = 2 ->
  exists image s' palette layers,
    getLayerPixels p frameIndex layerIndex s = Some (image, s') /\
    (prevFrameIndex s = Some frameIndex -> s' = s) /\
    prevFrameIndex s' = Some frameIndex /\
    getFramePaletteIndices p frameIndex = Some palette /\
    layer s' layerIndex = Some layers /\
    Z.of_nat (length image) = 76800 /\
    forall q, 0 <= q < 76800 ->
      (at_ layers q = Some 0 /\ at_ image q = Some 0) \/
      (exists a colour,
         at_ layers q = Some a /\ (a = 1 \/ a = 2) /\
         at_ palette (layerIndex * 2 + a) = Some colour /\ 0 <= colour <= 15 /\
         at_ image q = Some colour).
Proof.
  intros Ht Hr Hin Hdec HL.
  destruct (kwz_decode_if_needed p frameIndex s Ht Hr Hdec)
    as (s' & Es & Hr' & Hp & Hsame).
  pose proof (kwz_reachable_pixels_ok p s' Ht Hr') as Hok.
  destruct (getFramePaletteIndices_inside p frameIndex Hin)
    as (pal & Epal & Hlen & Hpal).
  destruct (layer_ok s' layerIndex Hok HL) as (layers & El & Ll & Tl).
  unfold getLayerPixels. rewrite Es. cbn [mbind option_bind].
  rewrite Epal. cbn [mbind option_bind]. rewrite El. cbn [mbind option_bind].
  exists (layerImage layers pal (layerIndex * 2 + 1)), s', pal, layers.
  split; [reflexivity|]. do 4 (split; [assumption || reflexivity|]).
  split; [apply length_kwz_layerImage, Ll|].
  intros q Hq.
  destruct (at_ternary layers q Tl Ll Hq) as [E0 | [E1 | E2]].
  - left. split; [exact E0|].
    rewrite (at_kwz_layerImage _ _ _ q 0 Ll E0). reflexivity.
  - right. destruct (colour_entry pal layerIndex 1 Hlen Hpal HL ltac:(lia))
      as (c & Ec & Ecol & Hc).
    exists 1, c. split; [exact E1|]. split; [auto|]. split; [exact Ec|].
    split; [exact Hc|].
    rewrite (at_kwz_layerImage _ _ _ q 1 Ll E1). cbn [Z.eqb Pos.eqb].
    unfold colour in Ecol. rewrite Ec in Ecol |- *. cbn [JS.int_of default] in *.
    rewrite Ecol. reflexivity.
  - right. destruct (colour_entry pal layerIndex 2 Hlen Hpal HL ltac:(lia))
      as (c & Ec & Ecol & Hc).
    exists 2, c. split; [exact E2|]. split; [auto|]. split; [exact Ec|].
    split; [exact Hc|].
    rewrite (at_kwz_layerImage _ _ _ q 2 Ll E2). cbn [Z.eqb Pos.eqb].
    replace (layerIndex * 2 + 1 + 1) with (layerIndex * 2 + 2) by lia.
    unfold colour in Ecol. rewrite Ec in Ecol |- *. cbn [JS.int_of default] in *.
    rewrite Ecol. reflexivity.
Qed.

Lemma kwz_layer_pixels_witness :
  exists image s' palette layers,
    getLayerPixels kwz_three_parser 1 0 fresh = Some (image, s') /\
    (prevFrameIndex fresh = Some 1 -> s' = fresh) /\
    prevFrameIndex s' = Some 1 /\
    getFramePaletteIndices kwz_three_parser 1 = Some palette /\
    layer s' 0 = Some layers /\
    Z.of_nat (length image) = 76800 /\
    forall q, 0 <= q < 76800 ->
      (at_ layers q = Some 0 /\ at_ image q = Some 0) \/
      (exists a colour,
         at_ layers q = Some a /\ (a = 1 \/ a = 2) /\
         at_ palette (0 * 2 + a) = Some colour /\ 0 <= colour <= 15 /\
         at_ image q = Some colour).
Proof.
  apply (kwz_layer_pixels kwz_three_parser 1 0 fresh).
  - exact kwz_three_tables_ok.
  - apply reach_fresh.
  - exact kwz_three_record_inside.
  - right. apply returns_is_Some. vm_compute. reflexivity.
  - left. reflexivity.
Defined.

End KwzLayerFacts.

(** ** The WAV encoder *)

Section WavFacts.
Import DataStream DataStreamWrite WavAudio.












End WavFacts.
